(** * Dependency-impact graph engine: the four analysis tools over the
      BusinessFunction / ElementalField graph

    Embedding of [tools/impact-analysis.ts], [tools/dependency-path.ts],
    [tools/critical-fields.ts], [tools/impact-summary.ts] and of
    [tools/lib/neo4j-connection.ts], with the masking of [lib/aws-config.ts].
    The graph store is external to the tools; it is modelled as an in-memory
    property graph on which the Cypher texts the tools send are evaluated,
    and which may refuse a query. *)

From Stdlib Require Import ZArith List String Bool Arith Lia QArith.
From Stdlib Require Import Sorted Permutation.
From Stdlib Require Import Qround Qabs Qpower Lqa.
Import ListNotations.
Local Open Scope string_scope.
Local Open Scope list_scope.
Local Open Scope nat_scope.

(** ** The property graph (Neo4j schema of the repository) *)

Inductive Label :=
| LBusinessFunction | LElementalField | LGroupField | LModule
| LRecord | LDataFile | LSourceFile | LCompilationUnit.

Inductive RelType :=
| HAS_INPUT_FIELD | HAS_OUTPUT_FIELD | WRITES_IN | HAS_FIELD | HAS_RECORD
| HAS_MODULE | HAS_BUSINESS_FUNCTION | HAS_SOURCE_FILE
| CONTRIBUTES_TO_BUSINESS_FUNCTION.

Definition Label_eqb (a b : Label) : bool :=
  match a, b with
  | LBusinessFunction, LBusinessFunction | LElementalField, LElementalField
  | LGroupField, LGroupField | LModule, LModule | LRecord, LRecord
  | LDataFile, LDataFile | LSourceFile, LSourceFile
  | LCompilationUnit, LCompilationUnit => true
  | _, _ => false
  end.

Definition RelType_eqb (a b : RelType) : bool :=
  match a, b with
  | HAS_INPUT_FIELD, HAS_INPUT_FIELD | HAS_OUTPUT_FIELD, HAS_OUTPUT_FIELD
  | WRITES_IN, WRITES_IN | HAS_FIELD, HAS_FIELD | HAS_RECORD, HAS_RECORD
  | HAS_MODULE, HAS_MODULE | HAS_BUSINESS_FUNCTION, HAS_BUSINESS_FUNCTION
  | HAS_SOURCE_FILE, HAS_SOURCE_FILE
  | CONTRIBUTES_TO_BUSINESS_FUNCTION, CONTRIBUTES_TO_BUSINESS_FUNCTION => true
  | _, _ => false
  end.

(** A node is identified by its position in [nodes]; [name] is the display
    name the tools look nodes up by, [outputName] the BusinessFunction
    property of that name (empty on other nodes). *)
Record Node := mkNode { label : Label; name : string; outputName : string }.

(** A relationship is identified by its position in [rels]. *)
Record Rel := mkRel { rtype : RelType; startNode : nat; endNode : nat }.

Record Graph := mkGraph { nodes : list Node; rels : list Rel }.

Definition indexed {A} (l : list A) : list (nat * A) :=
  combine (seq 0 (List.length l)) l.

Definition hasLabel (g : Graph) (l : Label) (i : nat) : bool :=
  match nth_error (nodes g) i with
  | Some n => Label_eqb (label n) l
  | None => false
  end.

Definition nodeName (g : Graph) (i : nat) : string :=
  match nth_error (nodes g) i with Some n => name n | None => "" end.

Definition nodeOutputName (g : Graph) (i : nat) : string :=
  match nth_error (nodes g) i with Some n => outputName n | None => "" end.

(** [MATCH (n:l)] and [MATCH (n:l {name: nm})]. *)
Definition matchLabel (g : Graph) (l : Label) : list nat :=
  map fst (filter (fun p => Label_eqb (label (snd p)) l) (indexed (nodes g))).

Definition matchNamed (g : Graph) (l : Label) (nm : string) : list nat :=
  filter (fun i => String.eqb (nodeName g i) nm) (matchLabel g l).

(** [(i)-[:t]->(m:l)]: the [l]-labelled end nodes of the [t] relationships
    leaving [i], one per relationship. *)
Definition outTo (g : Graph) (t : RelType) (l : Label) (i : nat) : list nat :=
  map endNode
    (filter (fun r => RelType_eqb (rtype r) t && (startNode r =? i)
                      && hasLabel g l (endNode r)) (rels g)).

(** [(i)<-[:t]-(m:l)]: the [l]-labelled start nodes of the [t]
    relationships entering [i], one per relationship. *)
Definition inFrom (g : Graph) (t : RelType) (l : Label) (i : nat) : list nat :=
  map startNode
    (filter (fun r => RelType_eqb (rtype r) t && (endNode r =? i)
                      && hasLabel g l (startNode r)) (rels g)).

(** [(bf)-[:HAS_OUTPUT_FIELD]->(f:ElementalField)] *)
Definition outputFields (g : Graph) (bf : nat) : list nat :=
  outTo g HAS_OUTPUT_FIELD LElementalField bf.

(** [(f)<-[:HAS_INPUT_FIELD]-(bf:BusinessFunction)] *)
Definition consumers (g : Graph) (f : nat) : list nat :=
  inFrom g HAS_INPUT_FIELD LBusinessFunction f.

(** [(bf:BusinessFunction)-[:HAS_OUTPUT_FIELD]->(f)] *)
Definition producers (g : Graph) (f : nat) : list nat :=
  inFrom g HAS_OUTPUT_FIELD LBusinessFunction f.

(** ** impact-analysis.ts: the rows of its two Cypher texts *)

Record ImpactResult := mkImpact {
  sourceBusinessFunction : string;
  sourceOutputField : string;
  affectedBusinessFunction : string;
  affectedOutputField : string;
  impactDepth : nat;
  pathFields : list string
}.

Definition impactRow (g : Graph) (source_bf affected_bf depth : nat)
    (path : list string) : ImpactResult :=
  mkImpact (nodeName g source_bf) (nodeOutputName g source_bf)
           (nodeName g affected_bf) (nodeOutputName g affected_bf)
           depth path.

(** The first MATCH clauses of both texts: the bindings of
    [(source_bf, start_field)].  With [isOutputField] the field is looked up
    by name and every BusinessFunction producing it is a source; otherwise
    the BusinessFunction is looked up by name. *)
Definition impactSources (g : Graph) (isOutputField : bool)
    (identifier : string) : list (nat * nat) :=
  if isOutputField then
    flat_map (fun source_bf =>
      map (fun f => (source_bf, f))
          (filter (fun f => String.eqb (nodeName g f) identifier)
                  (outputFields g source_bf)))
      (matchLabel g LBusinessFunction)
  else
    flat_map (fun source_bf =>
      map (fun f => (source_bf, f)) (outputFields g source_bf))
      (matchNamed g LBusinessFunction identifier).

(** The text of [analyzeDirectImpact]: no LIMIT. *)
Definition directImpactRows (g : Graph) (isOutputField : bool)
    (identifier : string) : list ImpactResult :=
  flat_map (fun '(source_bf, output_field) =>
    map (fun affected_bf =>
           impactRow g source_bf affected_bf 1 [nodeName g output_field])
        (consumers g output_field))
    (impactSources g isOutputField identifier).

(** The [depth] generated clauses
    [MATCH (field_i)<-[:HAS_INPUT_FIELD]-(bf_{i+1}:BusinessFunction)
           -[:HAS_OUTPUT_FIELD]->(field_{i+1}:ElementalField)]
    from the binding [field], with the field names collected so far. *)
Fixpoint hops (g : Graph) (depth : nat) (field : nat) (names : list string)
    : list (nat * list string) :=
  match depth with
  | O => [(field, names)]
  | S d =>
      flat_map (fun bf =>
        flat_map (fun field' => hops g d field' (names ++ [nodeName g field']))
                 (outputFields g bf))
        (consumers g field)
  end.

(** The text built in the loop body of [analyzeMultiHopImpact] at [depth]:
    [depth] intermediate hops, then the final consumer, tagged [depth + 1],
    [LIMIT 100]. *)
Definition multiHopRows (g : Graph) (isOutputField : bool)
    (identifier : string) (depth : nat) : list ImpactResult :=
  firstn 100
    (flat_map (fun '(source_bf, start_field) =>
       flat_map (fun '(field_d, names) =>
          map (fun final_bf => impactRow g source_bf final_bf (depth + 1) names)
              (consumers g field_d))
         (hops g depth start_field [nodeName g start_field]))
       (impactSources g isOutputField identifier)).

(** ** dependency-path.ts: variable-length patterns *)

(** The relationships at node [i], followed in either direction:
    (relationship, node at the other end). *)
Definition incident (g : Graph) (i : nat) : list (nat * nat) :=
  flat_map (fun '(k, r) =>
              if startNode r =? i then [(k, endNode r)]
              else if endNode r =? i then [(k, startNode r)]
              else [])
           (indexed (rels g)).

(** [(cur)-[*1..n]-(target)]: every sequence of one to [n] pairwise
    distinct relationships leading from [cur] to [target]; [used] holds the
    relationships already on the path.  A step is (relationship, node
    reached). *)
Fixpoint trailsFrom (g : Graph) (target : nat) (n : nat) (cur : nat)
    (used : list nat) : list (list (nat * nat)) :=
  match n with
  | O => []
  | S k =>
      flat_map (fun '(r, m) =>
        if existsb (Nat.eqb r) used then []
        else (if m =? target then [[(r, m)]] else [])
             ++ map (cons (r, m)) (trailsFrom g target k m (r :: used)))
        (incident g cur)
  end.

(** [type(r) IN ['HAS_OUTPUT_FIELD', 'HAS_INPUT_FIELD']] *)
Definition isDependencyRel (g : Graph) (k : nat) : bool :=
  match nth_error (rels g) k with
  | Some r => RelType_eqb (rtype r) HAS_OUTPUT_FIELD
              || RelType_eqb (rtype r) HAS_INPUT_FIELD
  | None => false
  end.

(** [WHERE all(r in relationships(path) WHERE type(r) IN [...])] *)
Definition allDependencyRels (g : Graph) (steps : list (nat * nat)) : bool :=
  forallb (fun s => isDependencyRel g (fst s)) steps.

Record PathRow := mkPathRow {
  rowSource : string;
  rowTarget : string;
  rowPathLength : nat;
  rowBusinessFunctions : list string;
  rowFields : list string
}.

(** The WITH / RETURN part shared by the three texts, for a path from
    [source] along [steps]. *)
Definition pathRow (g : Graph) (source : nat) (steps : list (nat * nat))
    : PathRow :=
  let pathNodes := source :: map snd steps in
  let businessFunctions :=
    map (nodeName g) (filter (hasLabel g LBusinessFunction) pathNodes) in
  let fields :=
    map (nodeName g) (filter (hasLabel g LElementalField) pathNodes) in
  mkPathRow (hd "" businessFunctions) (last businessFunctions "")
            (List.length steps / 2) businessFunctions fields.

(** The bindings of [(source, target)] of the first two MATCH clauses. *)
Definition endpoints (g : Graph) (source target : string) : list (nat * nat) :=
  flat_map (fun s => map (fun t => (s, t))
                         (matchNamed g LBusinessFunction target))
           (matchNamed g LBusinessFunction source).

(** The paths the pattern [(source)-[*1..2*maxDepth]-(target)] binds under
    the WHERE clause on relationship types. *)
Definition dependencyTrails (g : Graph) (maxDepth : nat) (s t : nat)
    : list (list (nat * nat)) :=
  filter (allDependencyRels g) (trailsFrom g t (maxDepth * 2) s []).

(** [shortestPath(...)]: one path of least length among those the pattern
    and its WHERE clause admit, none when there is none. *)
Definition shortestOf (ps : list (list (nat * nat)))
    : list (list (nat * nat)) :=
  match ps with
  | [] => []
  | p :: rest =>
      [fold_left (fun best q =>
                    if List.length q <? List.length best then q else best)
                 rest p]
  end.

(** Stable insertion sort, for ORDER BY. *)
Fixpoint insertBy {A} (le : A -> A -> bool) (x : A) (l : list A) : list A :=
  match l with
  | [] => [x]
  | y :: t => if le x y then x :: l else y :: insertBy le x t
  end.

Definition stableSort {A} (le : A -> A -> bool) (l : list A) : list A :=
  fold_right (insertBy le) [] l.

Definition orderAsc {A} (key : A -> nat) : list A -> list A :=
  stableSort (fun a b => key a <=? key b).

Definition orderDesc {A} (key : A -> nat) : list A -> list A :=
  stableSort (fun a b => key b <=? key a).

(** Neo4j refuses [shortestPath] between a node and itself. *)
Definition shortestPathRows (g : Graph) (source target : string)
    (maxDepth limit : nat) : string + list PathRow :=
  if existsb (fun '(s, t) => s =? t) (endpoints g source target) then
    inl "The shortest path algorithm does not work when the start and end nodes are the same."
  else
    inr (firstn limit
          (flat_map (fun '(s, t) =>
                       map (pathRow g s)
                           (shortestOf (dependencyTrails g maxDepth s t)))
                    (endpoints g source target))).

Definition allPathRows (g : Graph) (source target : string)
    (maxDepth limit : nat) : list PathRow :=
  firstn limit
    (orderAsc rowPathLength
      (flat_map (fun '(s, t) =>
                   map (pathRow g s)
                       (filter (fun p => List.length p <=? maxDepth * 2)
                               (dependencyTrails g maxDepth s t)))
                (endpoints g source target))).

Definition longestPathRows (g : Graph) (source target : string)
    (maxDepth limit : nat) : list PathRow :=
  firstn limit
    (orderDesc rowPathLength
      (flat_map (fun '(s, t) =>
                   map (pathRow g s) (dependencyTrails g maxDepth s t))
                (endpoints g source target))).

(** ** JavaScript numbers

    Counts that the graph store returns are integers and are kept as [nat].
    A value that comes out of a division is a [number]: a finite value is
    held as the exact rational (the double is its rounding), and the three
    special values of IEEE arithmetic are kept apart.  Negative zero is not
    distinguished. *)
Inductive number := Finite (q : Q) | NaN | PosInfinity | NegInfinity.

Definition ofNat (n : nat) : number := Finite (inject_Z (Z.of_nat n)).

Definition signOf (q : Q) : comparison := (Qnum q ?= 0)%Z.

Definition infinityOf (c : comparison) : number :=
  match c with Lt => NegInfinity | Eq => NaN | Gt => PosInfinity end.

Definition flipSign (c : comparison) : comparison :=
  match c with Lt => Gt | Eq => Eq | Gt => Lt end.

(** [a / b] *)
Definition numDiv (a b : number) : number :=
  match a, b with
  | NaN, _ | _, NaN => NaN
  | Finite x, Finite y =>
      match signOf y with
      | Eq => infinityOf (signOf x)
      | _ => Finite (x / y)
      end
  | Finite _, (PosInfinity | NegInfinity) => Finite 0
  | (PosInfinity | NegInfinity), (PosInfinity | NegInfinity) => NaN
  | PosInfinity, Finite y =>
      match signOf y with Lt => NegInfinity | _ => PosInfinity end
  | NegInfinity, Finite y =>
      match signOf y with Lt => PosInfinity | _ => NegInfinity end
  end.

(** [a * b] *)
Definition numMul (a b : number) : number :=
  match a, b with
  | NaN, _ | _, NaN => NaN
  | Finite x, Finite y => Finite (x * y)
  | Finite x, PosInfinity | PosInfinity, Finite x => infinityOf (signOf x)
  | Finite x, NegInfinity | NegInfinity, Finite x =>
      infinityOf (flipSign (signOf x))
  | PosInfinity, PosInfinity | NegInfinity, NegInfinity => PosInfinity
  | PosInfinity, NegInfinity | NegInfinity, PosInfinity => NegInfinity
  end.

(** [a + b] *)
Definition numAdd (a b : number) : number :=
  match a, b with
  | NaN, _ | _, NaN => NaN
  | Finite x, Finite y => Finite (x + y)
  | PosInfinity, NegInfinity | NegInfinity, PosInfinity => NaN
  | PosInfinity, _ | _, PosInfinity => PosInfinity
  | NegInfinity, _ | _, NegInfinity => NegInfinity
  end.

(** [Math.max(a, b)] *)
Definition numMax (a b : number) : number :=
  match a, b with
  | NaN, _ | _, NaN => NaN
  | PosInfinity, _ | _, PosInfinity => PosInfinity
  | NegInfinity, x | x, NegInfinity => x
  | Finite x, Finite y => if Qle_bool x y then Finite y else Finite x
  end.

(** [Math.max(...xs)]: [-Infinity] when there is no argument. *)
Definition mathMax (xs : list number) : number :=
  fold_left numMax xs NegInfinity.

(** Truthiness of a number, for [x || y]. *)
Definition truthy (a : number) : bool :=
  match a with
  | NaN => false
  | Finite x => match signOf x with Eq => false | _ => true end
  | _ => true
  end.

Definition orElse (a b : number) : number := if truthy a then a else b.

(** [n || d] on a count. *)
Definition natOrElse (n d : nat) : nat := if n =? 0 then d else n.

(** Descending order on numbers that are finite, for ORDER BY ... DESC on a
    float column. *)
Definition numLeb (a b : number) : bool :=
  match a, b with
  | Finite x, Finite y => Qle_bool x y
  | NegInfinity, _ | _, PosInfinity => true
  | _, _ => false
  end.

(** ** Rounding to binary64

    Where a property speaks of rounding, the rounding of an arithmetic
    operation is written out.  [roundDouble x] is the double nearest to [x],
    ties to even, for a value in the normal range (no overflow, no
    subnormal): the significand [|x| / 2^e] is brought into [2^52, 2^53) and
    rounded to an integer. *)
Definition twoTo (e : Z) : Q := (2 ^ e)%Q.

Definition roundHalfEven (s : Q) : Z :=
  let f := Qfloor s in
  match Qcompare (s - inject_Z f) (1 # 2) with
  | Lt => f
  | Gt => (f + 1)%Z
  | Eq => if Z.even f then f else (f + 1)%Z
  end.

Definition exponentOf (x : Q) : Z :=
  let e := (Z.log2 (Z.abs (Qnum x)) - Z.log2 (Zpos (Qden x)) - 52)%Z in
  if Qle_bool (twoTo 52) (Qabs x / twoTo e) then e else (e - 1)%Z.

Definition roundDouble (x : Q) : Q :=
  if Qeq_bool x 0 then 0%Q
  else
    let e := exponentOf x in
    let m := roundHalfEven (Qabs x / twoTo e) in
    ((if Qle_bool 0 x then inject_Z m else - inject_Z m) * twoTo e)%Q.

Definition numRound (a : number) : number :=
  match a with
  | Finite q => Finite (roundDouble q)
  | other => other
  end.

(** Two roundings in a row move a non-negative value by at most this
    fraction of it: (1 + 2^-53)^2 - 1. *)
Definition twoRoundings : Q := (twoTo (-52) + twoTo (-106))%Q.

(** ** critical-fields.ts: the rows of its two Cypher texts *)

Record FieldImpactData := mkFieldImpact {
  fieldName : string;
  producerCount : nat;
  consumerCount : nat;
  impactRatio : number;
  totalConnections : nat
}.

Inductive SortKey := ByConsumers | ByProducers | ByRatio.

(** [getSortClause]: the strings 'consumers', 'producers', 'ratio'; any
    other string sorts by consumerCount. *)
Definition getSortClause (sortBy : string) : SortKey :=
  if String.eqb sortBy "consumers" then ByConsumers
  else if String.eqb sortBy "producers" then ByProducers
  else if String.eqb sortBy "ratio" then ByRatio
  else ByConsumers.

Definition orderFieldsDesc (k : SortKey) : list FieldImpactData -> list FieldImpactData :=
  match k with
  | ByConsumers => orderDesc consumerCount
  | ByProducers => orderDesc producerCount
  | ByRatio => stableSort (fun a b => numLeb (impactRatio b) (impactRatio a))
  end.

(** [MATCH (field:ElementalField) WITH field, producers, consumers]: every
    ElementalField with its producer and consumer counts. *)
Definition fieldCounts (g : Graph) : list (nat * (nat * nat)) :=
  map (fun f => (f, (List.length (producers g f), List.length (consumers g f))))
      (matchLabel g LElementalField).

(** [WHERE size(producers) > 0 AND size(consumers) > 0] *)
Definition eligibleFields (g : Graph) : list (nat * (nat * nat)) :=
  filter (fun '(_, (p, c)) => (0 <? p) && (0 <? c)) (fieldCounts g).

Definition criticalFieldRows (g : Graph) (minConsumers limit : nat)
    (k : SortKey) : list FieldImpactData :=
  firstn limit
    (orderFieldsDesc k
      (map (fun '(f, (p, c)) =>
              mkFieldImpact (nodeName g f) p c (numDiv (ofNat c) (ofNat p))
                            (p + c))
           (filter (fun '(_, (p, c)) => (0 <? p) && (minConsumers <=? c))
                   (fieldCounts g)))).

(** [sum(CASE WHEN cond THEN 1 ELSE 0 END)] over a column. *)
Definition sumCase (cond : nat -> bool) (col : list nat) : nat :=
  fold_right (fun c acc => (if cond c then 1 else 0) + acc) 0 col.

Record DistributionStats := mkDistributionStats {
  lowImpact : nat;
  mediumImpact : nat;
  highImpact : nat;
  criticalImpact : nat
}.

(** [WITH size(consumers) as consumerCount] *)
Definition consumerCountColumn (g : Graph) : list nat :=
  map (fun '(_, (_, c)) => c) (eligibleFields g).

(** The aggregation of [getFieldDistributionStats]: always one row. *)
Definition distributionStatsRows (g : Graph) : list DistributionStats :=
  let col := consumerCountColumn g in
  [mkDistributionStats
     (sumCase (fun c => c <? 10) col)
     (sumCase (fun c => (10 <=? c) && (c <? 100)) col)
     (sumCase (fun c => (100 <=? c) && (c <? 1000)) col)
     (sumCase (fun c => 1000 <=? c) col)].

(** ** impact-summary.ts: the rows of its Cypher texts *)

(** Row of the fourth text of [getSystemStats].  [avg] and [max] over no
    row are null, hence the options. *)
Record AvgStatsRow := mkAvgStats {
  rowAvgInputFields : option number;
  rowAvgOutputFields : option number;
  rowMaxInputFields : option nat;
  rowMaxOutputFields : option nat
}.

Fixpoint dedup (l : list nat) : list nat :=
  match l with
  | [] => []
  | x :: t => if existsb (Nat.eqb x) t then dedup t else x :: dedup t
  end.

Definition avgOf (col : list nat) : option number :=
  match col with
  | [] => None
  | _ => Some (numDiv (ofNat (fold_right Nat.add 0 col)) (ofNat (List.length col)))
  end.

Definition maxOf (col : list nat) : option nat :=
  match col with
  | [] => None
  | x :: t => Some (fold_right Nat.max x t)
  end.

(** [count(DISTINCT input)] and [count(DISTINCT output)] per
    BusinessFunction. *)
Definition inputCounts (g : Graph) : list nat :=
  map (fun bf => List.length (dedup (outTo g HAS_INPUT_FIELD LElementalField bf)))
      (matchLabel g LBusinessFunction).

Definition outputCounts (g : Graph) : list nat :=
  map (fun bf => List.length (dedup (outTo g HAS_OUTPUT_FIELD LElementalField bf)))
      (matchLabel g LBusinessFunction).

Definition avgStatsRows (g : Graph) : list AvgStatsRow :=
  [mkAvgStats (avgOf (inputCounts g)) (avgOf (outputCounts g))
              (maxOf (inputCounts g)) (maxOf (outputCounts g))].

(** [MATCH ()-[r:HAS_INPUT_FIELD|HAS_OUTPUT_FIELD]->() RETURN count(r)] *)
Definition relCount (g : Graph) : nat :=
  List.length (filter (fun k => isDependencyRel g k) (seq 0 (List.length (rels g)))).

Record ConnectedBF := mkConnectedBF { bfName : string; connections : nat }.

(** [(bf)-[:HAS_INPUT_FIELD|HAS_OUTPUT_FIELD]-(field:ElementalField)] *)
Definition touchedFields (g : Graph) (bf : nat) : list nat :=
  map snd (filter (fun '(k, m) => isDependencyRel g k && hasLabel g LElementalField m)
                  (incident g bf)).

Definition highlyConnectedRows (g : Graph) : list ConnectedBF :=
  firstn 10
    (orderDesc connections
      (filter (fun r => 0 <? connections r)
        (map (fun bf => mkConnectedBF (nodeName g bf)
                          (List.length (dedup (touchedFields g bf))))
             (matchLabel g LBusinessFunction)))).

Record ComponentStatsRow := mkComponentStats {
  rowTotalNodes : nat;
  rowConnectedComponents : nat
}.

Definition componentStatsRows (g : Graph) : list ComponentStatsRow :=
  [mkComponentStats (List.length (matchLabel g LBusinessFunction)) 1].

Record TopField := mkTopField {
  field : string;
  consumersOf : nat;
  producersOf : nat
}.

Definition topFieldRows (g : Graph) : list TopField :=
  map (fun '(f, (p, c)) => mkTopField (nodeName g f) c p) (eligibleFields g).

(** [ORDER BY consumers DESC LIMIT $topCount] *)
Definition topConsumerRows (g : Graph) (topCount : nat) : list TopField :=
  firstn topCount (orderDesc consumersOf (topFieldRows g)).

(** [ORDER BY producers DESC LIMIT $topCount] *)
Definition topProducerRows (g : Graph) (topCount : nat) : list TopField :=
  firstn topCount (orderDesc producersOf (topFieldRows g)).

Record SixBandRow := mkSixBand {
  range1to10 : nat;
  range11to50 : nat;
  range51to100 : nat;
  range101to500 : nat;
  range501to1000 : nat;
  range1000plus : nat;
  total : nat
}.

(** The aggregation of [getFieldDistribution]: always one row. *)
Definition sixBandRows (g : Graph) : list SixBandRow :=
  let col := consumerCountColumn g in
  [mkSixBand
     (sumCase (fun c => c <=? 10) col)
     (sumCase (fun c => (10 <? c) && (c <=? 50)) col)
     (sumCase (fun c => (50 <? c) && (c <=? 100)) col)
     (sumCase (fun c => (100 <? c) && (c <=? 500)) col)
     (sumCase (fun c => (500 <? c) && (c <=? 1000)) col)
     (sumCase (fun c => 1000 <? c) col)
     (List.length col)].

(** ** The Cypher texts as descriptors, and their evaluation *)

Inductive Cypher :=
| QDirectImpact (isOutputField : bool) (identifier : string)
| QMultiHopImpact (isOutputField : bool) (identifier : string) (depth : nat)
| QShortestPath (source target : string) (maxDepth limit : nat)
| QAllPaths (source target : string) (maxDepth limit : nat)
| QLongestPaths (source target : string) (maxDepth limit : nat)
| QCriticalFields (minConsumers limit : nat) (key : SortKey)
| QFieldDistributionStats
| QCountBusinessFunctions
| QCountFields
| QCountRelationships
| QAvgStats
| QHighlyConnected
| QComponentStats
| QTopConsumers (topCount : nat)
| QTopProducers (topCount : nat)
| QSixBands.

Definition RowType (c : Cypher) : Type :=
  match c with
  | QDirectImpact _ _ | QMultiHopImpact _ _ _ => ImpactResult
  | QShortestPath _ _ _ _ | QAllPaths _ _ _ _ | QLongestPaths _ _ _ _ => PathRow
  | QCriticalFields _ _ _ => FieldImpactData
  | QFieldDistributionStats => DistributionStats
  | QCountBusinessFunctions | QCountFields | QCountRelationships => nat
  | QAvgStats => AvgStatsRow
  | QHighlyConnected => ConnectedBF
  | QComponentStats => ComponentStatsRow
  | QTopConsumers _ | QTopProducers _ => TopField
  | QSixBands => SixBandRow
  end.

(** What the graph store answers: the rows, or the reason it refuses. *)
Definition evalCypher (g : Graph) (c : Cypher) : string + list (RowType c) :=
  match c return string + list (RowType c) with
  | QDirectImpact isOutputField identifier =>
      inr (directImpactRows g isOutputField identifier)
  | QMultiHopImpact isOutputField identifier depth =>
      inr (multiHopRows g isOutputField identifier depth)
  | QShortestPath source target maxDepth limit =>
      shortestPathRows g source target maxDepth limit
  | QAllPaths source target maxDepth limit =>
      inr (allPathRows g source target maxDepth limit)
  | QLongestPaths source target maxDepth limit =>
      inr (longestPathRows g source target maxDepth limit)
  | QCriticalFields minConsumers limit key =>
      inr (criticalFieldRows g minConsumers limit key)
  | QFieldDistributionStats => inr (distributionStatsRows g)
  | QCountBusinessFunctions =>
      inr [List.length (matchLabel g LBusinessFunction)]
  | QCountFields => inr [List.length (matchLabel g LElementalField)]
  | QCountRelationships => inr [relCount g]
  | QAvgStats => inr (avgStatsRows g)
  | QHighlyConnected => inr (highlyConnectedRows g)
  | QComponentStats => inr (componentStatsRows g)
  | QTopConsumers topCount => inr (topConsumerRows g topCount)
  | QTopProducers topCount => inr (topProducerRows g topCount)
  | QSixBands => inr (sixBandRows g)
  end.

(** ** lib/neo4j-connection.ts: queries as effects

    A backend is the graph it holds together with the queries it fails on:
    either the connection cannot be established ([connect] throws) or the
    session refuses the query ([session.run] throws).  The lifecycle of the
    shared connection object is not modelled. *)

Inductive Fault :=
| Unreachable (cause : string)
| Refused (cause : string).

Record Backend := mkBackend {
  graph : Graph;
  fault : Cypher -> option Fault
}.

Inductive Error :=
| ConnectError (cause : string)              (* Failed to connect to Neo4j at ... *)
| QueryError (cause : string) (query : Cypher) (* Neo4j query failed: ... *)
| TypeError (msg : string)
| PlainError (msg : string).

(** What a run leaves behind: the queries sent to the store and the lines
    written with [console.error] by a catch block. *)
Inductive Event :=
| Sent (query : Cypher)
| ConsoleError (msg : string) (e : Error).

Inductive outcome (A : Type) :=
| Ok (a : A)
| Throw (e : Error).
Arguments Ok {A} a.
Arguments Throw {A} e.

Definition IO (A : Type) : Type := list Event -> outcome A * list Event.

Definition ret {A} (a : A) : IO A := fun tr => (Ok a, tr).

Definition bind {A B} (m : IO A) (k : A -> IO B) : IO B :=
  fun tr =>
    match m tr with
    | (Ok a, tr') => k a tr'
    | (Throw e, tr') => (Throw e, tr')
    end.

Definition throw {A} (e : Error) : IO A := fun tr => (Throw e, tr).

Definition tryCatch {A} (body : IO A) (handler : Error -> IO A) : IO A :=
  fun tr =>
    match body tr with
    | (Ok a, tr') => (Ok a, tr')
    | (Throw e, tr') => handler e tr'
    end.

Definition emit (ev : Event) : IO unit := fun tr => (Ok tt, tr ++ [ev]).

Definition consoleError (msg : string) (e : Error) : IO unit :=
  emit (ConsoleError msg e).

Declare Scope io_scope.
Delimit Scope io_scope with io.
Notation "x <- m ;; k" := (bind m (fun x => k))
  (at level 61, m at next level, right associativity) : io_scope.
Notation "m ;;; k" := (bind m (fun _ => k))
  (at level 61, right associativity) : io_scope.
Local Open Scope io_scope.

(** [queryNeo4j(cypher, parameters)] *)
Definition queryNeo4j (B : Backend) (c : Cypher) : IO (list (RowType c)) :=
  match fault B c with
  | Some (Unreachable cause) => throw (ConnectError cause)
  | Some (Refused cause) => emit (Sent c) ;;; throw (QueryError cause c)
  | None =>
      emit (Sent c) ;;;
      match evalCypher (graph B) c with
      | inr rows => ret rows
      | inl cause => throw (QueryError cause c)
      end
  end.

(** [const [x] = rows; ... x.prop]: reading a property of the first row
    throws when there is none. *)
Definition firstRow {A} (rows : list A) : IO A :=
  match rows with
  | r :: _ => ret r
  | [] => throw (TypeError "undefined is not an object")
  end.

(** ** tools/impact-analysis.ts *)
Module ImpactAnalysis.

Definition copyRow (row : ImpactResult) : ImpactResult :=
  {| sourceBusinessFunction := sourceBusinessFunction row;
     sourceOutputField := sourceOutputField row;
     affectedBusinessFunction := affectedBusinessFunction row;
     affectedOutputField := affectedOutputField row;
     impactDepth := impactDepth row;
     pathFields := pathFields row |}.

Definition analyzeDirectImpact (B : Backend) (identifier : string)
    (isOutputField : bool) : IO (list ImpactResult) :=
  results <- queryNeo4j B (QDirectImpact isOutputField identifier) ;;
  ret (map copyRow results).

(** The loop [for (let depth = 1; depth <= maxDepth; depth++)] with
    [remaining] iterations left, the next one at [depth]. *)
Fixpoint multiHopLoop (B : Backend) (identifier : string)
    (isOutputField : bool) (remaining depth : nat)
    (results : list ImpactResult) : IO (list ImpactResult) :=
  match remaining with
  | O => ret results
  | S remaining' =>
      depthResults <- queryNeo4j B (QMultiHopImpact isOutputField identifier depth) ;;
      multiHopLoop B identifier isOutputField remaining' (S depth)
                   (results ++ map copyRow depthResults)
  end.

Definition analyzeMultiHopImpact (B : Backend) (identifier : string)
    (isOutputField : bool) (maxDepth : nat) : IO (list ImpactResult) :=
  multiHopLoop B identifier isOutputField maxDepth 1 [].

(** The choice made in [main] once the depth is validated
    ([depth === 1 ? analyzeDirectImpact : analyzeMultiHopImpact]); this is
    the operation the specification calls analyzeImpact. *)
Definition analyzeImpact (B : Backend) (identifier : string)
    (isOutputField : bool) (depth : nat) : IO (list ImpactResult) :=
  if depth =? 1 then analyzeDirectImpact B identifier isOutputField
  else analyzeMultiHopImpact B identifier isOutputField depth.

End ImpactAnalysis.

(** ** tools/dependency-path.ts *)
Module DependencyPath.

Record DependencyPath := mkDependencyPath {
  sourceBusinessFunction : string;
  targetBusinessFunction : string;
  pathLength : nat;
  businessFunctions : list string;
  fields : list string;
  pathDescription : string
}.

(** The [parts] array of [generatePathDescription]: position [i] of
    [businessFunctions] is followed by the arrow through [fields[i]], or by
    a bare arrow when [fields] is too short. *)
Fixpoint descriptionParts (businessFunctions fields : list string)
    : list string :=
  match businessFunctions with
  | [] => []
  | [b] => [b]
  | b :: bs =>
      b :: match fields with
           | f :: _ => ("--[" ++ f ++ "]-->")%string
           | [] => "-->"
           end
        :: descriptionParts bs (tl fields)
  end.

Definition generatePathDescription (businessFunctions fields : list string)
    : string :=
  match businessFunctions with
  | [] => ""
  | _ => String.concat " " (descriptionParts businessFunctions fields)
  end.

Definition toPath (row : PathRow) : DependencyPath :=
  {| sourceBusinessFunction := rowSource row;
     targetBusinessFunction := rowTarget row;
     pathLength := rowPathLength row;
     businessFunctions := rowBusinessFunctions row;
     fields := rowFields row;
     pathDescription :=
       generatePathDescription (rowBusinessFunctions row) (rowFields row) |}.

Definition findDependencyPaths (B : Backend) (source target : string)
    (maxDepth : nat) (pathType : string) (limit : nat)
    : IO (list DependencyPath) :=
  if String.eqb pathType "shortest" then
    results <- queryNeo4j B (QShortestPath source target maxDepth limit) ;;
    ret (map toPath results)
  else if String.eqb pathType "all" then
    results <- queryNeo4j B (QAllPaths source target maxDepth limit) ;;
    ret (map toPath results)
  else if String.eqb pathType "longest" then
    results <- queryNeo4j B (QLongestPaths source target maxDepth limit) ;;
    ret (map toPath results)
  else throw (PlainError ("Unknown path type: " ++ pathType)%string).

End DependencyPath.

(** ** tools/critical-fields.ts *)
Module CriticalFields.

Record CriticalFieldsSummary := mkSummary {
  totalFields : nat;
  highImpactFields : list FieldImpactData;
  averageConsumers : number;
  maxConsumers : number;
  distributionStats : DistributionStats
}.

Definition analyzeCriticalFields (B : Backend) (minConsumers limit : nat)
    (sortBy : string) : IO (list FieldImpactData) :=
  results <- queryNeo4j B (QCriticalFields minConsumers limit (getSortClause sortBy)) ;;
  ret (map (fun row =>
         {| fieldName := fieldName row;
            producerCount := producerCount row;
            consumerCount := consumerCount row;
            impactRatio :=
              orElse (impactRatio row)
                     (numDiv (ofNat (consumerCount row))
                             (ofNat (Nat.max (producerCount row) 1)));
            totalConnections :=
              natOrElse (totalConnections row)
                        (producerCount row + consumerCount row) |})
       results).

Definition getFieldDistributionStats (B : Backend) : IO DistributionStats :=
  results <- queryNeo4j B QFieldDistributionStats ;;
  match results with
  | r :: _ => ret r
  | [] => ret {| lowImpact := 0; mediumImpact := 0;
                 highImpact := 0; criticalImpact := 0 |}
  end.

Definition generateSummary (fields : list FieldImpactData)
    (distributionStats : DistributionStats) : CriticalFieldsSummary :=
  let totalFields := List.length fields in
  let averageConsumers :=
    numDiv (ofNat (fold_left (fun sum f => sum + consumerCount f) fields 0))
           (ofNat totalFields) in
  let maxConsumers := mathMax (map (fun f => ofNat (consumerCount f)) fields) in
  {| totalFields := totalFields;
     highImpactFields := firstn 10 fields;
     averageConsumers := averageConsumers;
     maxConsumers := maxConsumers;
     distributionStats := distributionStats |}.

(** The [risk] variable computed for each field under "Risk Assessment:" in
    [formatOutput]. *)
Definition riskOf (f : FieldImpactData) : string :=
  if 1000 <? consumerCount f then "CRITICAL"
  else if 500 <? consumerCount f then "HIGH"
  else if 100 <? consumerCount f then "MEDIUM"
  else "LOW".

(** The body of [main] for the summary format, once the options are
    validated: the ranked fields, then the distribution, then the summary. *)
Definition summarize (B : Backend) (minConsumers limit : nat)
    (sortBy : string) : IO CriticalFieldsSummary :=
  fields <- analyzeCriticalFields B minConsumers limit sortBy ;;
  distributionStats <- getFieldDistributionStats B ;;
  ret (generateSummary fields distributionStats).

End CriticalFields.

(** ** tools/impact-summary.ts *)
Module ImpactSummary.

Record SystemStats := mkSystemStats {
  totalBusinessFunctions : nat;
  totalFields : nat;
  totalRelationships : nat;
  avgInputFields : option number;
  avgOutputFields : option number;
  maxInputFields : option nat;
  maxOutputFields : option nat
}.

Record ConnectivityStats := mkConnectivityStats {
  connectedComponents : nat;
  largestComponentSize : nat;
  isolatedBusinessFunctions : nat;
  highlyConnectedBFs : list ConnectedBF
}.

Record Band := mkBand { range : string; count : nat; percentage : number }.

Record FieldDistribution := mkFieldDistribution {
  byConsumerCount : list Band;
  byProducerCount : list Band;
  topConsumerFields : list TopField;
  topProducerFields : list TopField
}.

Record FieldRisk := mkFieldRisk {
  riskField : string;
  risk : string;
  impact : string;
  recommendation : string
}.

Record RiskAssessment := mkRiskAssessment {
  criticalFields : list FieldRisk;
  systemFragility : string;
  recommendedActions : list string
}.

Record ImpactSummaryReport := mkReport {
  systemStats : SystemStats;
  connectivityStats : ConnectivityStats;
  fieldDistribution : FieldDistribution;
  riskAssessment : RiskAssessment
}.

Definition fallbackSystemStats : SystemStats :=
  {| totalBusinessFunctions := 0; totalFields := 0; totalRelationships := 0;
     avgInputFields := Some (ofNat 0); avgOutputFields := Some (ofNat 0);
     maxInputFields := Some 0; maxOutputFields := Some 0 |}.

Definition getSystemStats (B : Backend) : IO SystemStats :=
  tryCatch
    (bfRows <- queryNeo4j B QCountBusinessFunctions ;;
     fieldRows <- queryNeo4j B QCountFields ;;
     relRows <- queryNeo4j B QCountRelationships ;;
     avgRows <- queryNeo4j B QAvgStats ;;
     bfCount <- firstRow bfRows ;;
     fieldCount <- firstRow fieldRows ;;
     relCount <- firstRow relRows ;;
     avgStats <- firstRow avgRows ;;
     ret {| totalBusinessFunctions := bfCount;
            totalFields := fieldCount;
            totalRelationships := relCount;
            avgInputFields := rowAvgInputFields avgStats;
            avgOutputFields := rowAvgOutputFields avgStats;
            maxInputFields := rowMaxInputFields avgStats;
            maxOutputFields := rowMaxOutputFields avgStats |})
    (fun error =>
       consoleError "Error getting system stats:" error ;;;
       (* Return fallback data *)
       ret fallbackSystemStats).

Definition emptyConnectivityStats : ConnectivityStats :=
  {| connectedComponents := 0; largestComponentSize := 0;
     isolatedBusinessFunctions := 0; highlyConnectedBFs := [] |}.

Definition getConnectivityStats (B : Backend) : IO ConnectivityStats :=
  tryCatch
    (highlyConnected <- queryNeo4j B QHighlyConnected ;;
     componentRows <- queryNeo4j B QComponentStats ;;
     componentStats <- firstRow componentRows ;;
     ret {| connectedComponents := rowConnectedComponents componentStats;
            largestComponentSize := rowTotalNodes componentStats;
            isolatedBusinessFunctions := 0;
            highlyConnectedBFs :=
              map (fun row => {| bfName := bfName row;
                                 connections := connections row |})
                  highlyConnected |})
    (fun error =>
       consoleError "Error getting connectivity stats:" error ;;;
       ret emptyConnectivityStats).

Definition emptyFieldDistribution : FieldDistribution :=
  {| byConsumerCount := []; byProducerCount := [];
     topConsumerFields := []; topProducerFields := [] |}.

(** [(n / total) * 100] on doubles: the quotient is rounded, and so is the
    product.  The two counts are held exactly by a double as long as they are
    below 2^53. *)
Definition percentOf (n total : nat) : number :=
  numRound (numMul (numRound (numDiv (ofNat n) (ofNat total))) (ofNat 100)).

Definition getFieldDistribution (B : Backend) (topCount : nat)
    : IO FieldDistribution :=
  tryCatch
    (topConsumers <- queryNeo4j B (QTopConsumers topCount) ;;
     topProducers <- queryNeo4j B (QTopProducers topCount) ;;
     distributionStats <- queryNeo4j B QSixBands ;;
     stats <- firstRow distributionStats ;;
     let total := natOrElse (total stats) 1 in
     ret {| byConsumerCount :=
              [ mkBand "1-10" (range1to10 stats) (percentOf (range1to10 stats) total);
                mkBand "11-50" (range11to50 stats) (percentOf (range11to50 stats) total);
                mkBand "51-100" (range51to100 stats) (percentOf (range51to100 stats) total);
                mkBand "101-500" (range101to500 stats) (percentOf (range101to500 stats) total);
                mkBand "501-1000" (range501to1000 stats) (percentOf (range501to1000 stats) total);
                mkBand "1000+" (range1000plus stats) (percentOf (range1000plus stats) total) ];
            byProducerCount :=
              [ mkBand "1" 0 (ofNat 0); mkBand "2-3" 0 (ofNat 0);
                mkBand "4-5" 0 (ofNat 0); mkBand "6+" 0 (ofNat 0) ];
            topConsumerFields := topConsumers;
            topProducerFields := topProducers |})
    (fun error =>
       consoleError "Error getting field distribution:" error ;;;
       ret emptyFieldDistribution).

(** The callback of [topConsumerFields.map] in [generateRiskAssessment]. *)
Definition assessField (f : TopField) : FieldRisk :=
  if 1000 <? consumersOf f then
    mkFieldRisk (field f) "CRITICAL" "System-wide failure possible"
                "Implement extensive testing and rollback procedures"
  else if 500 <? consumersOf f then
    mkFieldRisk (field f) "HIGH" "Major subsystem disruption"
                "Require comprehensive impact analysis before changes"
  else if 100 <? consumersOf f then
    mkFieldRisk (field f) "MEDIUM" "Moderate impact across multiple functions"
                "Thorough testing of downstream effects required"
  else
    mkFieldRisk (field f) "LOW" "Minimal system disruption"
                "Monitor for changes".

Definition baseActions : list string :=
  [ "Implement comprehensive impact analysis tools";
    "Establish change approval process for critical fields";
    "Create automated testing for high-impact dependencies";
    "Document business logic for critical BusinessFunctions";
    "Consider microservice boundaries to reduce coupling" ].

Definition generateRiskAssessment (systemStats : SystemStats)
    (fieldDistribution : FieldDistribution) : RiskAssessment :=
  let criticalFields := map assessField (topConsumerFields fieldDistribution) in
  let highRiskCount :=
    List.length (filter (fun f => String.eqb (risk f) "CRITICAL"
                                  || String.eqb (risk f) "HIGH")
                        criticalFields) in
  let systemFragility :=
    if 20 <? highRiskCount then "CRITICAL"
    else if 10 <? highRiskCount then "HIGH"
    else if 5 <? highRiskCount then "MEDIUM"
    else "LOW" in
  let recommendedActions :=
    if String.eqb systemFragility "CRITICAL" then
      "URGENT: Establish emergency rollback procedures"
        :: baseActions ++ ["Consider system architecture redesign"]
    else baseActions in
  {| criticalFields := criticalFields;
     systemFragility := systemFragility;
     recommendedActions := recommendedActions |}.

(** The options of [main] that reach the report.  The three flags are read
    as [options.includeX !== false]: an absent flag counts as set. *)
Record ImpactSummaryOptions := mkOptions {
  includeDistribution : option bool;
  includeTopFields : option bool;
  includeConnectivity : option bool;
  topCount : nat
}.

Definition notFalse (flag : option bool) : bool :=
  match flag with Some false => false | _ => true end.

(** [--top-count] defaults to 10 and no flag is given. *)
Definition defaultOptions : ImpactSummaryOptions :=
  {| includeDistribution := None; includeTopFields := None;
     includeConnectivity := None; topCount := 10 |}.

(** The body of [main] once the options are validated: the three
    sub-aggregations of [Promise.all], run here one after the other, then
    the risk assessment.  The timestamp of the report is left out. *)
Definition generateReport (B : Backend) (options : ImpactSummaryOptions)
    : IO ImpactSummaryReport :=
  systemStats <- getSystemStats B ;;
  connectivityStats <-
    (if notFalse (includeConnectivity options) then getConnectivityStats B
     else ret emptyConnectivityStats) ;;
  fieldDistribution <-
    (if notFalse (includeDistribution options) && notFalse (includeTopFields options)
     then getFieldDistribution B (topCount options)
     else ret emptyFieldDistribution) ;;
  let riskAssessment := generateRiskAssessment systemStats fieldDistribution in
  ret {| systemStats := systemStats;
         connectivityStats := connectivityStats;
         fieldDistribution := fieldDistribution;
         riskAssessment := riskAssessment |}.

End ImpactSummary.

(** ** JavaScript objects used as counters, and sets

    A [Record<string, number>] is held as the list of its own properties in
    the order they were created; [bump] is
    [obj[key] = (obj[key] || 0) + 1] for a key the object does not inherit:
    read through [obj[key]], the names below give a function of
    [Object.prototype] or the prototype itself instead of undefined, and a
    counter is followed for the other keys only. *)
Definition objectPrototypeKeys : list string :=
  [ "constructor"; "__proto__"; "hasOwnProperty"; "isPrototypeOf";
    "propertyIsEnumerable"; "toLocaleString"; "toString"; "valueOf";
    "__defineGetter__"; "__defineSetter__"; "__lookupGetter__";
    "__lookupSetter__" ].

Definition plainKey (key : string) : bool :=
  negb (existsb (String.eqb key) objectPrototypeKeys).

Fixpoint bump (key : string) (counts : list (string * nat))
    : list (string * nat) :=
  match counts with
  | [] => [(key, 1)]
  | (k, n) :: rest =>
      if String.eqb k key then (k, n + 1) :: rest
      else (k, n) :: bump key rest
  end.

(** [keys.forEach(key => bump)] *)
Definition bumpAll (keys : list string) (counts : list (string * nat))
    : list (string * nat) :=
  fold_left (fun acc key => bump key acc) keys counts.

(** [obj[key]], undefined when the property is absent. *)
Fixpoint getCount (key : string) (counts : list (string * nat)) : option nat :=
  match counts with
  | [] => None
  | (k, n) :: rest => if String.eqb k key then Some n else getCount key rest
  end.

Definition isDigit (c : Ascii.ascii) : bool :=
  let n := Ascii.nat_of_ascii c in (48 <=? n) && (n <=? 57).

Fixpoint digitsValue (s : string) (acc : N) : N :=
  match s with
  | EmptyString => acc
  | String c rest =>
      digitsValue rest (acc * 10 + N.of_nat (Ascii.nat_of_ascii c - 48))%N
  end.

Fixpoint allDigits (s : string) : bool :=
  match s with
  | EmptyString => true
  | String c rest => isDigit c && allDigits rest
  end.

(** A property key is an array index when it is the canonical decimal
    spelling of an integer below 2^32 - 1. *)
Definition arrayIndex (s : string) : option N :=
  match s with
  | EmptyString => None
  | String c rest =>
      if allDigits s
         && (negb (Ascii.nat_of_ascii c =? 48) || String.eqb rest "")
         && (digitsValue s 0 <? 4294967295)%N
      then Some (digitsValue s 0)
      else None
  end.

(** [Object.entries(obj)]: the array-index keys in ascending numeric order,
    then the other keys in creation order. *)
Definition objectEntries (counts : list (string * nat)) : list (string * nat) :=
  map snd
      (stableSort (fun a b => (fst a <=? fst b)%N)
         (flat_map (fun e => match arrayIndex (fst e) with
                             | Some i => [(i, e)]
                             | None => []
                             end) counts))
  ++ filter (fun e => match arrayIndex (fst e) with
                      | Some _ => false
                      | None => true
                      end) counts.

(** [new Set(xs)]: the distinct elements, in order of first occurrence. *)
Definition setAdd (x : string) (s : list string) : list string :=
  if existsb (String.eqb x) s then s else s ++ [x].

Definition newSet (xs : list string) : list string :=
  fold_left (fun s x => setAdd x s) xs [].

(** ** tools/impact-analysis.ts: the summary of a result *)
Module ImpactReport.

Record ImpactSummary := mkImpactSummary {
  totalAffectedBusinessFunctions : nat;
  maxDepth : nat;
  criticalPaths : list ImpactResult;
  fieldImpactCounts : list (string * nat)
}.

Definition generateSummary (results : list ImpactResult) : ImpactSummary :=
  let uniqueBusinessFunctions := newSet (map affectedBusinessFunction results) in
  (* Math.max(...depths, 0) *)
  let maxDepth := fold_right Nat.max 0 (map impactDepth results) in
  let fieldImpactCounts :=
    fold_left (fun counts result => bumpAll (pathFields result) counts)
              results [] in
  let criticalPaths :=
    firstn 10 (filter (fun r => impactDepth r =? maxDepth) results) in
  {| totalAffectedBusinessFunctions := List.length uniqueBusinessFunctions;
     maxDepth := maxDepth;
     criticalPaths := criticalPaths;
     fieldImpactCounts := fieldImpactCounts |}.

End ImpactReport.

(** ** tools/dependency-path.ts: the summary of a result *)
Module PathSummary.

Record FieldFrequency := mkFieldFrequency { field : string; frequency : nat }.

Record UnitFrequency := mkUnitFrequency {
  businessFunction : string;
  pathCount : nat
}.

Record PathAnalysisSummary := mkPathSummary {
  totalPaths : nat;
  shortestPath : option DependencyPath.DependencyPath;
  longestPath : option DependencyPath.DependencyPath;
  averagePathLength : number;
  commonIntermediateFields : list FieldFrequency;
  criticalBusinessFunctions : list UnitFrequency
}.

(** [businessFunctions.slice(1, -1)] *)
Definition intermediate (businessFunctions : list string) : list string :=
  removelast (tl businessFunctions).

Definition generateSummary (paths : list DependencyPath.DependencyPath)
    : PathAnalysisSummary :=
  match paths with
  | [] =>
      {| totalPaths := 0; shortestPath := None; longestPath := None;
         averagePathLength := ofNat 0;
         commonIntermediateFields := []; criticalBusinessFunctions := [] |}
  | first :: rest =>
      let shortestPath :=
        fold_left (fun min path =>
                     if DependencyPath.pathLength path <? DependencyPath.pathLength min
                     then path else min)
                  rest first in
      let longestPath :=
        fold_left (fun max path =>
                     if DependencyPath.pathLength max <? DependencyPath.pathLength path
                     then path else max)
                  rest first in
      let averagePathLength :=
        numDiv (ofNat (fold_left (fun sum path => sum + DependencyPath.pathLength path)
                                 paths 0))
               (ofNat (List.length paths)) in
      let fieldCounts :=
        fold_left (fun counts path => bumpAll (DependencyPath.fields path) counts)
                  paths [] in
      let commonIntermediateFields :=
        firstn 10
          (stableSort (fun a b => frequency b <=? frequency a)
             (map (fun e => mkFieldFrequency (fst e) (snd e))
                  (objectEntries fieldCounts))) in
      let bfCounts :=
        fold_left (fun counts path =>
                     bumpAll (intermediate (DependencyPath.businessFunctions path)) counts)
                  paths [] in
      let criticalBusinessFunctions :=
        firstn 10
          (stableSort (fun a b => pathCount b <=? pathCount a)
             (map (fun e => mkUnitFrequency (fst e) (snd e))
                  (objectEntries bfCounts))) in
      {| totalPaths := List.length paths;
         shortestPath := Some shortestPath;
         longestPath := Some longestPath;
         averagePathLength := averagePathLength;
         commonIntermediateFields := commonIntermediateFields;
         criticalBusinessFunctions := criticalBusinessFunctions |}
  end.

End PathSummary.

(** ** tools/lib/neo4j-connection.ts: the life cycle of the connection

    The analyses above use [queryNeo4j] as one effect.  Here the class
    [Neo4jConnection] and the shared instance behind it are followed step by
    step: what is asked of the driver library is recorded as events, and the
    library's answers are those of a [Server].  Closing a session or a driver
    is taken to succeed. *)
Module Connection.

Record Neo4jConfig := mkConfig {
  uri : string;
  username : string;
  password : string;
  database : string
}.

(** [Partial<Neo4jConfig>] *)
Record PartialConfig := mkPartial {
  givenUri : option string;
  givenUsername : option string;
  givenPassword : option string;
  givenDatabase : option string
}.

(** The four variables read from [process.env]. *)
Record Env := mkEnv {
  NEO4J_URI : option string;
  NEO4J_USERNAME : option string;
  NEO4J_PASSWORD : option string;
  NEO4J_DATABASE : option string
}.

(** [a || b] on strings: [b] when [a] is undefined or empty. *)
Definition orString (a : option string) (b : string) : string :=
  match a with
  | Some s => if String.eqb s "" then b else s
  | None => b
  end.

(** [config?.field] *)
Definition given (config : option PartialConfig)
    (field : PartialConfig -> option string) : option string :=
  match config with
  | Some c => field c
  | None => None
  end.

(** The constructor of [Neo4jConnection]. *)
Definition newConfig (config : option PartialConfig) (env : Env) : Neo4jConfig :=
  {| uri := orString (given config givenUri)
                     (orString (NEO4J_URI env) "bolt://localhost:7687");
     username := orString (given config givenUsername)
                          (orString (NEO4J_USERNAME env) "neo4j");
     password := orString (given config givenPassword)
                          (orString (NEO4J_PASSWORD env) "cobolanalysis");
     database := orString (given config givenDatabase)
                          (orString (NEO4J_DATABASE env) "neo4j") |}.

(** The driver library and the store behind it: whether [neo4j.driver] and
    [verifyConnectivity] throw for a configuration, and what [session.run]
    gives for a query. *)
Record Server := mkServer {
  createDriver : Neo4jConfig -> option string;
  verifyConnectivity : Neo4jConfig -> option string;
  run : forall c : Cypher, string + list (RowType c)
}.

Inductive DriverEvent :=
| DriverCreated (config : Neo4jConfig)
| DriverClosed
| SessionOpened (database : string)
| Ran (query : Cypher)
| SessionClosed.

(** An instance: whether [this.driver] is set, and [this.config]. *)
Record Instance := mkInstance { driver : bool; config : Neo4jConfig }.

Definition connect (srv : Server) (this : Instance) (evs : list DriverEvent)
    : outcome unit * Instance * list DriverEvent :=
  if driver this then (Ok tt, this, evs) (* Already connected *)
  else
    let failed cause :=
      PlainError ("Failed to connect to Neo4j at " ++ uri (config this)
                  ++ ": " ++ cause)%string in
    match createDriver srv (config this) with
    | Some cause => (Throw (failed cause), mkInstance false (config this), evs)
    | None =>
        let evs := evs ++ [DriverCreated (config this)] in
        match verifyConnectivity srv (config this) with
        | Some cause => (Throw (failed cause), mkInstance false (config this), evs)
        | None => (Ok tt, mkInstance true (config this), evs)
        end
    end.

Definition disconnect (this : Instance) (evs : list DriverEvent)
    : Instance * list DriverEvent :=
  if driver this then (mkInstance false (config this), evs ++ [DriverClosed])
  else (this, evs).

Definition getSession (this : Instance) (evs : list DriverEvent)
    : outcome unit * list DriverEvent :=
  if driver this then (Ok tt, evs ++ [SessionOpened (database (config this))])
  else (Throw (PlainError "Neo4j driver not connected. Call connect() first."), evs).

(** [executeQuery]: the session is obtained outside the try block, the
    query runs inside it, and the session is closed on both ways out. *)
Definition executeQuery (srv : Server) (c : Cypher) (this : Instance)
    (evs : list DriverEvent) : outcome (list (RowType c)) * list DriverEvent :=
  match getSession this evs with
  | (Throw e, evs) => (Throw e, evs)
  | (Ok _, evs) =>
      match run srv c with
      | inr rows => (Ok rows, evs ++ [Ran c; SessionClosed])
      | inl cause => (Throw (QueryError cause c), evs ++ [Ran c; SessionClosed])
      end
  end.

Definition isConnected (this : Instance) : bool := driver this.

(** The module state: [globalConnection] and what was asked of the driver
    library so far. *)
Record State := mkState {
  globalConnection : option Instance;
  events : list DriverEvent
}.

Definition initial : State := mkState None [].

(** [getNeo4jConnection]: the new instance is stored before it connects. *)
Definition getNeo4jConnection (srv : Server) (env : Env)
    (config : option PartialConfig) (st : State) : outcome Instance * State :=
  match globalConnection st with
  | Some this => (Ok this, st)
  | None =>
      let '(r, this, evs) :=
        connect srv (mkInstance false (newConfig config env)) (events st) in
      match r with
      | Ok _ => (Ok this, mkState (Some this) evs)
      | Throw e => (Throw e, mkState (Some this) evs)
      end
  end.

Definition closeGlobalConnection (st : State) : State :=
  match globalConnection st with
  | Some this => mkState None (snd (disconnect this (events st)))
  | None => st
  end.

(** [queryNeo4j(cypher, parameters, config)] *)
Definition queryNeo4j (srv : Server) (env : Env) (c : Cypher)
    (config : option PartialConfig) (st : State)
    : outcome (list (RowType c)) * State :=
  match getNeo4jConnection srv env config st with
  | (Throw e, st) => (Throw e, st)
  | (Ok this, st) =>
      let '(r, evs) := executeQuery srv c this (events st) in
      (r, mkState (globalConnection st) evs)
  end.

(** A series of calls [queryNeo4j(cypher, parameters, config)], one after
    the other, whatever each returns. *)
Fixpoint queryEach (srv : Server) (env : Env)
    (calls : list (Cypher * option PartialConfig)) (st : State) : State :=
  match calls with
  | [] => st
  | (c, config) :: rest =>
      queryEach srv env rest (snd (queryNeo4j srv env c config st))
  end.

(** What one query leaves behind on a connected instance. *)
Definition sessionEvents (db : string) (c : Cypher) : list DriverEvent :=
  [SessionOpened db; Ran c; SessionClosed].

Definition isDriverCreated (e : DriverEvent) : bool :=
  match e with DriverCreated _ => true | _ => false end.

Definition isDriverClosed (e : DriverEvent) : bool :=
  match e with DriverClosed => true | _ => false end.

Definition isSessionOpened (e : DriverEvent) : bool :=
  match e with SessionOpened _ => true | _ => false end.

Definition isSessionClosed (e : DriverEvent) : bool :=
  match e with SessionClosed => true | _ => false end.

Definition countEvents (p : DriverEvent -> bool) (evs : list DriverEvent) : nat :=
  List.length (filter p evs).

(** The server a backend stands for once the connection is up: a query the
    backend fails on makes [session.run] throw. *)
Definition serverOf (B : Backend) : Server :=
  {| createDriver := fun _ => None;
     verifyConnectivity := fun _ => None;
     run := fun c =>
       match fault B c with
       | Some (Unreachable cause) | Some (Refused cause) => inl cause
       | None => evalCypher (graph B) c
       end |}.

End Connection.

(** ** Graphs and backends used in the examples *)

(** A backend that answers every query. *)
Definition healthy (g : Graph) : Backend := mkBackend g (fun _ => None).

(** A backend that cannot be connected to. *)
Definition unreachable (g : Graph) (cause : string) : Backend :=
  mkBackend g (fun _ => Some (Unreachable cause)).

(** A backend that refuses exactly the queries [bad] selects. *)
Definition refusing (g : Graph) (bad : Cypher -> bool) (cause : string)
    : Backend :=
  mkBackend g (fun c => if bad c then Some (Refused cause) else None).

(** The three-unit scenario: A produces F1; B consumes F1 and produces F2;
    C consumes F2. *)
Definition scenario : Graph :=
  {| nodes := [ mkNode LBusinessFunction "A" "F1";
                mkNode LBusinessFunction "B" "F2";
                mkNode LBusinessFunction "C" "";
                mkNode LElementalField "F1" "";
                mkNode LElementalField "F2" "" ];
     rels := [ mkRel HAS_OUTPUT_FIELD 0 3;
               mkRel HAS_INPUT_FIELD 1 3;
               mkRel HAS_OUTPUT_FIELD 1 4;
               mkRel HAS_INPUT_FIELD 2 4 ] |}.

(** A dependency cycle: A produces F1, B consumes F1 and produces F2, and A
    consumes F2. *)
Definition cyclic : Graph :=
  {| nodes := [ mkNode LBusinessFunction "A" "F1";
                mkNode LBusinessFunction "B" "F2";
                mkNode LElementalField "F1" "";
                mkNode LElementalField "F2" "" ];
     rels := [ mkRel HAS_OUTPUT_FIELD 0 2;
               mkRel HAS_INPUT_FIELD 1 2;
               mkRel HAS_OUTPUT_FIELD 1 3;
               mkRel HAS_INPUT_FIELD 0 3 ] |}.

(** Two BusinessFunctions share the display name "A": the first feeds T
    directly through F1, the second reaches T through M. *)
Definition homonyms : Graph :=
  {| nodes := [ mkNode LBusinessFunction "A" "F1";
                mkNode LBusinessFunction "A" "F2";
                mkNode LBusinessFunction "T" "";
                mkNode LBusinessFunction "M" "F3";
                mkNode LElementalField "F1" "";
                mkNode LElementalField "F2" "";
                mkNode LElementalField "F3" "" ];
     rels := [ mkRel HAS_OUTPUT_FIELD 0 4;
               mkRel HAS_INPUT_FIELD 2 4;
               mkRel HAS_OUTPUT_FIELD 1 5;
               mkRel HAS_INPUT_FIELD 3 5;
               mkRel HAS_OUTPUT_FIELD 3 6;
               mkRel HAS_INPUT_FIELD 2 6 ] |}.

(** A and B meet in a GroupField: A writes G and B reads it. *)
Definition viaGroupField : Graph :=
  {| nodes := [ mkNode LBusinessFunction "A" "";
                mkNode LBusinessFunction "B" "";
                mkNode LGroupField "G" "" ];
     rels := [ mkRel HAS_OUTPUT_FIELD 0 2;
               mkRel HAS_INPUT_FIELD 1 2 ] |}.

(** P produces F1, F2 and F3 (nodes 1 to 3); of the 51 consumers (nodes 4
    to 54) one reads F1, eleven read F2 and all read F3. *)
Definition threeBands : Graph :=
  {| nodes := mkNode LBusinessFunction "P" "F1"
              :: mkNode LElementalField "F1" ""
              :: mkNode LElementalField "F2" ""
              :: mkNode LElementalField "F3" ""
              :: repeat (mkNode LBusinessFunction "consumer" "") 51;
     rels := mkRel HAS_OUTPUT_FIELD 0 1
             :: mkRel HAS_OUTPUT_FIELD 0 2
             :: mkRel HAS_OUTPUT_FIELD 0 3
             :: map (fun i => mkRel HAS_INPUT_FIELD i 1) (seq 4 1)
             ++ map (fun i => mkRel HAS_INPUT_FIELD i 2) (seq 4 11)
             ++ map (fun i => mkRel HAS_INPUT_FIELD i 3) (seq 4 51) |}.

(** One field F, produced by P and consumed by [n] BusinessFunctions
    (nodes 2 .. n+1). *)
Definition fanOut (n : nat) : Graph :=
  {| nodes := mkNode LBusinessFunction "P" "F"
              :: mkNode LElementalField "F" ""
              :: repeat (mkNode LBusinessFunction "consumer" "") n;
     rels := mkRel HAS_OUTPUT_FIELD 0 1
             :: map (fun i => mkRel HAS_INPUT_FIELD i 1) (seq 2 n) |}.

(** The schema of the architecture notes: a HAS_INPUT_FIELD or
    HAS_OUTPUT_FIELD relationship runs from a BusinessFunction to an
    ElementalField. *)
Definition schemaOk (g : Graph) : bool :=
  forallb (fun r =>
             if RelType_eqb (rtype r) HAS_OUTPUT_FIELD
                || RelType_eqb (rtype r) HAS_INPUT_FIELD
             then hasLabel g LBusinessFunction (startNode r)
                  && hasLabel g LElementalField (endNode r)
             else true)
          (rels g).

(** Alternation of unit names and field names, starting with a unit. *)
Fixpoint interleave (units fields : list string) : list string :=
  match units, fields with
  | u :: us, f :: fs => u :: f :: interleave us fs
  | _, _ => units
  end.

(** Whether the backend fails on one of the listed queries. *)
Definition anyFault (B : Backend) (qs : list Cypher) : bool :=
  existsb (fun q => match fault B q with Some _ => true | None => false end) qs.

Definition systemStatsQueries : list Cypher :=
  [QCountBusinessFunctions; QCountFields; QCountRelationships; QAvgStats].

Definition connectivityQueries : list Cypher :=
  [QHighlyConnected; QComponentStats].

Definition fieldDistributionQueries (topCount : nat) : list Cypher :=
  [QTopConsumers topCount; QTopProducers topCount; QSixBands].

(** [tr1] is [tr] followed by further events. *)
Definition extends (tr tr1 : list Event) : Prop := exists sent, tr1 = tr ++ sent.

(** The sum of a list of numbers, from 0. *)
Definition numSum (xs : list number) : number :=
  fold_left numAdd xs (ofNat 0).

(** A ranking of [n] fields with 600 consumers each. *)
Definition manyHighFields (n : nat) : ImpactSummary.FieldDistribution :=
  {| ImpactSummary.byConsumerCount := [];
     ImpactSummary.byProducerCount := [];
     ImpactSummary.topConsumerFields := repeat (mkTopField "F" 600 1) n;
     ImpactSummary.topProducerFields := [] |}.

(** [steps] is a walk of the graph from [cur]: every step follows a
    relationship at the node reached so far. *)
Fixpoint isWalk (g : Graph) (cur : nat) (steps : list (nat * nat)) : Prop :=
  match steps with
  | [] => True
  | (k, m) :: rest => In (k, m) (incident g cur) /\ isWalk g m rest
  end.

(** The node a walk from [cur] ends at. *)
Definition pathEnd (cur : nat) (steps : list (nat * nat)) : nat :=
  last (map snd steps) cur.

(** ** Auxiliary notions of the further properties *)


Definition isConsoleError (ev : Event) : bool :=
  match ev with ConsoleError _ _ => true | Sent _ => false end.


(** What a series of calls keeps true of the driver events: every session
    opened is closed, no driver is closed, and a driver exists only with a
    stored instance. *)
Definition balanced (st : Connection.State) : Prop :=
  Connection.countEvents Connection.isSessionOpened (Connection.events st)
  = Connection.countEvents Connection.isSessionClosed (Connection.events st)
  /\ Connection.countEvents Connection.isDriverClosed (Connection.events st) = 0
  /\ match Connection.globalConnection st with
     | None => Connection.countEvents Connection.isDriverCreated (Connection.events st) = 0
     | Some _ => Connection.countEvents Connection.isDriverCreated (Connection.events st) <= 1
     end.

(** ** aws-config: masking of sensitive values

    A JavaScript string is held as the list of its code units. *)
Module AwsConfig.

(** The asterisk, code unit 42. *)
Definition star : Ascii.ascii := Ascii.ascii_of_nat 42.

Definition maskSensitiveValue (value : list Ascii.ascii) : list Ascii.ascii :=
  if List.length value <=? 8 then repeat star (List.length value)
  else
    (* value.slice(0, 4), then asterisks, then value.slice(-4) *)
    firstn 4 value ++ repeat star (List.length value - 8)
    ++ skipn (List.length value - 4) value.

End AwsConfig.

(** * Properties *)

(* Expose the state passing of a run. *)
Ltac run_io :=
  unfold queryNeo4j, firstRow, consoleError, tryCatch, bind, emit, throw, ret.

(** ** Lists *)

Lemma firstn_In {A} (n : nat) (l : list A) (x : A) :
  In x (firstn n l) -> In x l.
Proof.
  revert l; induction n as [|n IH]; intros [|y l]; simpl; try tauto.
  intros [->|H]; auto.
Qed.

Lemma insertBy_In {A} (le : A -> A -> bool) (x y : A) (l : list A) :
  In y (insertBy le x l) <-> y = x \/ In y l.
Proof.
  induction l as [|z l IH]; simpl.
  - intuition congruence.
  - destruct (le x z); simpl; rewrite ?IH; intuition congruence.
Qed.

Lemma stableSort_In {A} (le : A -> A -> bool) (y : A) (l : list A) :
  In y (stableSort le l) <-> In y l.
Proof.
  induction l as [|x l IH]; simpl; [tauto|].
  unfold stableSort in *. simpl. rewrite insertBy_In, IH. intuition congruence.
Qed.

Lemma insertBy_length {A} (le : A -> A -> bool) (x : A) (l : list A) :
  List.length (insertBy le x l) = S (List.length l).
Proof.
  induction l as [|z l IH]; simpl; auto. destruct (le x z); simpl; auto.
Qed.

Lemma stableSort_length {A} (le : A -> A -> bool) (l : list A) :
  List.length (stableSort le l) = List.length l.
Proof.
  induction l as [|x l IH]; simpl; auto.
  unfold stableSort in *. simpl. now rewrite insertBy_length, IH.
Qed.

Lemma combine_seq_nth {A} (l : list A) (base k : nat) (x : A) :
  In (k, x) (combine (seq base (List.length l)) l) ->
  base <= k /\ nth_error l (k - base) = Some x.
Proof.
  revert base; induction l as [|y l IH]; simpl; intros base H; [tauto|].
  destruct H as [H|H].
  - inversion H; subst. split; [lia|]. now rewrite Nat.sub_diag.
  - apply IH in H. destruct H as [Hle Hn]. split; [lia|].
    replace (k - base) with (S (k - S base)) by lia. exact Hn.
Qed.

Lemma indexed_nth {A} (l : list A) (k : nat) (x : A) :
  In (k, x) (indexed l) -> nth_error l k = Some x.
Proof.
  intros H. apply combine_seq_nth in H. destruct H as [_ H].
  now rewrite Nat.sub_0_r in H.
Qed.

(** ** Impact analysis *)

Lemma queryNeo4j_healthy (B : Backend) (c : Cypher) (rows : list (RowType c))
    (tr : list Event) :
  fault B c = None -> evalCypher (graph B) c = inr rows ->
  queryNeo4j B c tr = (Ok rows, tr ++ [Sent c]).
Proof.
  intros Hf He. unfold queryNeo4j. rewrite Hf. unfold bind, emit. simpl.
  now rewrite He.
Qed.

Lemma multiHopRows_length (g : Graph) (b : bool) (id : string) (d : nat) :
  List.length (multiHopRows g b id d) <= 100.
Proof. unfold multiHopRows. apply firstn_le_length. Qed.

Lemma multiHopRows_depth (g : Graph) (b : bool) (id : string) (d : nat)
    (r : ImpactResult) :
  In r (multiHopRows g b id d) -> impactDepth r = d + 1.
Proof.
  unfold multiHopRows. intros H. apply firstn_In in H.
  apply in_flat_map in H. destruct H as [[s f] [_ H]].
  apply in_flat_map in H. destruct H as [[fd names] [_ H]].
  apply in_map_iff in H. destruct H as [bf [<- _]]. reflexivity.
Qed.

(** Every iteration that is reached sends its one query. *)
Lemma multiHopLoop_healthy (B : Backend) (id : string) (b : bool) :
  (forall d, fault B (QMultiHopImpact b id d) = None) ->
  forall remaining depth results tr,
  exists rows,
    ImpactAnalysis.multiHopLoop B id b remaining depth results tr
    = (Ok (results ++ rows),
       tr ++ map (fun d => Sent (QMultiHopImpact b id d)) (seq depth remaining))
    /\ List.length rows <= 100 * remaining
    /\ (forall r, In r rows -> depth + 1 <= impactDepth r <= depth + remaining).
Proof.
  intros Hf. induction remaining as [|n IH]; intros depth results tr.
  - exists []. simpl. unfold ret. rewrite !app_nil_r. repeat split; simpl; tauto || lia.
  - simpl. unfold bind at 1.
    rewrite (queryNeo4j_healthy B (QMultiHopImpact b id depth) (multiHopRows (graph B) b id depth) tr (Hf depth) eq_refl).
    destruct (IH (S depth) (results ++ map ImpactAnalysis.copyRow (multiHopRows (graph B) b id depth))
                 (tr ++ [Sent (QMultiHopImpact b id depth)])) as [rows [E [Hlen Hd]]].
    exists (map ImpactAnalysis.copyRow (multiHopRows (graph B) b id depth) ++ rows).
    rewrite E, <- !app_assoc. simpl. split; [reflexivity|]. split.
    + rewrite length_app, length_map. pose proof (multiHopRows_length (graph B) b id depth). lia.
    + intros r Hr. apply in_app_or in Hr. destruct Hr as [Hr|Hr].
      * apply in_map_iff in Hr. destruct Hr as [r0 [<- Hr0]].
        apply multiHopRows_depth in Hr0. unfold ImpactAnalysis.copyRow; simpl. lia.
      * apply Hd in Hr. lia.
Qed.

(** With or without failures the loop returns, having sent at most one
    query per iteration. *)
Lemma multiHopLoop_total (B : Backend) (id : string) (b : bool) :
  forall remaining depth results tr,
  exists out evs,
    ImpactAnalysis.multiHopLoop B id b remaining depth results tr = (out, tr ++ evs)
    /\ List.length evs <= remaining.
Proof.
  induction remaining as [|n IH]; intros depth results tr.
  - exists (Ok results), []. simpl. unfold ret. rewrite app_nil_r. auto.
  - simpl. unfold bind at 1, queryNeo4j.
    destruct (fault B (QMultiHopImpact b id depth)) as [[cause|cause]|].
    + exists (Throw (ConnectError cause)), []. unfold throw. rewrite app_nil_r. simpl. split; [auto|lia].
    + exists (Throw (QueryError cause (QMultiHopImpact b id depth))),
             [Sent (QMultiHopImpact b id depth)].
      unfold bind, emit, throw. simpl. split; [auto|lia].
    + unfold bind, emit, ret. simpl.
      destruct (IH (S depth) (results ++ map ImpactAnalysis.copyRow (multiHopRows (graph B) b id depth))
                   (tr ++ [Sent (QMultiHopImpact b id depth)])) as [out [evs [E Hl]]].
      exists out, (Sent (QMultiHopImpact b id depth) :: evs).
      rewrite E, <- app_assoc. simpl. split; [auto|lia].
Qed.

(** C1, at the scenario of the specification (A produces F1; B consumes F1
    and produces F2; C consumes F2).  At depth 1 the analysis returns exactly
    B tagged depth 1.  At depth 2 it returns C tagged depth 2 alone: the
    depth-1 consumer B, which the claim expects first in the result, is not
    returned, because the multi-hop loop starts at two hops. *)
Theorem scenario_impact_depth2_omits_direct_consumer :
  ImpactAnalysis.analyzeImpact (healthy scenario) "A" false 1 []
  = (Ok [mkImpact "A" "F1" "B" "F2" 1 ["F1"]], [Sent (QDirectImpact false "A")])
  /\ ImpactAnalysis.analyzeImpact (healthy scenario) "A" false 2 []
     = (Ok [mkImpact "A" "F1" "C" "" 2 ["F1"; "F2"]],
        [Sent (QMultiHopImpact false "A" 1); Sent (QMultiHopImpact false "A" 2)]).
Proof. split; reflexivity. Qed.

(** No row of a multi-hop analysis is tagged depth 1, whatever the graph:
    the rows of iteration [d] are tagged [d + 1]. *)
Lemma multiHop_never_reports_depth_1 (B : Backend) (id : string) (b : bool)
    (maxDepth : nat) (tr tr' : list Event) (results : list ImpactResult) :
  (forall d, fault B (QMultiHopImpact b id d) = None) ->
  ImpactAnalysis.analyzeMultiHopImpact B id b maxDepth tr = (Ok results, tr') ->
  forall r, In r results -> 2 <= impactDepth r <= maxDepth + 1.
Proof.
  intros Hf E r Hr. unfold ImpactAnalysis.analyzeMultiHopImpact in E.
  destruct (multiHopLoop_healthy B id b Hf maxDepth 1 [] tr) as [rows [E' [_ Hd]]].
  rewrite E' in E. inversion E; subst. simpl in Hr. apply Hd in Hr. lia.
Qed.

(** C9: the multi-hop analysis returns on every graph, cyclic or not.  When
    the store answers, the loop sends exactly the queries of depth
    [1 .. maxDepth], one per iteration, and returns at most [100 * maxDepth]
    rows in all. *)
Theorem multiHop_terminates_within_cap (B : Backend) (identifier : string)
    (isOutputField : bool) (maxDepth : nat) (tr : list Event)
    (Hanswers : forall d, fault B (QMultiHopImpact isOutputField identifier d) = None) :
  exists results,
    ImpactAnalysis.analyzeMultiHopImpact B identifier isOutputField maxDepth tr
    = (Ok results,
       tr ++ map (fun d => Sent (QMultiHopImpact isOutputField identifier d))
                 (seq 1 maxDepth))
    /\ List.length (seq 1 maxDepth) = maxDepth
    /\ List.length results <= 100 * maxDepth.
Proof.
  destruct (multiHopLoop_healthy B identifier isOutputField Hanswers maxDepth 1 [] tr)
    as [rows [E [Hlen _]]].
  exists rows. unfold ImpactAnalysis.analyzeMultiHopImpact. rewrite E. simpl.
  rewrite length_seq. auto.
Qed.

(** C9 on the two-unit cycle: the analysis of A to depth 3 stops after three
    queries; A itself reappears at depths 2 and 4 and B at depth 3. *)
Lemma multiHop_terminates_within_cap_witness :
  (forall d, fault (healthy cyclic) (QMultiHopImpact false "A" d) = None)
  /\ exists results,
       ImpactAnalysis.analyzeMultiHopImpact (healthy cyclic) "A" false 3 []
       = (Ok results,
          [] ++ map (fun d => Sent (QMultiHopImpact false "A" d)) (seq 1 3))
       /\ List.length (seq 1 3) = 3
       /\ List.length results <= 100 * 3.
Proof.
  split; [reflexivity|].
  apply (multiHop_terminates_within_cap (healthy cyclic) "A" false 3 []).
  reflexivity.
Defined.

Example cyclic_units_reappear :
  map (fun r => (affectedBusinessFunction r, impactDepth r))
      (match fst (ImpactAnalysis.analyzeMultiHopImpact (healthy cyclic) "A" false 3 []) with
       | Ok rs => rs | Throw _ => [] end)
  = [("A", 2); ("B", 3); ("A", 4)].
Proof. reflexivity. Qed.

(** ** System aggregator: failures of the sub-aggregations *)

Lemma extends_refl (tr : list Event) : extends tr tr.
Proof. exists []. now rewrite app_nil_r. Qed.

Lemma extends_snoc (tr tr1 : list Event) (ev : Event) :
  extends tr tr1 -> extends tr (tr1 ++ [ev]).
Proof. intros [s ->]. exists (s ++ [ev]). now rewrite app_assoc. Qed.

Lemma logged_after (tr tr1 : list Event) (msg : string) (e : Error) :
  extends tr tr1 ->
  exists e' sent, tr1 ++ [ConsoleError msg e] = tr ++ sent ++ [ConsoleError msg e'].
Proof. intros [s ->]. exists e, s. now rewrite app_assoc. Qed.

Ltac fallback_case :=
  split; [reflexivity
         | apply logged_after; repeat apply extends_snoc; apply extends_refl].

(* One query of a try block: either way of failing leads to the handler. *)
Ltac step_query B q :=
  destruct (fault B q) as [[?cause|?cause]|] eqn:?E; cbn;
  [ fallback_case | fallback_case | ].

(** C2 does not hold: the store refuses the fourth query of getSystemStats on
    the scenario graph, the three counts before it were answered, and the
    caller receives the all-zero fallback as an ordinary result.  The same
    happens to the other two sub-aggregations when the store is
    unreachable. *)
Lemma sub_aggregation_failure_is_swallowed :
  let B := refusing scenario
             (fun c => match c with QAvgStats => true | _ => false end)
             "timeout" in
  fault B QAvgStats = Some (Refused "timeout")
  /\ ImpactSummary.getSystemStats B []
     = (Ok ImpactSummary.fallbackSystemStats,
        [Sent QCountBusinessFunctions; Sent QCountFields;
         Sent QCountRelationships; Sent QAvgStats;
         ConsoleError "Error getting system stats:" (QueryError "timeout" QAvgStats)])
  /\ fst (ImpactSummary.getConnectivityStats (unreachable scenario "ECONNREFUSED") [])
     = Ok ImpactSummary.emptyConnectivityStats
  /\ fst (ImpactSummary.getFieldDistribution (unreachable scenario "ECONNREFUSED") 10 [])
     = Ok ImpactSummary.emptyFieldDistribution.
Proof. repeat split; reflexivity. Qed.

(** C2 as the code has it: none of the three sub-aggregations ever throws.
    When one of its queries fails, the sub-aggregation writes one line with
    the error to the console and returns its fixed fallback (all zeros, or
    empty lists) whole, never a mix of answered and zeroed parts; when all
    are answered it has sent exactly its queries and returns what the store
    answered. *)
Theorem sub_aggregations_fall_back_on_failure (B : Backend) (topCount : nat)
    (tr : list Event) :
  (let '(r, tr') := ImpactSummary.getSystemStats B tr in
   if anyFault B systemStatsQueries
   then r = Ok ImpactSummary.fallbackSystemStats
        /\ exists e sent, tr' = tr ++ sent ++ [ConsoleError "Error getting system stats:" e]
   else r = Ok {| ImpactSummary.totalBusinessFunctions :=
                    List.length (matchLabel (graph B) LBusinessFunction);
                  ImpactSummary.totalFields :=
                    List.length (matchLabel (graph B) LElementalField);
                  ImpactSummary.totalRelationships := relCount (graph B);
                  ImpactSummary.avgInputFields := avgOf (inputCounts (graph B));
                  ImpactSummary.avgOutputFields := avgOf (outputCounts (graph B));
                  ImpactSummary.maxInputFields := maxOf (inputCounts (graph B));
                  ImpactSummary.maxOutputFields := maxOf (outputCounts (graph B)) |}
        /\ tr' = tr ++ map Sent systemStatsQueries)
  /\ (let '(r, tr') := ImpactSummary.getConnectivityStats B tr in
      if anyFault B connectivityQueries
      then r = Ok ImpactSummary.emptyConnectivityStats
           /\ exists e sent, tr' = tr ++ sent ++ [ConsoleError "Error getting connectivity stats:" e]
      else (exists s,
              r = Ok s
              /\ ImpactSummary.connectedComponents s = 1
              /\ ImpactSummary.largestComponentSize s
                 = List.length (matchLabel (graph B) LBusinessFunction)
              /\ map (fun b => (bfName b, connections b)) (ImpactSummary.highlyConnectedBFs s)
                 = map (fun b => (bfName b, connections b)) (highlyConnectedRows (graph B)))
           /\ tr' = tr ++ map Sent connectivityQueries)
  /\ (let '(r, tr') := ImpactSummary.getFieldDistribution B topCount tr in
      if anyFault B (fieldDistributionQueries topCount)
      then r = Ok ImpactSummary.emptyFieldDistribution
           /\ exists e sent, tr' = tr ++ sent ++ [ConsoleError "Error getting field distribution:" e]
      else (exists fd,
              r = Ok fd
              /\ ImpactSummary.topConsumerFields fd = topConsumerRows (graph B) topCount
              /\ ImpactSummary.topProducerFields fd = topProducerRows (graph B) topCount
              /\ List.length (ImpactSummary.byConsumerCount fd) = 6)
           /\ tr' = tr ++ map Sent (fieldDistributionQueries topCount)).
Proof.
  split; [|split].
  - unfold ImpactSummary.getSystemStats, anyFault, systemStatsQueries. run_io.
    cbn [existsb].
    step_query B QCountBusinessFunctions.
    step_query B QCountFields.
    step_query B QCountRelationships.
    step_query B QAvgStats.
    split; [reflexivity | rewrite <- ?app_assoc; reflexivity].
  - unfold ImpactSummary.getConnectivityStats, anyFault, connectivityQueries. run_io.
    cbn [existsb].
    step_query B QHighlyConnected.
    step_query B QComponentStats.
    split; [|rewrite <- ?app_assoc; reflexivity].
    eexists. split; [reflexivity|]. cbn. repeat split.
    rewrite map_map. reflexivity.
  - unfold ImpactSummary.getFieldDistribution, anyFault, fieldDistributionQueries. run_io.
    cbn [existsb].
    step_query B (QTopConsumers topCount).
    step_query B (QTopProducers topCount).
    step_query B QSixBands.
    split; [|rewrite <- ?app_assoc; reflexivity].
    eexists. split; [reflexivity|]. cbn. repeat split.
Qed.

(** ** Risk tiers and the fragility rating *)

(** C4: the tier of a ranked field is decided by its consumer count alone,
    with the bounds 1000, 500 and 100; the impact statement and the
    recommendation are read off the tier; 1500, 600, 150 and 5 consumers give
    CRITICAL, HIGH, MEDIUM and LOW.  The label printed by critical-fields
    follows the same bounds. *)
Theorem risk_tier_is_a_function_of_consumer_count :
  (forall f : TopField,
      let r := ImpactSummary.assessField f in
      (1000 < consumersOf f -> ImpactSummary.risk r = "CRITICAL")
      /\ (500 < consumersOf f <= 1000 -> ImpactSummary.risk r = "HIGH")
      /\ (100 < consumersOf f <= 500 -> ImpactSummary.risk r = "MEDIUM")
      /\ (consumersOf f <= 100 -> ImpactSummary.risk r = "LOW"))
  /\ (forall f f' : TopField,
        consumersOf f = consumersOf f' ->
        ImpactSummary.risk (ImpactSummary.assessField f)
        = ImpactSummary.risk (ImpactSummary.assessField f')
        /\ ImpactSummary.impact (ImpactSummary.assessField f)
           = ImpactSummary.impact (ImpactSummary.assessField f')
        /\ ImpactSummary.recommendation (ImpactSummary.assessField f)
           = ImpactSummary.recommendation (ImpactSummary.assessField f'))
  /\ (exists table : string -> string * string,
        forall f : TopField,
          (ImpactSummary.impact (ImpactSummary.assessField f),
           ImpactSummary.recommendation (ImpactSummary.assessField f))
          = table (ImpactSummary.risk (ImpactSummary.assessField f)))
  /\ map (fun c => ImpactSummary.risk (ImpactSummary.assessField (mkTopField "F" c 1)))
         [1500; 600; 150; 5]
     = ["CRITICAL"; "HIGH"; "MEDIUM"; "LOW"]
  /\ (forall d : FieldImpactData,
        CriticalFields.riskOf d
        = ImpactSummary.risk
            (ImpactSummary.assessField
               (mkTopField (fieldName d) (consumerCount d) (producerCount d)))).
Proof.
  split; [|split; [|split; [|split]]].
  - intros f. unfold ImpactSummary.assessField. cbn zeta.
    destruct (1000 <? consumersOf f) eqn:E1;
      [|destruct (500 <? consumersOf f) eqn:E2;
        [|destruct (100 <? consumersOf f) eqn:E3]];
      rewrite ?Nat.ltb_lt, ?Nat.ltb_ge in *; simpl;
      repeat split; intros; (reflexivity || lia).
  - intros f f' E. unfold ImpactSummary.assessField. rewrite E.
    destruct (1000 <? consumersOf f');
      [|destruct (500 <? consumersOf f'); [|destruct (100 <? consumersOf f')]];
      simpl; auto.
  - exists (fun tier =>
              if String.eqb tier "CRITICAL" then
                ("System-wide failure possible",
                 "Implement extensive testing and rollback procedures")
              else if String.eqb tier "HIGH" then
                ("Major subsystem disruption",
                 "Require comprehensive impact analysis before changes")
              else if String.eqb tier "MEDIUM" then
                ("Moderate impact across multiple functions",
                 "Thorough testing of downstream effects required")
              else ("Minimal system disruption", "Monitor for changes")).
    intros f. unfold ImpactSummary.assessField.
    destruct (1000 <? consumersOf f);
      [|destruct (500 <? consumersOf f); [|destruct (100 <? consumersOf f)]];
      reflexivity.
  - reflexivity.
  - intros d. unfold CriticalFields.riskOf, ImpactSummary.assessField. simpl.
    destruct (1000 <? consumerCount d);
      [|destruct (500 <? consumerCount d); [|destruct (100 <? consumerCount d)]];
      reflexivity.
Qed.

(** The fields that the assessment classifies HIGH or CRITICAL are those
    with more than 500 consumers. *)
Lemma high_risk_iff_over_500 (f : TopField) :
  (String.eqb (ImpactSummary.risk (ImpactSummary.assessField f)) "CRITICAL"
   || String.eqb (ImpactSummary.risk (ImpactSummary.assessField f)) "HIGH")
  = (500 <? consumersOf f).
Proof.
  unfold ImpactSummary.assessField.
  destruct (1000 <? consumersOf f) eqn:E1.
  - simpl. symmetry. apply Nat.ltb_lt. apply Nat.ltb_lt in E1. lia.
  - destruct (500 <? consumersOf f); [reflexivity|].
    destruct (100 <? consumersOf f); reflexivity.
Qed.

Lemma high_risk_count (l : list TopField) :
  List.length
    (filter (fun f => String.eqb (ImpactSummary.risk f) "CRITICAL"
                      || String.eqb (ImpactSummary.risk f) "HIGH")
            (map ImpactSummary.assessField l))
  = List.length (filter (fun f => 500 <? consumersOf f) l).
Proof.
  induction l as [|f l IH]; simpl; [reflexivity|].
  rewrite high_risk_iff_over_500. destruct (500 <? consumersOf f); simpl; auto.
Qed.

(** C5: with [n] the number of ranked fields classified HIGH or CRITICAL,
    the fragility is CRITICAL above 20, HIGH above 10, MEDIUM above 5 and LOW
    otherwise; the recommended actions are the five fixed ones, with the
    emergency-rollback action in front and the redesign action at the end
    exactly when the fragility is CRITICAL. *)
Theorem fragility_rating_and_actions (stats : ImpactSummary.SystemStats)
    (fd : ImpactSummary.FieldDistribution) :
  let ra := ImpactSummary.generateRiskAssessment stats fd in
  let n := List.length
             (filter (fun f => String.eqb (ImpactSummary.risk f) "CRITICAL"
                               || String.eqb (ImpactSummary.risk f) "HIGH")
                     (ImpactSummary.criticalFields ra)) in
  n = List.length (filter (fun f => 500 <? consumersOf f)
                          (ImpactSummary.topConsumerFields fd))
  /\ (20 < n -> ImpactSummary.systemFragility ra = "CRITICAL")
  /\ (10 < n <= 20 -> ImpactSummary.systemFragility ra = "HIGH")
  /\ (5 < n <= 10 -> ImpactSummary.systemFragility ra = "MEDIUM")
  /\ (n <= 5 -> ImpactSummary.systemFragility ra = "LOW")
  /\ (ImpactSummary.systemFragility ra = "CRITICAL" ->
      ImpactSummary.recommendedActions ra
      = [ "URGENT: Establish emergency rollback procedures";
          "Implement comprehensive impact analysis tools";
          "Establish change approval process for critical fields";
          "Create automated testing for high-impact dependencies";
          "Document business logic for critical BusinessFunctions";
          "Consider microservice boundaries to reduce coupling";
          "Consider system architecture redesign" ])
  /\ (ImpactSummary.systemFragility ra <> "CRITICAL" ->
      ImpactSummary.recommendedActions ra
      = [ "Implement comprehensive impact analysis tools";
          "Establish change approval process for critical fields";
          "Create automated testing for high-impact dependencies";
          "Document business logic for critical BusinessFunctions";
          "Consider microservice boundaries to reduce coupling" ]).
Proof.
  cbn zeta. unfold ImpactSummary.generateRiskAssessment. cbn [ImpactSummary.criticalFields
    ImpactSummary.systemFragility ImpactSummary.recommendedActions].
  split; [apply high_risk_count|].
  set (n := List.length (filter _ (map ImpactSummary.assessField _))).
  destruct (20 <? n) eqn:E1;
    [|destruct (10 <? n) eqn:E2; [|destruct (5 <? n) eqn:E3]];
    rewrite ?Nat.ltb_lt, ?Nat.ltb_ge in *; cbn;
    repeat split; intros; try reflexivity; try lia; try congruence.
Qed.

(** C5 at twenty-one fields of 600 consumers: the fragility is CRITICAL and
    both extra actions are present. *)
Lemma fragility_rating_and_actions_witness :
  ImpactSummary.systemFragility
    (ImpactSummary.generateRiskAssessment ImpactSummary.fallbackSystemStats
                                          (manyHighFields 21))
  = "CRITICAL"
  /\ List.length
       (ImpactSummary.recommendedActions
          (ImpactSummary.generateRiskAssessment ImpactSummary.fallbackSystemStats
                                                (manyHighFields 21)))
     = 7.
Proof.
  pose proof (fragility_rating_and_actions ImpactSummary.fallbackSystemStats
                                           (manyHighFields 21)) as H.
  cbn zeta in H. destruct H as [_ [Hc [_ [_ [_ [Ha _]]]]]].
  assert (E : ImpactSummary.systemFragility
                (ImpactSummary.generateRiskAssessment
                   ImpactSummary.fallbackSystemStats (manyHighFields 21))
              = "CRITICAL").
  { apply Hc. vm_compute. lia. }
  split; [exact E|]. rewrite (Ha E). reflexivity.
Defined.

(** ** The ranked list is capped before the fragility is rated *)

Lemma getSystemStats_returns (B : Backend) (tr : list Event) :
  exists s tr', ImpactSummary.getSystemStats B tr = (Ok s, tr').
Proof.
  unfold ImpactSummary.getSystemStats. run_io.
  destruct (fault B QCountBusinessFunctions) as [[?|?]|]; cbn; eauto.
  destruct (fault B QCountFields) as [[?|?]|]; cbn; eauto.
  destruct (fault B QCountRelationships) as [[?|?]|]; cbn; eauto.
  destruct (fault B QAvgStats) as [[?|?]|]; cbn; eauto.
Qed.

Lemma getConnectivityStats_returns (B : Backend) (tr : list Event) :
  exists s tr', ImpactSummary.getConnectivityStats B tr = (Ok s, tr').
Proof.
  unfold ImpactSummary.getConnectivityStats. run_io.
  destruct (fault B QHighlyConnected) as [[?|?]|]; cbn; eauto.
  destruct (fault B QComponentStats) as [[?|?]|]; cbn; eauto.
Qed.

Lemma getFieldDistribution_capped (B : Backend) (topCount : nat)
    (tr : list Event) :
  exists fd tr',
    ImpactSummary.getFieldDistribution B topCount tr = (Ok fd, tr')
    /\ List.length (ImpactSummary.topConsumerFields fd) <= topCount.
Proof.
  unfold ImpactSummary.getFieldDistribution. run_io.
  destruct (fault B (QTopConsumers topCount)) as [[?|?]|]; cbn;
    try (do 2 eexists; split; [reflexivity | simpl; lia]).
  destruct (fault B (QTopProducers topCount)) as [[?|?]|]; cbn;
    try (do 2 eexists; split; [reflexivity | simpl; lia]).
  destruct (fault B QSixBands) as [[?|?]|]; cbn;
    try (do 2 eexists; split; [reflexivity | simpl; lia]).
  do 2 eexists; split; [reflexivity|]. simpl.
  unfold topConsumerRows. apply firstn_le_length.
Qed.

Lemma filter_length_le {A} (p : A -> bool) (l : list A) :
  List.length (filter p l) <= List.length l.
Proof.
  induction l as [|x l IH]; simpl; [lia|]. destruct (p x); simpl; lia.
Qed.

Lemma capped_ranking_is_not_critical (stats : ImpactSummary.SystemStats)
    (fd : ImpactSummary.FieldDistribution) :
  List.length (ImpactSummary.topConsumerFields fd) <= 20 ->
  ImpactSummary.systemFragility (ImpactSummary.generateRiskAssessment stats fd)
  <> "CRITICAL"
  /\ ImpactSummary.recommendedActions (ImpactSummary.generateRiskAssessment stats fd)
     = ImpactSummary.baseActions.
Proof.
  intros Hcap. unfold ImpactSummary.generateRiskAssessment.
  cbn [ImpactSummary.systemFragility ImpactSummary.recommendedActions].
  set (n := List.length (filter _ (map ImpactSummary.assessField _))).
  assert (Hn : n <= 20).
  { subst n. etransitivity; [apply filter_length_le|]. now rewrite length_map. }
  assert (E : (20 <? n) = false) by (apply Nat.ltb_ge; exact Hn).
  rewrite E.
  destruct (10 <? n); [|destruct (5 <? n)]; cbn; split; congruence.
Qed.

(** C6: the fields that are rated are the [topConsumerFields], at most
    [topCount] of them; when that option is at most 20 (it is 10 by default)
    the report is produced with a fragility other than CRITICAL and with the
    five fixed actions only, whatever the graph and whatever fails. *)
Theorem fragility_not_critical_when_top_count_at_most_20 (B : Backend)
    (options : ImpactSummary.ImpactSummaryOptions) (tr : list Event)
    (Hcap : ImpactSummary.topCount options <= 20) :
  exists report tr',
    ImpactSummary.generateReport B options tr = (Ok report, tr')
    /\ List.length (ImpactSummary.topConsumerFields (ImpactSummary.fieldDistribution report))
       <= ImpactSummary.topCount options
    /\ ImpactSummary.criticalFields (ImpactSummary.riskAssessment report)
       = map ImpactSummary.assessField
             (ImpactSummary.topConsumerFields (ImpactSummary.fieldDistribution report))
    /\ ImpactSummary.systemFragility (ImpactSummary.riskAssessment report) <> "CRITICAL"
    /\ ~ In "URGENT: Establish emergency rollback procedures"
            (ImpactSummary.recommendedActions (ImpactSummary.riskAssessment report))
    /\ ~ In "Consider system architecture redesign"
            (ImpactSummary.recommendedActions (ImpactSummary.riskAssessment report)).
Proof.
  unfold ImpactSummary.generateReport.
  destruct (getSystemStats_returns B tr) as [s [tr1 E1]].
  unfold bind at 1. rewrite E1.
  assert (E2 : exists c tr2,
             (if ImpactSummary.notFalse (ImpactSummary.includeConnectivity options)
              then ImpactSummary.getConnectivityStats B
              else ret ImpactSummary.emptyConnectivityStats) tr1 = (Ok c, tr2)).
  { destruct (ImpactSummary.notFalse _);
      [apply getConnectivityStats_returns | unfold ret; eauto]. }
  destruct E2 as [c [tr2 E2]]. unfold bind at 1. rewrite E2.
  assert (E3 : exists fd tr3,
             (if ImpactSummary.notFalse (ImpactSummary.includeDistribution options)
                 && ImpactSummary.notFalse (ImpactSummary.includeTopFields options)
              then ImpactSummary.getFieldDistribution B (ImpactSummary.topCount options)
              else ret ImpactSummary.emptyFieldDistribution) tr2 = (Ok fd, tr3)
             /\ List.length (ImpactSummary.topConsumerFields fd)
                <= ImpactSummary.topCount options).
  { destruct (_ && _);
      [apply getFieldDistribution_capped
      | unfold ret; do 2 eexists; split; [reflexivity | simpl; lia]]. }
  destruct E3 as [fd [tr3 [E3 Hlen]]]. unfold bind at 1. rewrite E3.
  unfold ret. do 2 eexists. split; [reflexivity|].
  cbn [ImpactSummary.fieldDistribution ImpactSummary.riskAssessment].
  destruct (capped_ranking_is_not_critical s fd) as [Hf Ha]; [lia|].
  split; [exact Hlen|]. split; [reflexivity|]. split; [exact Hf|].
  rewrite Ha. unfold ImpactSummary.baseActions. simpl.
  split; intros H; repeat (destruct H as [H|H]; [discriminate H|]); exact H.
Qed.

(** C6 at the default options on the scenario graph. *)
Lemma fragility_not_critical_when_top_count_at_most_20_witness :
  ImpactSummary.topCount ImpactSummary.defaultOptions <= 20
  /\ exists report tr',
       ImpactSummary.generateReport (healthy scenario)
                                    ImpactSummary.defaultOptions [] = (Ok report, tr')
       /\ ImpactSummary.systemFragility (ImpactSummary.riskAssessment report) <> "CRITICAL".
Proof.
  assert (Hcap : ImpactSummary.topCount ImpactSummary.defaultOptions <= 20)
    by (simpl; lia).
  split; [exact Hcap|].
  destruct (fragility_not_critical_when_top_count_at_most_20
              (healthy scenario) ImpactSummary.defaultOptions [] Hcap)
    as [report [tr' [E [_ [_ [Hf _]]]]]].
  exists report, tr'. split; assumption.
Defined.

(** ** Distribution bands *)

Lemma sumCase_cons (p : nat -> bool) (c : nat) (col : list nat) :
  sumCase p (c :: col) = (if p c then 1 else 0) + sumCase p col.
Proof. reflexivity. Qed.



Lemma consumerCountColumn_length (g : Graph) :
  List.length (consumerCountColumn g) = List.length (eligibleFields g).
Proof. unfold consumerCountColumn. apply length_map. Qed.

(* Decide the comparisons of the goal one at a time, dropping the
   combinations that contradict each other. *)
Ltac compare_cases :=
  repeat match goal with
         | |- context [?a <=? ?b] =>
             destruct (Nat.leb_spec a b); try (exfalso; lia)
         | |- context [?a <? ?b] =>
             destruct (Nat.ltb_spec a b); try (exfalso; lia)
         end.

Lemma four_bands_partition (col : list nat) :
  sumCase (fun c => c <? 10) col
  + sumCase (fun c => (10 <=? c) && (c <? 100)) col
  + sumCase (fun c => (100 <=? c) && (c <? 1000)) col
  + sumCase (fun c => 1000 <=? c) col
  = List.length col.
Proof.
  induction col as [|c col IH]; [reflexivity|].
  rewrite !sumCase_cons. cbn [List.length].
  compare_cases; cbn [andb]; lia.
Qed.




(** ** Rounding to binary64 *)

Section Rounding.

Local Open Scope Q_scope.













End Rounding.




(** Three eligible fields, one in each of the first three bands: each
    percentage is the double 33.33333333333333 and the three add up to
    99.99999999999998..., not to 100, yet within the bound.  The rounding
    is [roundDouble]: a third is the double 6004799503160661 / 2^54. *)
Example thirds_add_up_within_rounding_only :
  (roundDouble (1 # 3) == 6004799503160661 # 18014398509481984)%Q
  /\ map (fun c => List.length (consumers threeBands c)) (matchLabel threeBands LElementalField)
     = [1; 11; 51]
  /\ match fst (ImpactSummary.getFieldDistribution (healthy threeBands) 10 []) with
     | Ok fd =>
         map ImpactSummary.count (ImpactSummary.byConsumerCount fd) = [1; 1; 1; 0; 0; 0]
         /\ match numSum (map ImpactSummary.percentage (ImpactSummary.byConsumerCount fd)) with
            | Finite q =>
                (q == 7036874417766399 # 70368744177664)%Q
                /\ ~ (q == 100)%Q
                /\ (Qabs (q - 100) <= 100 * twoRoundings)%Q
            | _ => False
            end
     | Throw _ => False
     end.
Proof.
  vm_compute. repeat split; try reflexivity; intros H; discriminate H.
Qed.

(** A GroupField with a producer and a consumer is no eligible field: the
    distribution counts nothing. *)
Example group_field_is_not_counted :
  eligibleFields viaGroupField = []
  /\ fst (CriticalFields.getFieldDistributionStats (healthy viaGroupField) [])
     = Ok {| lowImpact := 0; mediumImpact := 0; highImpact := 0; criticalImpact := 0 |}.
Proof. split; reflexivity. Qed.

(** ** The summary of an empty ranking *)

Lemma filter_none {A} (p q : A -> bool) (l : list A) :
  (forall x, q x = negb (p x)) -> forallb q l = true -> filter p l = [].
Proof.
  intros Hq. induction l as [|x l IH]; simpl; [reflexivity|].
  intros H. apply andb_true_iff in H. destruct H as [Hx Hl].
  rewrite Hq in Hx. destruct (p x); [discriminate|]. auto.
Qed.

Lemma orderFieldsDesc_nil (k : SortKey) : orderFieldsDesc k [] = [].
Proof. destruct k; reflexivity. Qed.

(** C10: when no field passes the minConsumers threshold the ranking is
    empty and the summary is built all the same, with averageConsumers = NaN
    (0 / 0) and maxConsumers = -Infinity (Math.max of nothing); the
    percentage of the distribution in impact-summary is a finite 0 in the
    same situation, since its divisor is replaced by 1. *)
Theorem empty_ranking_gives_nan_average (B : Backend)
    (minConsumers limit : nat) (sortBy : string) (tr : list Event)
    (Hanswers : anyFault B [QCriticalFields minConsumers limit (getSortClause sortBy);
                            QFieldDistributionStats] = false)
    (Hnone : forallb (fun '(_, (p, c)) => negb ((0 <? p) && (minConsumers <=? c)))
                     (fieldCounts (graph B)) = true) :
  (exists tr', CriticalFields.analyzeCriticalFields B minConsumers limit sortBy tr
               = (Ok [], tr'))
  /\ (exists s tr',
        CriticalFields.summarize B minConsumers limit sortBy tr = (Ok s, tr')
        /\ CriticalFields.totalFields s = 0
        /\ CriticalFields.averageConsumers s = NaN
        /\ CriticalFields.maxConsumers s = NegInfinity)
  /\ (forall ds, CriticalFields.averageConsumers (CriticalFields.generateSummary [] ds) = NaN
                 /\ CriticalFields.maxConsumers (CriticalFields.generateSummary [] ds)
                    = NegInfinity)
  /\ (exists q, ImpactSummary.percentOf 0 (natOrElse 0 1) = Finite q /\ (q == 0)%Q).
Proof.
  unfold anyFault in Hanswers. cbn [existsb] in Hanswers.
  destruct (fault B (QCriticalFields minConsumers limit (getSortClause sortBy))) eqn:F0;
    [discriminate|].
  destruct (fault B QFieldDistributionStats) eqn:F1; [discriminate|].
  assert (Erows : criticalFieldRows (graph B) minConsumers limit (getSortClause sortBy) = []).
  { unfold criticalFieldRows.
    erewrite filter_none; [| |exact Hnone].
    - simpl. rewrite orderFieldsDesc_nil. now destruct limit.
    - intros [f [p c]]. reflexivity. }
  assert (Eq : CriticalFields.analyzeCriticalFields B minConsumers limit sortBy tr
               = (Ok [], tr ++ [Sent (QCriticalFields minConsumers limit (getSortClause sortBy))])).
  { unfold CriticalFields.analyzeCriticalFields. run_io. rewrite F0.
    cbn [evalCypher]. rewrite Erows. reflexivity. }
  split; [eexists; exact Eq|]. split; [|split].
  - unfold CriticalFields.summarize. unfold bind at 1. rewrite Eq.
    unfold CriticalFields.getFieldDistributionStats. run_io. rewrite F1.
    cbn -[Nat.ltb Nat.leb sumCase]. do 2 eexists. split; [reflexivity|].
    repeat split.
  - intros ds. split; reflexivity.
  - eexists. split; [reflexivity|]. reflexivity.
Qed.

(** C10 on the scenario graph with a threshold of five consumers: neither
    field reaches it. *)
Lemma empty_ranking_gives_nan_average_witness :
  anyFault (healthy scenario)
           [QCriticalFields 5 50 (getSortClause "consumers"); QFieldDistributionStats]
  = false
  /\ forallb (fun '(_, (p, c)) => negb ((0 <? p) && (5 <=? c)))
             (fieldCounts (graph (healthy scenario))) = true
  /\ exists s tr',
       CriticalFields.summarize (healthy scenario) 5 50 "consumers" [] = (Ok s, tr')
       /\ CriticalFields.totalFields s = 0
       /\ CriticalFields.averageConsumers s = NaN
       /\ CriticalFields.maxConsumers s = NegInfinity.
Proof.
  assert (Ha : anyFault (healthy scenario)
                 [QCriticalFields 5 50 (getSortClause "consumers"); QFieldDistributionStats]
               = false) by reflexivity.
  assert (Hn : forallb (fun '(_, (p, c)) => negb ((0 <? p) && (5 <=? c)))
                       (fieldCounts (graph (healthy scenario))) = true)
    by reflexivity.
  split; [exact Ha|]. split; [exact Hn|].
  exact (proj1 (proj2 (empty_ranking_gives_nan_average
                         (healthy scenario) 5 50 "consumers" [] Ha Hn))).
Defined.

(** ** Dependency paths *)

Lemma pair_induction {A} (P : list A -> Prop) :
  P [] -> (forall x, P [x]) -> (forall x y l, P l -> P (x :: y :: l)) ->
  forall l, P l.
Proof.
  intros H0 H1 H2 l.
  assert (H : P l /\ forall x, P (x :: l)); [|tauto].
  induction l as [|y l [IHa IHb]]; split; auto.
Qed.

Lemma matchLabel_hasLabel (g : Graph) (l : Label) (i : nat) :
  In i (matchLabel g l) -> hasLabel g l i = true.
Proof.
  unfold matchLabel, hasLabel. intros H.
  apply in_map_iff in H. destruct H as [[k n] [<- H]].
  apply filter_In in H. destruct H as [Hin Hl].
  apply indexed_nth in Hin. simpl. now rewrite Hin.
Qed.

Lemma endpoints_labelled (g : Graph) (source target : string) (s t : nat) :
  In (s, t) (endpoints g source target) ->
  hasLabel g LBusinessFunction s = true /\ hasLabel g LBusinessFunction t = true.
Proof.
  unfold endpoints, matchNamed. intros H.
  apply in_flat_map in H. destruct H as [s' [Hs H]].
  apply in_map_iff in H. destruct H as [t' [E Ht]]. inversion E; subst.
  apply filter_In in Hs. apply filter_In in Ht.
  split; apply matchLabel_hasLabel; tauto.
Qed.

Lemma labels_exclusive (g : Graph) (i : nat) :
  hasLabel g LBusinessFunction i = true -> hasLabel g LElementalField i = false.
Proof.
  unfold hasLabel. destruct (nth_error (nodes g) i) as [n|]; [|discriminate].
  destruct (label n); simpl; congruence.
Qed.

Lemma incident_rel (g : Graph) (i k m : nat) :
  In (k, m) (incident g i) ->
  exists r, nth_error (rels g) k = Some r
            /\ ((startNode r = i /\ endNode r = m)
                \/ (endNode r = i /\ startNode r = m)).
Proof.
  unfold incident. intros H. apply in_flat_map in H.
  destruct H as [[k' r] [Hin H]]. apply indexed_nth in Hin.
  destruct (startNode r =? i) eqn:E1.
  - destruct H as [H|[]]. inversion H; subst. apply Nat.eqb_eq in E1.
    exists r. auto.
  - destruct (endNode r =? i) eqn:E2; [|destruct H].
    destruct H as [H|[]]. inversion H; subst. apply Nat.eqb_eq in E2.
    exists r. auto.
Qed.

Lemma last_default {A} (l : list A) (d d' : A) :
  l <> [] -> last l d = last l d'.
Proof.
  induction l as [|x l IH]; [congruence|]. intros _.
  destruct l as [|y l]; [reflexivity|]. simpl in *. apply IH. discriminate.
Qed.

Lemma pathEnd_cons (cur : nat) (k m : nat) (p : list (nat * nat)) :
  pathEnd cur ((k, m) :: p) = pathEnd m p.
Proof.
  unfold pathEnd. simpl. destruct (map snd p) as [|x l] eqn:E; [reflexivity|].
  apply last_default. discriminate.
Qed.

Lemma trailsFrom_sound (g : Graph) (t : nat) :
  forall n cur used p,
    In p (trailsFrom g t n cur used) ->
    isWalk g cur p /\ pathEnd cur p = t /\ 1 <= List.length p <= n.
Proof.
  induction n as [|n IH]; intros cur used p H; simpl in H; [destruct H|].
  apply in_flat_map in H. destruct H as [[k m] [Hin H]].
  destruct (existsb (Nat.eqb k) used); [destruct H|].
  apply in_app_or in H. destruct H as [H|H].
  - destruct (m =? t) eqn:E; [|destruct H]. destruct H as [<-|[]].
    apply Nat.eqb_eq in E. simpl. unfold pathEnd. simpl. repeat split; auto; lia.
  - apply in_map_iff in H. destruct H as [p' [<- Hp']].
    apply IH in Hp'. destruct Hp' as [Hw [He Hl]].
    rewrite pathEnd_cons. simpl. repeat split; auto; lia.
Qed.

Section Schema.

Variable g : Graph.
Hypothesis Hschema : schemaOk g = true.

Lemma schemaOk_rel (k : nat) (r : Rel) :
  nth_error (rels g) k = Some r ->
  isDependencyRel g k = true ->
  hasLabel g LBusinessFunction (startNode r) = true
  /\ hasLabel g LElementalField (endNode r) = true.
Proof.
  pose proof Hschema as Hs.
  unfold schemaOk, isDependencyRel in *. intros Hn Hd. rewrite Hn in Hd.
  rewrite forallb_forall in Hs. specialize (Hs r (nth_error_In _ _ Hn)).
  rewrite Hd in Hs. now apply andb_true_iff in Hs.
Qed.

(** Under the schema a dependency relationship leads from a
    BusinessFunction to an ElementalField and back. *)
Lemma step_alternates (i k m : nat) :
  In (k, m) (incident g i) -> isDependencyRel g k = true ->
  (hasLabel g LBusinessFunction i = true ->
   hasLabel g LElementalField m = true /\ hasLabel g LBusinessFunction m = false)
  /\ (hasLabel g LElementalField i = true ->
      hasLabel g LBusinessFunction m = true /\ hasLabel g LElementalField m = false).
Proof.
  intros Hin Hd. destruct (incident_rel g i k m Hin) as [r [Hn Hends]].
  destruct (schemaOk_rel k r Hn Hd) as [Hbf Hef].
  pose proof (labels_exclusive g (startNode r) Hbf) as Hx.
  destruct Hends as [[<- <-]|[<- <-]]; split; intros H.
  - split; [exact Hef|]. destruct (hasLabel g LBusinessFunction (endNode r)) eqn:E; [|reflexivity].
    apply labels_exclusive in E. congruence.
  - congruence.
  - destruct (hasLabel g LBusinessFunction (endNode r)) eqn:E.
    + apply labels_exclusive in E. congruence.
    + discriminate.
  - auto.
Qed.

(** A walk along dependency relationships from one BusinessFunction to
    another visits units and fields in turn. *)
Lemma walk_alternates :
  forall steps cur,
    isWalk g cur steps -> allDependencyRels g steps = true ->
    hasLabel g LBusinessFunction cur = true ->
    hasLabel g LBusinessFunction (pathEnd cur steps) = true ->
    let pathNodes := cur :: map snd steps in
    let units := filter (hasLabel g LBusinessFunction) pathNodes in
    let fields := filter (hasLabel g LElementalField) pathNodes in
    List.length steps = 2 * List.length fields
    /\ List.length units = List.length fields + 1
    /\ map (nodeName g) pathNodes
       = interleave (map (nodeName g) units) (map (nodeName g) fields).
Proof.
  intros steps. induction steps as [| [k m] | [k1 m1] [k2 m2] rest IH] using pair_induction;
    intros cur Hw Hd Hcur Hend; cbn zeta.
  - simpl. rewrite Hcur, (labels_exclusive g cur Hcur). simpl. auto.
  - exfalso. simpl in Hw, Hd. destruct Hw as [Hin _].
    rewrite andb_true_r in Hd.
    destruct (step_alternates cur k m Hin Hd) as [H _].
    destruct (H Hcur) as [_ Hm]. unfold pathEnd in Hend. simpl in Hend. congruence.
  - simpl in Hw, Hd. destruct Hw as [Hin1 [Hin2 Hw]].
    apply andb_true_iff in Hd. destruct Hd as [Hd1 Hd].
    apply andb_true_iff in Hd. destruct Hd as [Hd2 Hd].
    destruct (step_alternates cur k1 m1 Hin1 Hd1) as [H1 _].
    destruct (H1 Hcur) as [Hm1 Hm1'].
    destruct (step_alternates m1 k2 m2 Hin2 Hd2) as [_ H2].
    destruct (H2 Hm1) as [Hm2 Hm2'].
    rewrite !pathEnd_cons in Hend.
    specialize (IH m2 Hw Hd Hm2 Hend). cbn zeta in IH.
    destruct IH as [IHl [IHu IHn]].
    cbn [map snd filter List.length].
    rewrite Hcur, (labels_exclusive g cur Hcur), Hm1, Hm1'.
    cbn [map snd filter List.length] in IHl, IHu, IHn.
    cbn [List.length map interleave].
    rewrite IHn. repeat split; try lia.
Qed.

Lemma pathRow_counts (s t : nat) (steps : list (nat * nat)) (maxDepth : nat) :
  hasLabel g LBusinessFunction s = true ->
  hasLabel g LBusinessFunction t = true ->
  In steps (dependencyTrails g maxDepth s t) ->
  let row := pathRow g s steps in
  List.length (rowBusinessFunctions row) = rowPathLength row + 1
  /\ List.length (rowFields row) = rowPathLength row
  /\ isWalk g s steps
  /\ List.length steps = 2 * rowPathLength row
  /\ map (nodeName g) (s :: map snd steps)
     = interleave (rowBusinessFunctions row) (rowFields row).
Proof.
  intros Hs Ht Hin. unfold dependencyTrails in Hin.
  apply filter_In in Hin. destruct Hin as [Hin Hd].
  apply trailsFrom_sound in Hin. destruct Hin as [Hw [He _]].
  rewrite <- He in Ht.
  destruct (walk_alternates steps s Hw Hd Hs Ht) as [Hl [Hu Hn]].
  cbn zeta. unfold pathRow. cbn [rowBusinessFunctions rowFields rowPathLength].
  rewrite !length_map, Hl.
  replace (2 * _ / 2) with
    (List.length (filter (hasLabel g LElementalField) (s :: map snd steps))).
  - repeat split; auto.
  - symmetry. rewrite Nat.mul_comm. apply Nat.div_mul. discriminate.
Qed.

End Schema.

Lemma shortestOf_In {A} (ps : list (list A)) (p : list A) :
  In p
     (match ps with
      | [] => []
      | p0 :: rest =>
          [fold_left (fun best q =>
                        if List.length q <? List.length best then q else best)
                     rest p0]
      end) ->
  In p ps /\ forall q, In q ps -> List.length p <= List.length q.
Proof.
  destruct ps as [|p0 rest]; [intros []|]. intros [<-|[]].
  revert p0. induction rest as [|q rest IH]; intros p0; simpl.
  - split; [auto|]. intros q [<-|[]]. lia.
  - destruct (IH (if List.length q <? List.length p0 then q else p0)) as [Hin Hmin].
    split.
    + destruct Hin as [Hin|Hin]; [|auto].
      rewrite <- Hin. destruct (List.length q <? List.length p0); auto.
    + pose proof (Hmin _ (or_introl eq_refl)) as H0.
      intros q' [E|[E|Hq']]; subst.
      * destruct (List.length q <? List.length q') eqn:E; [apply Nat.ltb_lt in E|]; lia.
      * destruct (List.length q' <? List.length p0) eqn:E; [|apply Nat.ltb_ge in E]; lia.
      * apply Hmin. right. exact Hq'.
Qed.

(** Every row of the three texts renders a path that the pattern binds
    between a pair of endpoints. *)
Lemma path_rows_shape (g : Graph) (source target : string)
    (maxDepth limit : nat) (row : PathRow) :
  (exists rows, shortestPathRows g source target maxDepth limit = inr rows
                /\ In row rows)
  \/ In row (allPathRows g source target maxDepth limit)
  \/ In row (longestPathRows g source target maxDepth limit) ->
  exists s t steps,
    In (s, t) (endpoints g source target)
    /\ In steps (dependencyTrails g maxDepth s t)
    /\ row = pathRow g s steps.
Proof.
  intros [[rows [E H]]|[H|H]].
  - unfold shortestPathRows in E. destruct (existsb _ _); [discriminate|].
    inversion E; subst; clear E. apply firstn_In in H.
    apply in_flat_map in H. destruct H as [[s t] [Hst H]].
    apply in_map_iff in H. destruct H as [p [<- Hp]].
    apply shortestOf_In in Hp. exists s, t, p. tauto.
  - unfold allPathRows, orderAsc in H. apply firstn_In in H.
    apply stableSort_In in H.
    apply in_flat_map in H. destruct H as [[s t] [Hst H]].
    apply in_map_iff in H. destruct H as [p [<- Hp]].
    apply filter_In in Hp. exists s, t, p. tauto.
  - unfold longestPathRows, orderDesc in H. apply firstn_In in H.
    apply stableSort_In in H.
    apply in_flat_map in H. destruct H as [[s t] [Hst H]].
    apply in_map_iff in H. destruct H as [p [<- Hp]].
    exists s, t, p. tauto.
Qed.

(** What findDependencyPaths returns, by strategy. *)
Lemma findDependencyPaths_rows (B : Backend) (source target : string)
    (maxDepth : nat) (pathType : string) (limit : nat) (tr tr' : list Event)
    (paths : list DependencyPath.DependencyPath) :
  DependencyPath.findDependencyPaths B source target maxDepth pathType limit tr
  = (Ok paths, tr') ->
  (pathType = "shortest"
   /\ exists rows, shortestPathRows (graph B) source target maxDepth limit = inr rows
                   /\ paths = map DependencyPath.toPath rows)
  \/ (pathType = "all"
      /\ paths = map DependencyPath.toPath
                     (allPathRows (graph B) source target maxDepth limit))
  \/ (pathType = "longest"
      /\ paths = map DependencyPath.toPath
                     (longestPathRows (graph B) source target maxDepth limit)).
Proof.
  unfold DependencyPath.findDependencyPaths.
  destruct (String.eqb pathType "shortest") eqn:E1;
    [|destruct (String.eqb pathType "all") eqn:E2;
      [|destruct (String.eqb pathType "longest") eqn:E3]].
  - apply String.eqb_eq in E1. run_io.
    destruct (fault B (QShortestPath source target maxDepth limit)) as [[?|?]|];
      cbn; try discriminate.
    destruct (shortestPathRows (graph B) source target maxDepth limit) as [c|rows];
      cbn; [discriminate|].
    intros H. inversion H; subst. left. split; [reflexivity|]. eauto.
  - apply String.eqb_eq in E2. run_io.
    destruct (fault B (QAllPaths source target maxDepth limit)) as [[?|?]|];
      cbn; try discriminate.
    intros H. inversion H; subst. right; left. auto.
  - apply String.eqb_eq in E3. run_io.
    destruct (fault B (QLongestPaths source target maxDepth limit)) as [[?|?]|];
      cbn; try discriminate.
    intros H. inversion H; subst. right; right. auto.
  - unfold throw. discriminate.
Qed.

(** C7 does not hold on every graph.  The schema notes let a
    HAS_INPUT_FIELD or HAS_OUTPUT_FIELD relationship end at any Field, and
    the path texts list as fields only the nodes labelled ElementalField.  In
    [viaGroupField] A writes the GroupField G and B reads it: under each of
    the three strategies the one path from A to B has pathLength 1 and two
    units, but no field, and its description shows a bare arrow. *)
Lemma path_through_group_field_lists_no_field :
  schemaOk viaGroupField = false
  /\ forall pathType, In pathType ["shortest"; "all"; "longest"] ->
       fst (DependencyPath.findDependencyPaths (healthy viaGroupField) "A" "B" 3
                                               pathType 10 [])
       = Ok [ {| DependencyPath.sourceBusinessFunction := "A";
                 DependencyPath.targetBusinessFunction := "B";
                 DependencyPath.pathLength := 1;
                 DependencyPath.businessFunctions := ["A"; "B"];
                 DependencyPath.fields := [];
                 DependencyPath.pathDescription := "A --> B" |} ].
Proof.
  split; [reflexivity|].
  intros pathType [<-|[<-|[<-|[]]]]; reflexivity.
Qed.

(** C7 as the code has it: on a graph that follows the schema of the
    architecture notes (a HAS_INPUT_FIELD or HAS_OUTPUT_FIELD relationship
    runs from a BusinessFunction to an ElementalField), every path returned by
    findDependencyPaths, under any of the three strategies, lists
    pathLength + 1 units and pathLength fields; it renders a walk of
    2 * pathLength relationships whose nodes are the units and the fields in
    turn, starting and ending with a unit. *)
Theorem path_units_and_fields_interleave (B : Backend)
    (source target : string) (maxDepth : nat) (pathType : string)
    (limit : nat) (tr tr' : list Event)
    (paths : list DependencyPath.DependencyPath)
    (Hschema : schemaOk (graph B) = true)
    (Hreturned :
       DependencyPath.findDependencyPaths B source target maxDepth pathType limit tr
       = (Ok paths, tr')) :
  forall P, In P paths ->
    List.length (DependencyPath.businessFunctions P) = DependencyPath.pathLength P + 1
    /\ List.length (DependencyPath.fields P) = DependencyPath.pathLength P
    /\ exists s steps,
         isWalk (graph B) s steps
         /\ List.length steps = 2 * DependencyPath.pathLength P
         /\ map (nodeName (graph B)) (s :: map snd steps)
            = interleave (DependencyPath.businessFunctions P) (DependencyPath.fields P).
Proof.
  intros P HP.
  assert (Hrow : exists row,
             P = DependencyPath.toPath row
             /\ ((exists rows, shortestPathRows (graph B) source target maxDepth limit = inr rows
                               /\ In row rows)
                 \/ In row (allPathRows (graph B) source target maxDepth limit)
                 \/ In row (longestPathRows (graph B) source target maxDepth limit))).
  { destruct (findDependencyPaths_rows _ _ _ _ _ _ _ _ _ Hreturned)
      as [[_ [rows [E ->]]]|[[_ ->]|[_ ->]]];
      apply in_map_iff in HP; destruct HP as [row [<- Hrow]];
      exists row; split; eauto. }
  destruct Hrow as [row [-> Hrow]].
  apply path_rows_shape in Hrow. destruct Hrow as [s [t [steps [Hst [Hin ->]]]]].
  apply endpoints_labelled in Hst. destruct Hst as [Hs Ht].
  destruct (pathRow_counts (graph B) Hschema s t steps maxDepth Hs Ht Hin)
    as [Hu [Hf [Hw [Hl Hn]]]].
  unfold DependencyPath.toPath.
  cbn [DependencyPath.businessFunctions DependencyPath.fields DependencyPath.pathLength].
  split; [exact Hu|]. split; [exact Hf|]. exists s, steps. auto.
Qed.

(** C7 at the two paths from A to B on the cyclic graph, longest first. *)
Lemma path_units_and_fields_interleave_witness :
  schemaOk (graph (healthy cyclic)) = true
  /\ exists paths tr',
       DependencyPath.findDependencyPaths (healthy cyclic) "A" "B" 3 "longest" 100 []
       = (Ok paths, tr')
       /\ map DependencyPath.pathDescription paths = ["A --[F1]--> B"; "A --[F2]--> B"]
       /\ forall P, In P paths ->
            List.length (DependencyPath.businessFunctions P) = DependencyPath.pathLength P + 1
            /\ List.length (DependencyPath.fields P) = DependencyPath.pathLength P.
Proof.
  assert (Hschema : schemaOk (graph (healthy cyclic)) = true) by reflexivity.
  split; [exact Hschema|].
  do 2 eexists. split; [reflexivity|]. split; [reflexivity|].
  intros P HP.
  destruct (path_units_and_fields_interleave
              (healthy cyclic) "A" "B" 3 "longest" 100 [] _ _ Hschema eq_refl P HP)
    as [Hu [Hf _]].
  split; assumption.
Defined.

(** C8 does not hold when a name denotes several units.  In [homonyms] two
    BusinessFunctions are called A; shortestPath yields one path per pair of
    endpoints, so the "shortest" answer holds the two-hop path of the second
    A, which is longer than the one-hop path that "all" returns for the
    first. *)
Lemma shortest_can_exceed_all_between_homonyms :
  exists ps qs tr1 tr2,
    DependencyPath.findDependencyPaths (healthy homonyms) "A" "T" 3 "shortest" 100 []
    = (Ok ps, tr1)
    /\ DependencyPath.findDependencyPaths (healthy homonyms) "A" "T" 3 "all" 100 []
       = (Ok qs, tr2)
    /\ map DependencyPath.pathDescription ps
       = ["A --[F1]--> T"; "A --[F2]--> M --[F3]--> T"]
    /\ exists P Q, In P ps /\ In Q qs
                   /\ DependencyPath.pathLength Q < DependencyPath.pathLength P.
Proof.
  do 4 eexists. split; [reflexivity|]. split; [reflexivity|]. split; [reflexivity|].
  do 2 eexists. split; [right; left; reflexivity|]. split; [left; reflexivity|].
  simpl. lia.
Qed.

Lemma at_most_one (l : list nat) (x y : nat) :
  List.length l <= 1 -> In x l -> In y l -> x = y.
Proof.
  destruct l as [|a [|b l]]; simpl; intros Hl Hx Hy; [tauto | | lia].
  destruct Hx as [Hx|[]], Hy as [Hy|[]]. congruence.
Qed.

Lemma endpoints_unique (g : Graph) (source target : string) (s t s' t' : nat) :
  List.length (matchNamed g LBusinessFunction source) <= 1 ->
  List.length (matchNamed g LBusinessFunction target) <= 1 ->
  In (s, t) (endpoints g source target) ->
  In (s', t') (endpoints g source target) ->
  s = s' /\ t = t'.
Proof.
  unfold endpoints. intros Hs Ht H H'.
  apply in_flat_map in H. destruct H as [a [Ha H]].
  apply in_map_iff in H. destruct H as [b [E Hb]]. inversion E; subst.
  apply in_flat_map in H'. destruct H' as [a' [Ha' H']].
  apply in_map_iff in H'. destruct H' as [b' [E' Hb']]. inversion E'; subst.
  split; [exact (at_most_one _ _ _ Hs Ha Ha') | exact (at_most_one _ _ _ Ht Hb Hb')].
Qed.

(** C8 as the code has it: when the source name and the target name each
    denote at most one BusinessFunction, no path of the "shortest" answer is
    longer than any path of the "all" answer for the same source, target and
    maxDepth, whatever the two limits. *)
Theorem shortest_not_longer_than_all (B : Backend) (source target : string)
    (maxDepth limit limit' : nat) (tr1 tr1' tr2 tr2' : list Event)
    (ps qs : list DependencyPath.DependencyPath)
    (Hsource : List.length (matchNamed (graph B) LBusinessFunction source) <= 1)
    (Htarget : List.length (matchNamed (graph B) LBusinessFunction target) <= 1)
    (Hshortest :
       DependencyPath.findDependencyPaths B source target maxDepth "shortest" limit tr1
       = (Ok ps, tr1'))
    (Hall :
       DependencyPath.findDependencyPaths B source target maxDepth "all" limit' tr2
       = (Ok qs, tr2')) :
  forall P Q, In P ps -> In Q qs ->
    DependencyPath.pathLength P <= DependencyPath.pathLength Q.
Proof.
  intros P Q HP HQ.
  destruct (findDependencyPaths_rows _ _ _ _ _ _ _ _ _ Hshortest)
    as [[_ [rows [E ->]]]|[[E _]|[E _]]]; try discriminate E.
  destruct (findDependencyPaths_rows _ _ _ _ _ _ _ _ _ Hall)
    as [[E' _]|[[_ ->]|[E' _]]]; try discriminate E'.
  apply in_map_iff in HP. destruct HP as [rp [<- Hrp]].
  apply in_map_iff in HQ. destruct HQ as [rq [<- Hrq]].
  unfold DependencyPath.toPath. cbn [DependencyPath.pathLength].
  (* the shortest row *)
  unfold shortestPathRows in E. destruct (existsb _ _); [discriminate|].
  inversion E; subst; clear E. apply firstn_In in Hrp.
  apply in_flat_map in Hrp. destruct Hrp as [[s t] [Hst Hrp]].
  apply in_map_iff in Hrp. destruct Hrp as [p [<- Hp]].
  apply shortestOf_In in Hp. destruct Hp as [_ Hmin].
  (* the row of "all" *)
  unfold allPathRows, orderAsc in Hrq. apply firstn_In in Hrq.
  apply stableSort_In in Hrq.
  apply in_flat_map in Hrq. destruct Hrq as [[s' t'] [Hst' Hrq]].
  apply in_map_iff in Hrq. destruct Hrq as [q [<- Hq]].
  apply filter_In in Hq. destruct Hq as [Hq _].
  destruct (endpoints_unique _ _ _ _ _ _ _ Hsource Htarget Hst Hst') as [<- <-].
  unfold pathRow. cbn [rowPathLength].
  apply Nat.Div0.div_le_mono. apply Hmin. exact Hq.
Qed.

(** C8 on the cyclic graph, both strategies run from A to B. *)
Lemma shortest_not_longer_than_all_witness :
  List.length (matchNamed (graph (healthy cyclic)) LBusinessFunction "A") <= 1
  /\ List.length (matchNamed (graph (healthy cyclic)) LBusinessFunction "B") <= 1
  /\ exists ps qs tr1 tr2,
       DependencyPath.findDependencyPaths (healthy cyclic) "A" "B" 3 "shortest" 1 []
       = (Ok ps, tr1)
       /\ DependencyPath.findDependencyPaths (healthy cyclic) "A" "B" 3 "all" 100 []
          = (Ok qs, tr2)
       /\ List.length ps = 1 /\ List.length qs = 2
       /\ forall P Q, In P ps -> In Q qs ->
            DependencyPath.pathLength P <= DependencyPath.pathLength Q.
Proof.
  assert (Hs : List.length (matchNamed (graph (healthy cyclic)) LBusinessFunction "A") <= 1)
    by (vm_compute; lia).
  assert (Ht : List.length (matchNamed (graph (healthy cyclic)) LBusinessFunction "B") <= 1)
    by (vm_compute; lia).
  split; [exact Hs|]. split; [exact Ht|].
  do 4 eexists. split; [reflexivity|]. split; [reflexivity|].
  split; [reflexivity|]. split; [reflexivity|].
  exact (shortest_not_longer_than_all (healthy cyclic) "A" "B" 3 1 100
           [] _ [] _ _ _ Hs Ht eq_refl eq_refl).
Defined.

(** * Further properties of the tools *)

(** * Further properties of the tools *)

(** ** Impact analysis: what the loop returns *)

Lemma bind_throw {A B} (m : IO A) (k : A -> IO B) (tr tr' : list Event) (e : Error) :
  m tr = (Throw e, tr') -> bind m k tr = (Throw e, tr').
Proof. intros H. unfold bind. now rewrite H. Qed.

Lemma queryNeo4j_multiHop_cases (B : Backend) (id : string) (b : bool) (d : nat)
    (tr : list Event) :
  match fault B (QMultiHopImpact b id d) with
  | None =>
      queryNeo4j B (QMultiHopImpact b id d) tr
      = (Ok (multiHopRows (graph B) b id d), tr ++ [Sent (QMultiHopImpact b id d)])
  | Some (Unreachable cause) =>
      queryNeo4j B (QMultiHopImpact b id d) tr = (Throw (ConnectError cause), tr)
  | Some (Refused cause) =>
      queryNeo4j B (QMultiHopImpact b id d) tr
      = (Throw (QueryError cause (QMultiHopImpact b id d)),
         tr ++ [Sent (QMultiHopImpact b id d)])
  end.
Proof.
  unfold queryNeo4j.
  destruct (fault B (QMultiHopImpact b id d)) as [[cause|cause]|]; reflexivity.
Qed.

(** The rows of every depth, in the order of the loop. *)
Lemma multiHopLoop_ok (B : Backend) (id : string) (b : bool) :
  forall remaining depth results tr rs tr',
    ImpactAnalysis.multiHopLoop B id b remaining depth results tr = (Ok rs, tr') ->
    rs = results
         ++ flat_map (fun d => map ImpactAnalysis.copyRow (multiHopRows (graph B) b id d))
                     (seq depth remaining)
    /\ tr' = tr ++ map (fun d => Sent (QMultiHopImpact b id d)) (seq depth remaining).
Proof.
  induction remaining as [|n IH]; intros depth results tr rs tr' H.
  - simpl in H. unfold ret in H. inversion H; subst. simpl. now rewrite !app_nil_r.
  - simpl in H. unfold bind at 1 in H.
    pose proof (queryNeo4j_multiHop_cases B id b depth tr) as Hq.
    destruct (fault B (QMultiHopImpact b id depth)) as [[cause|cause]|];
      rewrite Hq in H; try discriminate H.
    apply IH in H. destruct H as [-> ->]. simpl.
    rewrite <- !app_assoc. auto.
Qed.

Lemma copyRow_id (r : ImpactResult) : ImpactAnalysis.copyRow r = r.
Proof. now destruct r. Qed.

Lemma map_copyRow (l : list ImpactResult) : map ImpactAnalysis.copyRow l = l.
Proof. induction l as [|r l IH]; simpl; [reflexivity|]. now rewrite copyRow_id, IH. Qed.

Lemma analyzeDirectImpact_ok (B : Backend) (id : string) (b : bool)
    (tr tr' : list Event) (rs : list ImpactResult) :
  ImpactAnalysis.analyzeDirectImpact B id b tr = (Ok rs, tr') ->
  rs = directImpactRows (graph B) b id /\ tr' = tr ++ [Sent (QDirectImpact b id)].
Proof.
  unfold ImpactAnalysis.analyzeDirectImpact. run_io.
  destruct (fault B (QDirectImpact b id)) as [[?|?]|]; cbn; try discriminate.
  intros H. inversion H; subst. now rewrite map_copyRow.
Qed.

Lemma hops_names_length (g : Graph) :
  forall d field names f ns,
    In (f, ns) (hops g d field names) -> List.length ns = List.length names + d.
Proof.
  induction d as [|d IH]; intros field names f ns H; simpl in H.
  - destruct H as [H|[]]. inversion H; subst. lia.
  - apply in_flat_map in H. destruct H as [bf [_ H]].
    apply in_flat_map in H. destruct H as [f' [_ H]].
    apply IH in H. rewrite length_app in H. simpl in H. lia.
Qed.

Lemma multiHopRows_pathFields (g : Graph) (b : bool) (id : string) (d : nat)
    (r : ImpactResult) :
  In r (multiHopRows g b id d) -> List.length (pathFields r) = d + 1.
Proof.
  unfold multiHopRows. intros H. apply firstn_In in H.
  apply in_flat_map in H. destruct H as [[s f] [_ H]].
  apply in_flat_map in H. destruct H as [[fd names] [Hh H]].
  apply in_map_iff in H. destruct H as [bf [<- _]].
  apply hops_names_length in Hh. simpl in *. lia.
Qed.

Lemma directImpactRows_shape (g : Graph) (b : bool) (id : string)
    (r : ImpactResult) :
  In r (directImpactRows g b id) ->
  impactDepth r = 1 /\ List.length (pathFields r) = 1.
Proof.
  unfold directImpactRows. intros H.
  apply in_flat_map in H. destruct H as [[s f] [_ H]].
  apply in_map_iff in H. destruct H as [bf [<- _]]. auto.
Qed.

Lemma analyzeImpact_pathFields_length (B : Backend) (identifier : string)
    (isOutputField : bool) (depth : nat) (tr tr' : list Event)
    (results : list ImpactResult)
    (Hreturned :
       ImpactAnalysis.analyzeImpact B identifier isOutputField depth tr
       = (Ok results, tr')) :
  forall r, In r results -> List.length (pathFields r) = impactDepth r.
Proof.
  intros r Hr. unfold ImpactAnalysis.analyzeImpact in Hreturned.
  destruct (depth =? 1).
  - apply analyzeDirectImpact_ok in Hreturned. destruct Hreturned as [-> _].
    apply directImpactRows_shape in Hr. lia.
  - unfold ImpactAnalysis.analyzeMultiHopImpact in Hreturned.
    apply multiHopLoop_ok in Hreturned. destruct Hreturned as [-> _].
    simpl in Hr. apply in_flat_map in Hr. destruct Hr as [d [_ Hr]].
    rewrite map_copyRow in Hr.
    rewrite (multiHopRows_pathFields _ _ _ _ _ Hr), (multiHopRows_depth _ _ _ _ _ Hr).
    reflexivity.
Qed.

(** X2: every row that the impact analysis returns lists as many path
    fields as its depth says. *)
Theorem impact_rows_list_one_field_per_depth (B : Backend) (identifier : string)
    (isOutputField : bool) (depth : nat) (tr tr' : list Event)
    (results : list ImpactResult)
    (Hreturned :
       ImpactAnalysis.analyzeImpact B identifier isOutputField depth tr
       = (Ok results, tr')) :
  forall r, In r results -> List.length (pathFields r) = impactDepth r.
Proof. exact (analyzeImpact_pathFields_length B _ _ _ _ _ _ Hreturned). Qed.

Lemma impact_rows_list_one_field_per_depth_witness :
  exists results tr',
    ImpactAnalysis.analyzeImpact (healthy cyclic) "A" false 3 [] = (Ok results, tr')
    /\ List.length results = 3
    /\ forall r, In r results -> List.length (pathFields r) = impactDepth r.
Proof.
  do 2 eexists. split; [reflexivity|]. split; [reflexivity|].
  exact (impact_rows_list_one_field_per_depth (healthy cyclic) "A" false 3 [] _ _ eq_refl).
Defined.

Lemma indexed_In_value {A} (l : list A) (k : nat) (x : A) :
  In (k, x) (indexed l) -> In x l.
Proof. intros H. apply indexed_nth in H. eapply nth_error_In; eauto. Qed.

Lemma matchLabel_node (g : Graph) (l : Label) (i : nat) :
  In i (matchLabel g l) ->
  exists n, nth_error (nodes g) i = Some n /\ label n = l.
Proof.
  unfold matchLabel. intros H.
  apply in_map_iff in H. destruct H as [[k n] [<- H]].
  apply filter_In in H. destruct H as [Hin Hl].
  apply indexed_nth in Hin. exists n. split; [exact Hin|].
  simpl in Hl. destruct (label n), l; simpl in Hl; congruence.
Qed.

Lemma hasLabel_node (g : Graph) (l : Label) (i : nat) :
  hasLabel g l i = true ->
  exists n, nth_error (nodes g) i = Some n /\ label n = l.
Proof.
  unfold hasLabel. destruct (nth_error (nodes g) i) as [n|]; [|discriminate].
  intros H. exists n. split; [reflexivity|].
  destruct (label n), l; simpl in H; congruence.
Qed.

Lemma flat_map_all_nil {A B} (f : A -> list B) (l : list A) :
  (forall x, In x l -> f x = []) -> flat_map f l = [].
Proof.
  induction l as [|x l IH]; simpl; intros H; [reflexivity|].
  rewrite (H x (or_introl eq_refl)), IH; auto.
Qed.

(** No node of the label that is looked up carries the identifier: the
    first MATCH clauses bind nothing. *)
Lemma impactSources_unknown (g : Graph) (b : bool) (id : string) :
  (forall n, In n (nodes g) ->
             label n = (if b then LElementalField else LBusinessFunction) ->
             name n <> id) ->
  impactSources g b id = [].
Proof.
  intros Hun. unfold impactSources. destruct b.
  - apply flat_map_all_nil. intros s _.
    replace (filter _ (outputFields g s)) with (@nil nat); [reflexivity|].
    symmetry. apply (filter_none _ (fun f => negb (String.eqb (nodeName g f) id))).
    + reflexivity.
    + apply forallb_forall. intros f Hf.
      unfold outputFields, outTo in Hf. apply in_map_iff in Hf.
      destruct Hf as [r [<- Hr]]. apply filter_In in Hr. destruct Hr as [_ Hr].
      apply andb_true_iff in Hr. destruct Hr as [_ Hl].
      apply hasLabel_node in Hl. destruct Hl as [n [Hn Hl]].
      unfold nodeName. rewrite Hn.
      destruct (String.eqb (name n) id) eqn:E; [|reflexivity].
      apply String.eqb_eq in E. exfalso.
      exact (Hun n (nth_error_In _ _ Hn) Hl E).
  - replace (matchNamed g LBusinessFunction id) with (@nil nat); [reflexivity|].
    symmetry. unfold matchNamed.
    apply (filter_none _ (fun i => negb (String.eqb (nodeName g i) id))).
    + reflexivity.
    + apply forallb_forall. intros i Hi.
      apply matchLabel_node in Hi. destruct Hi as [n [Hn Hl]].
      unfold nodeName. rewrite Hn.
      destruct (String.eqb (name n) id) eqn:E; [|reflexivity].
      apply String.eqb_eq in E. exfalso.
      exact (Hun n (nth_error_In _ _ Hn) Hl E).
Qed.

(** X1: an identifier that names no unit (or, for a field identifier, no
    elemental field) is not an error: at every depth the analysis returns the
    empty result. *)
Theorem unknown_identifier_has_empty_impact (B : Backend) (identifier : string)
    (isOutputField : bool) (depth : nat) (tr : list Event)
    (Hanswers : forall c, fault B c = None)
    (Hunknown : forall n, In n (nodes (graph B)) ->
                  label n = (if isOutputField then LElementalField
                             else LBusinessFunction) ->
                  name n <> identifier) :
  exists tr',
    ImpactAnalysis.analyzeImpact B identifier isOutputField depth tr = (Ok [], tr').
Proof.
  pose proof (impactSources_unknown _ _ _ Hunknown) as Hs.
  unfold ImpactAnalysis.analyzeImpact. destruct (depth =? 1).
  - eexists. unfold ImpactAnalysis.analyzeDirectImpact. run_io.
    rewrite Hanswers. cbn. unfold directImpactRows. rewrite Hs. reflexivity.
  - destruct (multiHopLoop_healthy B identifier isOutputField
                (fun d => Hanswers _) depth 1 [] tr) as [rows [E _]].
    unfold ImpactAnalysis.analyzeMultiHopImpact. rewrite E. eexists.
    pose proof (multiHopLoop_ok _ _ _ _ _ _ _ _ _ E) as [Hr _].
    simpl in Hr. rewrite Hr. f_equal. f_equal.
    apply flat_map_all_nil. intros d _.
    unfold multiHopRows. rewrite Hs. reflexivity.
Qed.

Lemma unknown_identifier_has_empty_impact_witness :
  (forall c, fault (healthy scenario) c = None)
  /\ (forall n, In n (nodes (graph (healthy scenario))) ->
                label n = LBusinessFunction -> name n <> "Z")
  /\ exists tr',
       ImpactAnalysis.analyzeImpact (healthy scenario) "Z" false 3 [] = (Ok [], tr').
Proof.
  assert (Ha : forall c, fault (healthy scenario) c = None) by reflexivity.
  assert (Hu : forall n, In n (nodes (graph (healthy scenario))) ->
                 label n = (if false then LElementalField else LBusinessFunction) ->
                 name n <> "Z").
  { simpl. intros n H _. repeat (destruct H as [<-|H]; [discriminate|]). destruct H. }
  split; [exact Ha|]. split; [exact Hu|].
  exact (unknown_identifier_has_empty_impact (healthy scenario) "Z" false 3 [] Ha Hu).
Defined.

Lemma StronglySorted_app_le (l1 l2 : list nat) :
  StronglySorted le l1 -> StronglySorted le l2 ->
  (forall x y, In x l1 -> In y l2 -> x <= y) ->
  StronglySorted le (l1 ++ l2).
Proof.
  induction l1 as [|a l1 IH]; simpl; intros H1 H2 H; [exact H2|].
  inversion H1; subst. constructor.
  - apply IH; auto.
  - apply Forall_app. split; [assumption|].
    apply Forall_forall. intros y Hy. apply H; auto.
Qed.

Lemma StronglySorted_constant (l : list nat) (c : nat) :
  (forall x, In x l -> x = c) -> StronglySorted le l.
Proof.
  induction l as [|a l IH]; intros H; constructor.
  - apply IH. intros x Hx. apply H. now right.
  - apply Forall_forall. intros x Hx.
    rewrite (H a (or_introl eq_refl)), (H x (or_intror Hx)). lia.
Qed.

Lemma depth_blocks_sorted (g : Graph) (b : bool) (id : string) :
  forall n a,
    StronglySorted le
      (map impactDepth
           (flat_map (fun d => map ImpactAnalysis.copyRow (multiHopRows g b id d))
                     (seq a n)))
    /\ forall r, In r (flat_map (fun d => map ImpactAnalysis.copyRow (multiHopRows g b id d))
                                (seq a n)) ->
                 a + 1 <= impactDepth r <= a + n.
Proof.
  induction n as [|n IH]; intros a; simpl.
  - split; [constructor | intros r []].
  - destruct (IH (S a)) as [Hs Hb].
    assert (Hblock : forall r, In r (map ImpactAnalysis.copyRow (multiHopRows g b id a)) ->
                               impactDepth r = a + 1).
    { intros r Hr. rewrite map_copyRow in Hr. now apply multiHopRows_depth in Hr. }
    split.
    + rewrite map_app. apply StronglySorted_app_le; [|exact Hs|].
      * apply (StronglySorted_constant _ (a + 1)). intros x Hx.
        apply in_map_iff in Hx. destruct Hx as [r [<- Hr]]. auto.
      * intros x y Hx Hy.
        apply in_map_iff in Hx. destruct Hx as [r [<- Hr]].
        apply in_map_iff in Hy. destruct Hy as [r' [<- Hr']].
        rewrite (Hblock r Hr). apply Hb in Hr'. lia.
    + intros r Hr. apply in_app_or in Hr. destruct Hr as [Hr|Hr].
      * rewrite (Hblock r Hr). lia.
      * apply Hb in Hr. lia.
Qed.

(** X3: the rows of a multi-hop analysis come in order of depth, and each
    one is tagged between 2 and maxDepth + 1. *)
Theorem multiHop_rows_ordered_by_depth (B : Backend) (identifier : string)
    (isOutputField : bool) (maxDepth : nat) (tr tr' : list Event)
    (results : list ImpactResult)
    (Hreturned :
       ImpactAnalysis.analyzeMultiHopImpact B identifier isOutputField maxDepth tr
       = (Ok results, tr')) :
  StronglySorted le (map impactDepth results)
  /\ forall r, In r results -> 2 <= impactDepth r <= maxDepth + 1.
Proof.
  unfold ImpactAnalysis.analyzeMultiHopImpact in Hreturned.
  apply multiHopLoop_ok in Hreturned. destruct Hreturned as [-> _]. simpl.
  destruct (depth_blocks_sorted (graph B) isOutputField identifier maxDepth 1)
    as [Hs Hb].
  split; [exact Hs|]. intros r Hr. apply Hb in Hr. lia.
Qed.

Lemma multiHop_rows_ordered_by_depth_witness :
  exists results tr',
    ImpactAnalysis.analyzeMultiHopImpact (healthy cyclic) "A" false 3 []
    = (Ok results, tr')
    /\ map impactDepth results = [2; 3; 4]
    /\ StronglySorted le (map impactDepth results).
Proof.
  do 2 eexists. split; [reflexivity|]. split; [reflexivity|].
  exact (proj1 (multiHop_rows_ordered_by_depth (healthy cyclic) "A" false 3 [] _ _ eq_refl)).
Defined.

(** The loop stops at the first depth whose query is refused. *)
Lemma multiHopLoop_first_failure (B : Backend) (id : string) (b : bool)
    (k : nat) (cause : string) :
  fault B (QMultiHopImpact b id k) = Some (Refused cause) ->
  forall remaining depth results tr,
    depth <= k < depth + remaining ->
    (forall d, depth <= d < k -> fault B (QMultiHopImpact b id d) = None) ->
    ImpactAnalysis.multiHopLoop B id b remaining depth results tr
    = (Throw (QueryError cause (QMultiHopImpact b id k)),
       tr ++ map (fun d => Sent (QMultiHopImpact b id d)) (seq depth (S k - depth))).
Proof.
  intros Hk. induction remaining as [|n IH]; intros depth results tr Hr Hb; [lia|].
  pose proof (queryNeo4j_multiHop_cases B id b depth tr) as Hq.
  destruct (Nat.eq_dec depth k) as [->|Hne].
  - replace (S k - k) with 1 by lia.
    rewrite Hk in Hq. cbn [ImpactAnalysis.multiHopLoop]. unfold bind at 1.
    rewrite Hq. reflexivity.
  - replace (S k - depth) with (S (S k - S depth)) by lia.
    rewrite (Hb depth) in Hq by lia.
    cbn [ImpactAnalysis.multiHopLoop]. unfold bind at 1. rewrite Hq.
    rewrite IH by (try lia; intros; apply Hb; lia).
    cbn [seq map]. now rewrite <- app_assoc.
Qed.

(** X4: when the query of some depth k is the first one refused, the
    multi-hop analysis throws that error after sending the queries of depth
    1 to k; the rows already collected for the smaller depths are not
    returned. *)
Theorem multiHop_aborts_at_first_failure (B : Backend) (identifier : string)
    (isOutputField : bool) (maxDepth k : nat) (cause : string) (tr : list Event)
    (Hk : 1 <= k <= maxDepth)
    (Hbefore : forall d, 1 <= d < k ->
                 fault B (QMultiHopImpact isOutputField identifier d) = None)
    (Hfails : fault B (QMultiHopImpact isOutputField identifier k)
              = Some (Refused cause)) :
  ImpactAnalysis.analyzeMultiHopImpact B identifier isOutputField maxDepth tr
  = (Throw (QueryError cause (QMultiHopImpact isOutputField identifier k)),
     tr ++ map (fun d => Sent (QMultiHopImpact isOutputField identifier d)) (seq 1 k)).
Proof.
  unfold ImpactAnalysis.analyzeMultiHopImpact.
  rewrite (multiHopLoop_first_failure B identifier isOutputField k cause Hfails
             maxDepth 1 [] tr) by (try lia; exact Hbefore).
  replace (S k - 1) with k by lia. reflexivity.
Qed.

Lemma multiHop_aborts_at_first_failure_witness :
  let B := refusing cyclic
             (fun c => match c with QMultiHopImpact _ _ 2 => true | _ => false end)
             "timeout" in
  1 <= 2 <= 3
  /\ (forall d, 1 <= d < 2 -> fault B (QMultiHopImpact false "A" d) = None)
  /\ fault B (QMultiHopImpact false "A" 2) = Some (Refused "timeout")
  /\ ImpactAnalysis.analyzeMultiHopImpact B "A" false 3 []
     = (Throw (QueryError "timeout" (QMultiHopImpact false "A" 2)),
        [] ++ map (fun d => Sent (QMultiHopImpact false "A" d)) (seq 1 2)).
Proof.
  intros B.
  assert (Hk : 1 <= 2 <= 3) by lia.
  assert (Hb : forall d, 1 <= d < 2 -> fault B (QMultiHopImpact false "A" d) = None).
  { intros d Hd. assert (d = 1) as -> by lia. reflexivity. }
  assert (Hf : fault B (QMultiHopImpact false "A" 2) = Some (Refused "timeout"))
    by reflexivity.
  split; [exact Hk|]. split; [exact Hb|]. split; [exact Hf|].
  exact (multiHop_aborts_at_first_failure B "A" false 3 2 "timeout" [] Hk Hb Hf).
Defined.

(** ** Counters and sets *)

Lemma getCount_bump_same (key : string) (counts : list (string * nat)) :
  getCount key (bump key counts)
  = Some (match getCount key counts with Some n => n + 1 | None => 1 end).
Proof.
  induction counts as [|[k n] rest IH]; simpl.
  - now rewrite String.eqb_refl.
  - destruct (String.eqb k key) eqn:E; simpl; rewrite E; auto.
Qed.

Lemma getCount_bump_other (key key' : string) (counts : list (string * nat)) :
  key' <> key -> getCount key' (bump key counts) = getCount key' counts.
Proof.
  intros Hne. induction counts as [|[k n] rest IH]; simpl.
  - destruct (String.eqb key key') eqn:E; [|reflexivity].
    apply String.eqb_eq in E. congruence.
  - destruct (String.eqb k key) eqn:E; simpl.
    + apply String.eqb_eq in E. subst k.
      destruct (String.eqb key key') eqn:E'; [|reflexivity].
      apply String.eqb_eq in E'. congruence.
    + now rewrite IH.
Qed.

Lemma getCount_bumpAll (keys : list string) :
  forall counts key,
    getCount key (bumpAll keys counts)
    = match count_occ string_dec keys key, getCount key counts with
      | O, c => c
      | n, Some m => Some (m + n)
      | n, None => Some n
      end.
Proof.
  unfold bumpAll. induction keys as [|k keys IH]; intros counts key; simpl.
  - now destruct (getCount key counts).
  - rewrite IH. destruct (string_dec k key) as [->|Hne].
    + rewrite getCount_bump_same.
      destruct (count_occ string_dec keys key), (getCount key counts);
        f_equal; lia.
    + rewrite getCount_bump_other by congruence. reflexivity.
Qed.

Lemma bump_total (key : string) (counts : list (string * nat)) :
  fold_right Nat.add 0 (map snd (bump key counts))
  = S (fold_right Nat.add 0 (map snd counts)).
Proof.
  induction counts as [|[k n] rest IH]; simpl; [reflexivity|].
  destruct (String.eqb k key); simpl; [lia|]. rewrite IH. lia.
Qed.

Lemma bumpAll_total (keys : list string) :
  forall counts,
    fold_right Nat.add 0 (map snd (bumpAll keys counts))
    = List.length keys + fold_right Nat.add 0 (map snd counts).
Proof.
  unfold bumpAll. induction keys as [|k keys IH]; intros counts; simpl; [reflexivity|].
  rewrite IH, bump_total. lia.
Qed.

Lemma bump_keys (key : string) (counts : list (string * nat)) :
  NoDup (map fst counts) -> NoDup (map fst (bump key counts))
  /\ forall k, In k (map fst (bump key counts)) <-> k = key \/ In k (map fst counts).
Proof.
  induction counts as [|[k n] rest IH]; simpl; intros Hnd.
  - split; [repeat constructor; auto | intuition].
  - inversion Hnd; subst. destruct (String.eqb k key) eqn:E; simpl.
    + apply String.eqb_eq in E. subst k. split; [assumption | intuition].
    + destruct (IH H2) as [IHn IHk]. split.
      * constructor; [|assumption]. rewrite IHk. intros [->|Hin]; [|contradiction].
        rewrite String.eqb_refl in E. discriminate.
      * intros k'. rewrite IHk. intuition.
Qed.

Lemma bumpAll_keys (keys : list string) :
  forall counts, NoDup (map fst counts) -> NoDup (map fst (bumpAll keys counts)).
Proof.
  unfold bumpAll. induction keys as [|k keys IH]; intros counts Hnd; simpl; [assumption|].
  apply IH. now apply bump_keys.
Qed.

(** Counting over the rows of a result is counting over all their keys. *)
Lemma fold_bumpAll {A} (keysOf : A -> list string) (rows : list A) :
  forall counts,
    fold_left (fun acc row => bumpAll (keysOf row) acc) rows counts
    = bumpAll (flat_map keysOf rows) counts.
Proof.
  induction rows as [|r rows IH]; intros counts; simpl; [reflexivity|].
  rewrite IH. unfold bumpAll. now rewrite fold_left_app.
Qed.

Lemma setAdd_spec (x : string) (s : list string) :
  NoDup s ->
  NoDup (setAdd x s) /\ forall y, In y (setAdd x s) <-> y = x \/ In y s.
Proof.
  intros Hnd. unfold setAdd. destruct (existsb (String.eqb x) s) eqn:E.
  - split; [assumption|]. intros y. split; [auto|]. intros [->|H]; [|assumption].
    apply existsb_exists in E. destruct E as [z [Hz Ez]].
    apply String.eqb_eq in Ez. now subst.
  - split.
    + apply NoDup_app; [assumption | repeat constructor; auto |].
      intros y Hy [Ey|[]]. subst y.
      assert (existsb (String.eqb x) s = true); [|congruence].
      apply existsb_exists. exists x. split; [assumption | apply String.eqb_refl].
    + intros y. rewrite in_app_iff. simpl. intuition.
Qed.

Lemma newSet_spec (xs : list string) :
  NoDup (newSet xs) /\ (forall y, In y (newSet xs) <-> In y xs)
  /\ List.length (newSet xs) = List.length (nodup string_dec xs).
Proof.
  unfold newSet.
  assert (G : forall xs s, NoDup s ->
            NoDup (fold_left (fun s x => setAdd x s) xs s)
            /\ forall y, In y (fold_left (fun s x => setAdd x s) xs s) <-> In y s \/ In y xs).
  { clear. induction xs as [|x xs IH]; intros s Hs; simpl.
    - split; [assumption | intuition].
    - destruct (setAdd_spec x s Hs) as [Hn Hi].
      destruct (IH _ Hn) as [Hn' Hi']. split; [assumption|].
      intros y. rewrite Hi', Hi. intuition. }
  destruct (G xs [] (NoDup_nil _)) as [Hn Hi].
  split; [assumption|]. split; [intros y; rewrite Hi; simpl; intuition|].
  apply Nat.le_antisymm; apply NoDup_incl_length;
    try assumption; try apply NoDup_nodup;
    intros y Hy; [apply nodup_In; apply Hi in Hy; simpl in Hy; intuition
                 | apply Hi; right; now apply nodup_In in Hy].
Qed.

(** ** The summary of an impact analysis *)

Lemma max_bounds (l : list nat) :
  (forall x, In x l -> x <= fold_right Nat.max 0 l)
  /\ (l <> [] -> In (fold_right Nat.max 0 l) l).
Proof.
  induction l as [|a l [IHb IHa]]; simpl.
  - split; [intros x [] | congruence].
  - split.
    + intros x [<-|Hx]; [lia|]. specialize (IHb x Hx). lia.
    + intros _. destruct l as [|b l].
      * left. simpl. lia.
      * destruct (Nat.max_spec a (fold_right Nat.max 0 (b :: l))) as [[_ E]|[_ E]];
          rewrite E; [right; apply IHa; discriminate | now left].
Qed.

(** X5: in the summary of a result, maxDepth bounds the depth of every row
    and is reached by one when there is any; the critical paths are at most
    ten rows of the result, all of depth maxDepth, and there is one unless
    the result is empty; the number of affected units counts each name
    once. *)
Theorem impact_summary_depth_and_critical_paths (results : list ImpactResult) :
  let s := ImpactReport.generateSummary results in
  (forall r, In r results -> impactDepth r <= ImpactReport.maxDepth s)
  /\ List.length (ImpactReport.criticalPaths s) <= 10
  /\ (forall r, In r (ImpactReport.criticalPaths s) ->
                In r results /\ impactDepth r = ImpactReport.maxDepth s)
  /\ (ImpactReport.criticalPaths s = [] <-> results = [])
  /\ ImpactReport.totalAffectedBusinessFunctions s
     = List.length (nodup string_dec (map affectedBusinessFunction results))
  /\ ImpactReport.totalAffectedBusinessFunctions s <= List.length results.
Proof.
  cbn zeta. unfold ImpactReport.generateSummary.
  cbn [ImpactReport.maxDepth ImpactReport.criticalPaths
       ImpactReport.totalAffectedBusinessFunctions].
  set (m := fold_right Nat.max 0 (map impactDepth results)).
  destruct (max_bounds (map impactDepth results)) as [Hb Ha]. fold m in Hb, Ha.
  destruct (newSet_spec (map affectedBusinessFunction results)) as [Hnd [Hin Hlen]].
  split; [intros r Hr; apply Hb; now apply in_map|].
  split; [apply firstn_le_length|].
  split.
  { intros r Hr. apply firstn_In in Hr. apply filter_In in Hr.
    destruct Hr as [Hr E]. apply Nat.eqb_eq in E. auto. }
  split.
  { split.
    - intros E. destruct results as [|r0 results]; [reflexivity|]. exfalso.
      assert (Hm : In m (map impactDepth (r0 :: results))) by (apply Ha; discriminate).
      apply in_map_iff in Hm. destruct Hm as [r [Er Hr]].
      assert (Hf : In r (filter (fun r => impactDepth r =? m) (r0 :: results))).
      { apply filter_In. split; [assumption | now apply Nat.eqb_eq]. }
      destruct (filter (fun r => impactDepth r =? m) (r0 :: results)); [destruct Hf|].
      simpl in E. discriminate.
    - intros ->. reflexivity. }
  split; [exact Hlen|].
  rewrite <- (length_map affectedBusinessFunction results).
  apply NoDup_incl_length; [assumption|]. intros y Hy. now apply Hin.
Qed.

Lemma fieldImpactCounts_total (results : list ImpactResult) :
  fold_right Nat.add 0
    (map snd (ImpactReport.fieldImpactCounts (ImpactReport.generateSummary results)))
  = List.length (flat_map pathFields results).
Proof.
  unfold ImpactReport.generateSummary. cbn [ImpactReport.fieldImpactCounts].
  rewrite fold_bumpAll, bumpAll_total. simpl. lia.
Qed.

(** X6: when no path field bears a name that objects inherit, the field
    impact counts of a summary hold, for every field name, the number of
    times it occurs in the path fields of the rows (and no entry for a name
    that does not occur), one entry per name; together they add up to the
    number of path fields of the result. *)
Theorem impact_summary_counts_occurrences (results : list ImpactResult)
    (Hplain : forall r f, In r results -> In f (pathFields r) -> plainKey f = true) :
  let counts := ImpactReport.fieldImpactCounts (ImpactReport.generateSummary results) in
  (forall f,
      getCount f counts
      = match count_occ string_dec (flat_map pathFields results) f with
        | O => None
        | n => Some n
        end)
  /\ NoDup (map fst counts)
  /\ fold_right Nat.add 0 (map snd counts)
     = List.length (flat_map pathFields results).
Proof.
  cbn zeta. split; [|split; [|apply fieldImpactCounts_total]].
  - unfold ImpactReport.generateSummary. cbn [ImpactReport.fieldImpactCounts].
    rewrite fold_bumpAll. intros f. rewrite getCount_bumpAll. simpl.
    now destruct (count_occ string_dec (flat_map pathFields results) f).
  - unfold ImpactReport.generateSummary. cbn [ImpactReport.fieldImpactCounts].
    rewrite fold_bumpAll. apply bumpAll_keys. constructor.
Qed.

Lemma plain_by_computation {A} (keys : A -> list string) (l : list A) :
  forallb (fun x => forallb plainKey (keys x)) l = true ->
  forall x k, In x l -> In k (keys x) -> plainKey k = true.
Proof.
  intros H x k Hx Hk. rewrite forallb_forall in H.
  specialize (H x Hx). rewrite forallb_forall in H. auto.
Qed.

Lemma impact_summary_counts_occurrences_witness :
  exists results tr',
    ImpactAnalysis.analyzeImpact (healthy cyclic) "A" false 3 [] = (Ok results, tr')
    /\ (forall r f, In r results -> In f (pathFields r) -> plainKey f = true)
    /\ getCount "F1" (ImpactReport.fieldImpactCounts
                        (ImpactReport.generateSummary results))
       = Some (count_occ string_dec (flat_map pathFields results) "F1")
    /\ getCount "F9" (ImpactReport.fieldImpactCounts
                        (ImpactReport.generateSummary results)) = None.
Proof.
  do 2 eexists. split; [reflexivity|].
  match goal with
  | |- (forall r f, In r ?l -> _) /\ _ =>
      assert (Hplain : forall r f, In r l -> In f (pathFields r) -> plainKey f = true)
        by (apply plain_by_computation; reflexivity)
  end.
  split; [exact Hplain|].
  destruct (impact_summary_counts_occurrences _ Hplain) as [Hc _]. cbn zeta in Hc.
  split; [rewrite (Hc "F1") | rewrite (Hc "F9")]; reflexivity.
Defined.

Lemma flat_map_length_sum {A B} (f : A -> list B) (l : list A) :
  List.length (flat_map f l) = fold_right Nat.add 0 (map (fun x => List.length (f x)) l).
Proof.
  induction l as [|x l IH]; simpl; [reflexivity|]. now rewrite length_app, IH.
Qed.

(** X7: summarising what the impact analysis returned, with no path field
    named like an inherited property, the field impact counts add up to the
    sum of the depths of the rows, since each row lists one path field per
    level. *)
Theorem impact_counts_add_up_to_depths (B : Backend) (identifier : string)
    (isOutputField : bool) (depth : nat) (tr tr' : list Event)
    (results : list ImpactResult)
    (Hreturned :
       ImpactAnalysis.analyzeImpact B identifier isOutputField depth tr
       = (Ok results, tr'))
    (Hplain : forall r f, In r results -> In f (pathFields r) -> plainKey f = true) :
  fold_right Nat.add 0
    (map snd (ImpactReport.fieldImpactCounts (ImpactReport.generateSummary results)))
  = fold_right Nat.add 0 (map impactDepth results).
Proof.
  rewrite fieldImpactCounts_total, flat_map_length_sum. f_equal.
  apply map_ext_in. intros r Hr.
  exact (analyzeImpact_pathFields_length _ _ _ _ _ _ _ Hreturned r Hr).
Qed.

Lemma impact_counts_add_up_to_depths_witness :
  exists results tr',
    ImpactAnalysis.analyzeImpact (healthy cyclic) "A" false 3 [] = (Ok results, tr')
    /\ (forall r f, In r results -> In f (pathFields r) -> plainKey f = true)
    /\ fold_right Nat.add 0
         (map snd (ImpactReport.fieldImpactCounts (ImpactReport.generateSummary results)))
       = 9
    /\ fold_right Nat.add 0 (map impactDepth results) = 9.
Proof.
  do 2 eexists. split; [reflexivity|].
  match goal with
  | |- (forall r f, In r ?l -> _) /\ _ =>
      assert (Hplain : forall r f, In r l -> In f (pathFields r) -> plainKey f = true)
        by (apply plain_by_computation; reflexivity)
  end.
  split; [exact Hplain|].
  pose proof (impact_counts_add_up_to_depths (healthy cyclic) "A" false 3 [] _ _
                eq_refl Hplain) as H.
  split; [rewrite H|]; reflexivity.
Defined.

(** ** Sorting *)

Section StableSort.

Context {A : Type}.
Variable le : A -> A -> bool.
Hypothesis le_total : forall a b, le a b = true \/ le b a = true.
Hypothesis le_trans : forall a b c, le a b = true -> le b c = true -> le a c = true.

Lemma insertBy_sorted (x : A) (l : list A) :
  StronglySorted (fun a b => le a b = true) l ->
  StronglySorted (fun a b => le a b = true) (insertBy le x l).
Proof.
  induction l as [|y l IH]; simpl; intros Hs.
  - repeat constructor.
  - inversion Hs; subst. destruct (le x y) eqn:E.
    + constructor; [assumption|]. constructor; [assumption|].
      eapply Forall_impl; [|eassumption]. intros z Hz. eauto.
    + constructor; [auto|]. apply Forall_forall. intros z Hz.
      apply insertBy_In in Hz. destruct Hz as [->|Hz].
      * destruct (le_total x y); congruence.
      * rewrite Forall_forall in H2. auto.
Qed.

Lemma stableSort_sorted (l : list A) :
  StronglySorted (fun a b => le a b = true) (stableSort le l).
Proof.
  induction l as [|x l IH]; [constructor|].
  unfold stableSort in *. simpl. now apply insertBy_sorted.
Qed.

End StableSort.

Lemma insertBy_Permutation {A} (le : A -> A -> bool) (x : A) (l : list A) :
  Permutation (insertBy le x l) (x :: l).
Proof.
  induction l as [|y l IH]; simpl; [reflexivity|].
  destruct (le x y); [reflexivity|].
  rewrite IH. apply perm_swap.
Qed.

Lemma stableSort_Permutation {A} (le : A -> A -> bool) (l : list A) :
  Permutation (stableSort le l) l.
Proof.
  induction l as [|x l IH]; [reflexivity|].
  unfold stableSort in *. simpl. rewrite insertBy_Permutation. now constructor.
Qed.

Lemma firstn_StronglySorted {A} (R : A -> A -> Prop) (n : nat) (l : list A) :
  StronglySorted R l -> StronglySorted R (firstn n l).
Proof.
  revert l; induction n as [|n IH]; intros [|x l] Hs; simpl; try constructor.
  - inversion Hs; subst. auto.
  - inversion Hs; subst. apply Forall_forall. intros y Hy.
    apply firstn_In in Hy. rewrite Forall_forall in H2. auto.
Qed.

Lemma StronglySorted_map {A B} (f : A -> B) (R : B -> B -> Prop) (l : list A) :
  StronglySorted (fun a b => R (f a) (f b)) l -> StronglySorted R (map f l).
Proof.
  induction 1; simpl; constructor; auto.
  apply Forall_forall. intros y Hy. apply in_map_iff in Hy.
  destruct Hy as [z [<- Hz]]. rewrite Forall_forall in H0. auto.
Qed.

Lemma StronglySorted_weaken {A} (R R' : A -> A -> Prop) (l : list A) :
  (forall a b, R a b -> R' a b) -> StronglySorted R l -> StronglySorted R' l.
Proof.
  intros Himp. induction 1; constructor; auto.
  eapply Forall_impl; [|eassumption]. auto.
Qed.

Lemma orderAsc_sorted {A} (key : A -> nat) (l : list A) :
  StronglySorted le (map key (orderAsc key l)).
Proof.
  apply StronglySorted_map. unfold orderAsc.
  eapply StronglySorted_weaken; [|apply stableSort_sorted].
  - intros a b H. now apply Nat.leb_le in H.
  - intros a b. rewrite !Nat.leb_le. lia.
  - intros a b c. rewrite !Nat.leb_le. lia.
Qed.

Lemma orderDesc_sorted {A} (key : A -> nat) (l : list A) :
  StronglySorted ge (map key (orderDesc key l)).
Proof.
  apply StronglySorted_map. unfold orderDesc.
  eapply StronglySorted_weaken; [|apply stableSort_sorted].
  - intros a b H. apply Nat.leb_le in H. exact H.
  - intros a b. rewrite !Nat.leb_le. lia.
  - intros a b c. rewrite !Nat.leb_le. lia.
Qed.

Lemma firstn_all_if_short {A} (n : nat) (l : list A) :
  List.length (firstn n l) < n -> firstn n l = l.
Proof.
  intros H. apply firstn_all2. rewrite length_firstn in H. lia.
Qed.

(** ** Dependency paths: bounds, order, endpoints *)

Lemma dependencyTrails_length (g : Graph) (maxDepth s t : nat)
    (p : list (nat * nat)) :
  In p (dependencyTrails g maxDepth s t) ->
  1 <= List.length p <= maxDepth * 2 /\ isWalk g s p /\ pathEnd s p = t.
Proof.
  unfold dependencyTrails. intros H. apply filter_In in H. destruct H as [H _].
  apply trailsFrom_sound in H. tauto.
Qed.

Lemma pathRow_length_bound (g : Graph) (maxDepth s t : nat)
    (p : list (nat * nat)) :
  In p (dependencyTrails g maxDepth s t) ->
  rowPathLength (pathRow g s p) <= maxDepth.
Proof.
  intros H. apply dependencyTrails_length in H. destruct H as [[_ H] _].
  unfold pathRow. cbn [rowPathLength].
  apply Nat.Div0.div_le_upper_bound. lia.
Qed.

Lemma Forall_firstn {A} (P : A -> Prop) (n : nat) (l : list A) :
  Forall P l -> Forall P (firstn n l).
Proof.
  intros H. apply Forall_forall. intros x Hx. apply firstn_In in Hx.
  rewrite Forall_forall in H. auto.
Qed.

(** What each strategy leaves of the order of the rows. *)
Lemma path_rows_order (g : Graph) (source target : string) (maxDepth limit : nat) :
  StronglySorted le (map rowPathLength (allPathRows g source target maxDepth limit))
  /\ StronglySorted ge (map rowPathLength (longestPathRows g source target maxDepth limit))
  /\ List.length (allPathRows g source target maxDepth limit) <= limit
  /\ List.length (longestPathRows g source target maxDepth limit) <= limit
  /\ (forall rows, shortestPathRows g source target maxDepth limit = inr rows ->
                   List.length rows <= limit).
Proof.
  unfold allPathRows, longestPathRows, shortestPathRows.
  repeat split; try apply firstn_le_length.
  - rewrite <- firstn_map. apply firstn_StronglySorted, orderAsc_sorted.
  - rewrite <- firstn_map. apply firstn_StronglySorted, orderDesc_sorted.
  - intros rows. destruct (existsb _ _); [discriminate|].
    intros H. inversion H. apply firstn_le_length.
Qed.

Lemma toPath_pathLength (rows : list PathRow) :
  map DependencyPath.pathLength (map DependencyPath.toPath rows)
  = map rowPathLength rows.
Proof. rewrite map_map. reflexivity. Qed.

(** X8: whatever the strategy, findDependencyPaths returns at most [limit]
    paths, none longer than maxDepth; under "all" they come in ascending
    order of length and under "longest" in descending order. *)
Theorem returned_paths_are_bounded_and_ordered (B : Backend)
    (source target : string) (maxDepth : nat) (pathType : string)
    (limit : nat) (tr tr' : list Event)
    (paths : list DependencyPath.DependencyPath)
    (Hreturned :
       DependencyPath.findDependencyPaths B source target maxDepth pathType limit tr
       = (Ok paths, tr')) :
  List.length paths <= limit
  /\ (forall P, In P paths -> DependencyPath.pathLength P <= maxDepth)
  /\ (pathType = "all" ->
      StronglySorted le (map DependencyPath.pathLength paths))
  /\ (pathType = "longest" ->
      StronglySorted ge (map DependencyPath.pathLength paths)).
Proof.
  destruct (path_rows_order (graph B) source target maxDepth limit)
    as [Hasc [Hdesc [Hla [Hll Hls]]]].
  split; [|split].
  - destruct (findDependencyPaths_rows _ _ _ _ _ _ _ _ _ Hreturned)
      as [[_ [rows [E ->]]]|[[_ ->]|[_ ->]]]; rewrite length_map; auto.
  - intros P HP.
    assert (Hrow : exists row,
               P = DependencyPath.toPath row
               /\ ((exists rows, shortestPathRows (graph B) source target maxDepth limit
                                 = inr rows /\ In row rows)
                   \/ In row (allPathRows (graph B) source target maxDepth limit)
                   \/ In row (longestPathRows (graph B) source target maxDepth limit))).
    { destruct (findDependencyPaths_rows _ _ _ _ _ _ _ _ _ Hreturned)
        as [[_ [rows [E ->]]]|[[_ ->]|[_ ->]]];
        apply in_map_iff in HP; destruct HP as [row [<- Hrow]];
        exists row; split; eauto. }
    destruct Hrow as [row [-> Hrow]].
    apply path_rows_shape in Hrow. destruct Hrow as [s [t [steps [_ [Hin ->]]]]].
    unfold DependencyPath.toPath. cbn [DependencyPath.pathLength].
    eapply pathRow_length_bound; eauto.
  - split; intros ->;
      destruct (findDependencyPaths_rows _ _ _ _ _ _ _ _ _ Hreturned)
        as [[E _]|[[E Hp]|[E Hp]]]; try discriminate E;
      rewrite Hp, toPath_pathLength; assumption.
Qed.

Lemma returned_paths_are_bounded_and_ordered_witness :
  exists paths tr',
    DependencyPath.findDependencyPaths (healthy homonyms) "A" "T" 3 "longest" 5 []
    = (Ok paths, tr')
    /\ map DependencyPath.pathLength paths = [2; 1]
    /\ List.length paths <= 5
    /\ (forall P, In P paths -> DependencyPath.pathLength P <= 3).
Proof.
  do 2 eexists. split; [reflexivity|]. split; [reflexivity|].
  destruct (returned_paths_are_bounded_and_ordered
              (healthy homonyms) "A" "T" 3 "longest" 5 [] _ _ eq_refl)
    as [Hl [Hb _]].
  split; assumption.
Defined.

(** Every returned path renders a trail between a pair of endpoints. *)
Lemma returned_path_is_row (B : Backend) (source target : string)
    (maxDepth : nat) (pathType : string) (limit : nat) (tr tr' : list Event)
    (paths : list DependencyPath.DependencyPath) (P : DependencyPath.DependencyPath) :
  DependencyPath.findDependencyPaths B source target maxDepth pathType limit tr
  = (Ok paths, tr') ->
  In P paths ->
  exists s t steps,
    In (s, t) (endpoints (graph B) source target)
    /\ In steps (dependencyTrails (graph B) maxDepth s t)
    /\ P = DependencyPath.toPath (pathRow (graph B) s steps).
Proof.
  intros Hreturned HP.
  assert (Hrow : exists row,
             P = DependencyPath.toPath row
             /\ ((exists rows, shortestPathRows (graph B) source target maxDepth limit
                               = inr rows /\ In row rows)
                 \/ In row (allPathRows (graph B) source target maxDepth limit)
                 \/ In row (longestPathRows (graph B) source target maxDepth limit))).
  { destruct (findDependencyPaths_rows _ _ _ _ _ _ _ _ _ Hreturned)
      as [[_ [rows [E ->]]]|[[_ ->]|[_ ->]]];
      apply in_map_iff in HP; destruct HP as [row [<- Hrow]];
      exists row; split; eauto. }
  destruct Hrow as [row [-> Hrow]].
  apply path_rows_shape in Hrow. destruct Hrow as [s [t [steps [Hst [Hin ->]]]]].
  eauto 6.
Qed.

Lemma endpoints_named (g : Graph) (source target : string) (s t : nat) :
  In (s, t) (endpoints g source target) ->
  nodeName g s = source /\ nodeName g t = target.
Proof.
  unfold endpoints, matchNamed. intros H.
  apply in_flat_map in H. destruct H as [s' [Hs H]].
  apply in_map_iff in H. destruct H as [t' [E Ht]]. inversion E; subst.
  apply filter_In in Hs. apply filter_In in Ht.
  destruct Hs as [_ Hs], Ht as [_ Ht].
  apply String.eqb_eq in Hs. apply String.eqb_eq in Ht. auto.
Qed.

Lemma filter_last {A} (p : A -> bool) (l : list A) (d : A) :
  l <> [] -> p (last l d) = true -> last (filter p l) d = last l d.
Proof.
  induction l as [|x l IH]; [congruence|]. intros _ Hp.
  destruct l as [|y l].
  - simpl in *. now rewrite Hp.
  - assert (Hl : last (x :: y :: l) d = last (y :: l) d) by reflexivity.
    rewrite Hl in *. specialize (IH ltac:(discriminate) Hp).
    cbn [filter]. cbn [filter] in IH.
    destruct (p x); [|exact IH].
    destruct (p y) eqn:Ey.
    + exact IH.
    + destruct (filter p l) eqn:Ef; [|exact IH].
      (* the last element passes [p], so the filtered tail is not empty *)
      exfalso. clear IH Hl.
      assert (Hin : In (last (y :: l) d) (filter p (y :: l))).
      { apply filter_In. split; [|assumption].
        destruct (exists_last (l := y :: l) ltac:(discriminate)) as [l' [z E]].
        rewrite E, last_last. apply in_or_app. right. now left. }
      cbn [filter] in Hin. rewrite Ey, Ef in Hin. destruct Hin.
Qed.

Lemma map_last {A B} (f : A -> B) (l : list A) (d : A) :
  last (map f l) (f d) = f (last l d).
Proof.
  induction l as [|x l IH]; [reflexivity|].
  destruct l; [reflexivity|]. exact IH.
Qed.

Lemma pathRow_ends (g : Graph) (s t : nat) (steps : list (nat * nat)) :
  hasLabel g LBusinessFunction s = true ->
  hasLabel g LBusinessFunction t = true ->
  pathEnd s steps = t ->
  rowSource (pathRow g s steps) = nodeName g s
  /\ rowTarget (pathRow g s steps) = nodeName g t.
Proof.
  intros Hs Ht He. unfold pathRow. cbn [rowSource rowTarget].
  split.
  - simpl. rewrite Hs. reflexivity.
  - unfold pathEnd in He.
    assert (Hlast : last (s :: map snd steps) s = t).
    { destruct (map snd steps) as [|x l] eqn:E; [exact He|].
      simpl in *. rewrite <- He. destruct l; [reflexivity|].
      apply last_default. discriminate. }
    assert (Hf : last (filter (hasLabel g LBusinessFunction) (s :: map snd steps)) s = t).
    { rewrite filter_last; [exact Hlast | discriminate | now rewrite Hlast]. }
    assert (Hne : filter (hasLabel g LBusinessFunction) (s :: map snd steps) <> []).
    { simpl. rewrite Hs. discriminate. }
    rewrite (last_default _ "" (nodeName g s)).
    + rewrite map_last, Hf. reflexivity.
    + destruct (filter _ _); [congruence | discriminate].
Qed.

(** X9: every path that findDependencyPaths returns runs between the units
    asked for: its first unit, reported as its source, carries the source
    name, and its last unit, reported as its target, the target name. *)
Theorem returned_paths_join_the_requested_units (B : Backend)
    (source target : string) (maxDepth : nat) (pathType : string)
    (limit : nat) (tr tr' : list Event)
    (paths : list DependencyPath.DependencyPath)
    (Hreturned :
       DependencyPath.findDependencyPaths B source target maxDepth pathType limit tr
       = (Ok paths, tr')) :
  forall P, In P paths ->
    DependencyPath.sourceBusinessFunction P = source
    /\ DependencyPath.targetBusinessFunction P = target
    /\ hd "" (DependencyPath.businessFunctions P) = source
    /\ last (DependencyPath.businessFunctions P) "" = target.
Proof.
  intros P HP.
  destruct (returned_path_is_row _ _ _ _ _ _ _ _ _ P Hreturned HP)
    as [s [t [steps [Hst [Hin ->]]]]].
  destruct (endpoints_labelled _ _ _ _ _ Hst) as [Hs Ht].
  destruct (endpoints_named _ _ _ _ _ Hst) as [Ns Nt].
  apply dependencyTrails_length in Hin. destruct Hin as [_ [_ He]].
  destruct (pathRow_ends (graph B) s t steps Hs Ht He) as [Es Et].
  unfold DependencyPath.toPath.
  cbn [DependencyPath.sourceBusinessFunction DependencyPath.targetBusinessFunction
       DependencyPath.businessFunctions].
  rewrite Es, Et, Ns, Nt. repeat split; try reflexivity.
  - rewrite <- Ns, <- Es. reflexivity.
  - rewrite <- Nt, <- Et. reflexivity.
Qed.

Lemma returned_paths_join_the_requested_units_witness :
  exists paths tr',
    DependencyPath.findDependencyPaths (healthy scenario) "A" "C" 3 "shortest" 10 []
    = (Ok paths, tr')
    /\ List.length paths = 1
    /\ forall P, In P paths ->
         DependencyPath.sourceBusinessFunction P = "A"
         /\ DependencyPath.targetBusinessFunction P = "C".
Proof.
  do 2 eexists. split; [reflexivity|]. split; [reflexivity|].
  intros P HP.
  destruct (returned_paths_join_the_requested_units
              (healthy scenario) "A" "C" 3 "shortest" 10 [] _ _ eq_refl P HP)
    as [Hs [Ht _]].
  split; assumption.
Defined.

Lemma filter_all {A} (p : A -> bool) (l : list A) :
  (forall x, In x l -> p x = true) -> filter p l = l.
Proof.
  induction l as [|x l IH]; simpl; intros H; [reflexivity|].
  rewrite (H x (or_introl eq_refl)), IH; auto.
Qed.

(** The length test of the "all" text removes nothing: the pattern already
    bounds the path. *)
Lemma all_and_longest_candidates (g : Graph) (source target : string)
    (maxDepth : nat) :
  flat_map (fun '(s, t) =>
              map (pathRow g s)
                  (filter (fun p => List.length p <=? maxDepth * 2)
                          (dependencyTrails g maxDepth s t)))
           (endpoints g source target)
  = flat_map (fun '(s, t) => map (pathRow g s) (dependencyTrails g maxDepth s t))
             (endpoints g source target).
Proof.
  apply flat_map_ext. intros [s t]. f_equal. apply filter_all.
  intros p Hp. apply dependencyTrails_length in Hp. apply Nat.leb_le. lia.
Qed.

(** X10: when neither answer reaches its limit, "longest" returns the same
    paths as "all", in another order. *)
Theorem longest_is_all_reordered (B : Backend) (source target : string)
    (maxDepth limit limit' : nat) (tr1 tr1' tr2 tr2' : list Event)
    (ps qs : list DependencyPath.DependencyPath)
    (Hall :
       DependencyPath.findDependencyPaths B source target maxDepth "all" limit tr1
       = (Ok ps, tr1'))
    (Hlongest :
       DependencyPath.findDependencyPaths B source target maxDepth "longest" limit' tr2
       = (Ok qs, tr2'))
    (Hroom : List.length ps < limit)
    (Hroom' : List.length qs < limit') :
  Permutation ps qs.
Proof.
  destruct (findDependencyPaths_rows _ _ _ _ _ _ _ _ _ Hall)
    as [[E _]|[[_ ->]|[E _]]]; try discriminate E.
  destruct (findDependencyPaths_rows _ _ _ _ _ _ _ _ _ Hlongest)
    as [[E _]|[[E _]|[_ ->]]]; try discriminate E.
  rewrite length_map in Hroom, Hroom'.
  apply Permutation_map.
  unfold allPathRows, longestPathRows in *.
  rewrite (firstn_all_if_short _ _ Hroom), (firstn_all_if_short _ _ Hroom').
  unfold orderAsc, orderDesc. rewrite !stableSort_Permutation.
  now rewrite all_and_longest_candidates.
Qed.

Lemma longest_is_all_reordered_witness :
  exists ps qs tr1 tr2,
    DependencyPath.findDependencyPaths (healthy homonyms) "A" "T" 3 "all" 5 []
    = (Ok ps, tr1)
    /\ DependencyPath.findDependencyPaths (healthy homonyms) "A" "T" 3 "longest" 5 []
       = (Ok qs, tr2)
    /\ List.length ps < 5 /\ List.length qs < 5
    /\ map DependencyPath.pathLength ps = [1; 2]
    /\ map DependencyPath.pathLength qs = [2; 1]
    /\ Permutation ps qs.
Proof.
  do 4 eexists. split; [reflexivity|]. split; [reflexivity|].
  assert (H1 : 2 < 5) by lia.
  split; [exact H1|]. split; [exact H1|].
  split; [reflexivity|]. split; [reflexivity|].
  exact (longest_is_all_reordered (healthy homonyms) "A" "T" 3 5 5 [] _ [] _ _ _
           eq_refl eq_refl H1 H1).
Defined.

(** X11: a path type other than shortest, all and longest is refused with
    "Unknown path type" before any query is sent. *)
Theorem unknown_path_type_is_rejected (B : Backend) (source target : string)
    (maxDepth : nat) (pathType : string) (limit : nat) (tr : list Event)
    (Hunknown : pathType <> "shortest" /\ pathType <> "all" /\ pathType <> "longest") :
  DependencyPath.findDependencyPaths B source target maxDepth pathType limit tr
  = (Throw (PlainError ("Unknown path type: " ++ pathType)%string), tr).
Proof.
  destruct Hunknown as [H1 [H2 H3]]. unfold DependencyPath.findDependencyPaths.
  apply String.eqb_neq in H1. apply String.eqb_neq in H2. apply String.eqb_neq in H3.
  rewrite H1, H2, H3. reflexivity.
Qed.

Lemma unknown_path_type_is_rejected_witness :
  ("Shortest" <> "shortest" /\ "Shortest" <> "all" /\ "Shortest" <> "longest")
  /\ DependencyPath.findDependencyPaths (healthy scenario) "A" "C" 3 "Shortest" 10 []
     = (Throw (PlainError "Unknown path type: Shortest"), []).
Proof.
  assert (H : "Shortest" <> "shortest" /\ "Shortest" <> "all" /\ "Shortest" <> "longest")
    by (repeat split; discriminate).
  split; [exact H|].
  exact (unknown_path_type_is_rejected (healthy scenario) "A" "C" 3 "Shortest" 10 [] H).
Defined.

(** ** Path descriptions *)

(** The labelled arrow through a field. *)
Lemma descriptionParts_interleave (units fields : list string) :
  List.length units <= List.length fields + 1 ->
  DependencyPath.descriptionParts units fields
  = interleave units (map (fun f => ("--[" ++ f ++ "]-->")%string)
                          (firstn (List.length units - 1) fields)).
Proof.
  revert fields. induction units as [|u units IH]; intros fields H; [reflexivity|].
  destruct units as [|u' units].
  - simpl. reflexivity.
  - destruct fields as [|f fields]; [simpl in H; lia|].
    change (DependencyPath.descriptionParts (u :: u' :: units) (f :: fields))
      with (u :: ("--[" ++ f ++ "]-->")%string
              :: DependencyPath.descriptionParts (u' :: units) fields).
    rewrite IH by (simpl in *; lia).
    cbn [List.length Nat.sub firstn map interleave].
    rewrite Nat.sub_0_r. reflexivity.
Qed.

Lemma interleave_length (units fields : list string) :
  List.length fields + 1 = List.length units ->
  List.length (interleave units fields) = 2 * List.length units - 1.
Proof.
  revert fields. induction units as [|u units IH]; intros fields H; simpl in *; [lia|].
  destruct fields as [|f fields].
  - destruct units; simpl in *; lia.
  - simpl. rewrite IH by (simpl in H; lia). simpl in H. lia.
Qed.

Lemma generatePathDescription_interleave (units fields : list string) :
  List.length units = List.length fields + 1 ->
  DependencyPath.generatePathDescription units fields
  = String.concat " " (interleave units
                         (map (fun f => ("--[" ++ f ++ "]-->")%string) fields)).
Proof.
  intros H. unfold DependencyPath.generatePathDescription.
  destruct units as [|u units]; [simpl in H; lia|].
  rewrite descriptionParts_interleave by lia.
  replace (List.length (u :: units) - 1) with (List.length fields) by lia.
  now rewrite firstn_all.
Qed.

(** X12: on a graph that follows the schema, the description of every
    returned path names its units in order with a labelled arrow through the
    connecting field between each two of them, and no bare arrow: it has
    2 * pathLength + 1 parts. *)
Theorem returned_descriptions_label_every_arrow (B : Backend)
    (source target : string) (maxDepth : nat) (pathType : string)
    (limit : nat) (tr tr' : list Event)
    (paths : list DependencyPath.DependencyPath)
    (Hschema : schemaOk (graph B) = true)
    (Hreturned :
       DependencyPath.findDependencyPaths B source target maxDepth pathType limit tr
       = (Ok paths, tr')) :
  forall P, In P paths ->
    let parts := interleave (DependencyPath.businessFunctions P)
                            (map (fun f => ("--[" ++ f ++ "]-->")%string)
                                 (DependencyPath.fields P)) in
    DependencyPath.pathDescription P = String.concat " " parts
    /\ List.length parts = 2 * DependencyPath.pathLength P + 1
    /\ 1 <= DependencyPath.pathLength P.
Proof.
  intros P HP.
  destruct (returned_path_is_row _ _ _ _ _ _ _ _ _ P Hreturned HP)
    as [s [t [steps [Hst [Hin ->]]]]].
  destruct (endpoints_labelled _ _ _ _ _ Hst) as [Hs Ht].
  destruct (pathRow_counts (graph B) Hschema s t steps maxDepth Hs Ht Hin)
    as [Hu [Hf [_ [Hl _]]]].
  pose proof (dependencyTrails_length _ _ _ _ _ Hin) as [[Hge _] _].
  cbn zeta in *. unfold DependencyPath.toPath.
  cbn [DependencyPath.pathDescription DependencyPath.businessFunctions
       DependencyPath.fields DependencyPath.pathLength].
  split; [|split].
  - apply generatePathDescription_interleave. lia.
  - rewrite interleave_length by (rewrite length_map; lia). lia.
  - lia.
Qed.

Lemma returned_descriptions_label_every_arrow_witness :
  schemaOk (graph (healthy scenario)) = true
  /\ exists paths tr',
       DependencyPath.findDependencyPaths (healthy scenario) "A" "C" 3 "all" 10 []
       = (Ok paths, tr')
       /\ map DependencyPath.pathDescription paths = ["A --[F1]--> B --[F2]--> C"]
       /\ forall P, In P paths -> 1 <= DependencyPath.pathLength P.
Proof.
  assert (Hschema : schemaOk (graph (healthy scenario)) = true) by reflexivity.
  split; [exact Hschema|].
  do 2 eexists. split; [reflexivity|]. split; [reflexivity|].
  intros P HP.
  exact (proj2 (proj2 (returned_descriptions_label_every_arrow
                         (healthy scenario) "A" "C" 3 "all" 10 [] _ _
                         Hschema eq_refl P HP))).
Defined.

(** ** The summary of a path analysis *)

Lemma fold_min_spec (rest : list DependencyPath.DependencyPath)
    (first : DependencyPath.DependencyPath) :
  let m := fold_left (fun min path =>
                        if DependencyPath.pathLength path <? DependencyPath.pathLength min
                        then path else min) rest first in
  In m (first :: rest)
  /\ (forall P, In P (first :: rest) ->
                DependencyPath.pathLength m <= DependencyPath.pathLength P)
  /\ ((forall P, In P rest ->
                 DependencyPath.pathLength first <= DependencyPath.pathLength P) ->
      m = first).
Proof.
  cbn zeta. revert first. induction rest as [|q rest IH]; intros first; simpl.
  - split; [auto|]. split; [intros P [<-|[]]; lia | reflexivity].
  - destruct (IH (if DependencyPath.pathLength q <? DependencyPath.pathLength first
                  then q else first)) as [Hin [Hmin Hfirst]].
    pose proof (Hmin _ (or_introl eq_refl)) as H0.
    destruct (DependencyPath.pathLength q <? DependencyPath.pathLength first) eqn:E;
      [apply Nat.ltb_lt in E | apply Nat.ltb_ge in E].
    + split; [simpl in Hin; tauto|]. split.
      * intros P [<-|[<-|HP]]; try lia. apply Hmin. now right.
      * intros H. specialize (H q (or_introl eq_refl)). lia.
    + split; [simpl in Hin; tauto|]. split.
      * intros P [<-|[<-|HP]]; try lia. apply Hmin. now right.
      * intros H. apply Hfirst. intros P HP. apply H. now right.
Qed.

Lemma fold_max_spec (rest : list DependencyPath.DependencyPath)
    (first : DependencyPath.DependencyPath) :
  let m := fold_left (fun max path =>
                        if DependencyPath.pathLength max <? DependencyPath.pathLength path
                        then path else max) rest first in
  In m (first :: rest)
  /\ (forall P, In P (first :: rest) ->
                DependencyPath.pathLength P <= DependencyPath.pathLength m)
  /\ ((forall P, In P rest ->
                 DependencyPath.pathLength P <= DependencyPath.pathLength first) ->
      m = first).
Proof.
  cbn zeta. revert first. induction rest as [|q rest IH]; intros first; simpl.
  - split; [auto|]. split; [intros P [<-|[]]; lia | reflexivity].
  - destruct (IH (if DependencyPath.pathLength first <? DependencyPath.pathLength q
                  then q else first)) as [Hin [Hmax Hfirst]].
    pose proof (Hmax _ (or_introl eq_refl)) as H0.
    destruct (DependencyPath.pathLength first <? DependencyPath.pathLength q) eqn:E;
      [apply Nat.ltb_lt in E | apply Nat.ltb_ge in E].
    + split; [simpl in Hin; tauto|]. split.
      * intros P [<-|[<-|HP]]; try lia. apply Hmax. now right.
      * intros H. specialize (H q (or_introl eq_refl)). lia.
    + split; [simpl in Hin; tauto|]. split.
      * intros P [<-|[<-|HP]]; try lia. apply Hmax. now right.
      * intros H. apply Hfirst. intros P HP. apply H. now right.
Qed.

Lemma fold_sum_bounds {A} (key : A -> nat) (l : list A) (lo hi : nat) :
  (forall x, In x l -> lo <= key x <= hi) ->
  forall acc,
    acc + lo * List.length l
    <= fold_left (fun sum x => sum + key x) l acc
    <= acc + hi * List.length l.
Proof.
  induction l as [|x l IH]; intros H acc; simpl; [lia|].
  specialize (IH (fun y Hy => H y (or_intror Hy)) (acc + key x)).
  pose proof (H x (or_introl eq_refl)). nia.
Qed.

Lemma average_between (sum len lo hi : nat) :
  1 <= len -> lo * len <= sum <= hi * len ->
  exists q, numDiv (ofNat sum) (ofNat len) = Finite q
            /\ (inject_Z (Z.of_nat lo) <= q)%Q /\ (q <= inject_Z (Z.of_nat hi))%Q.
Proof.
  intros Hlen [Hlo Hhi]. unfold numDiv, ofNat, signOf.
  replace (Qnum (inject_Z (Z.of_nat len)) ?= 0)%Z with Gt
    by (symmetry; simpl; apply Z.compare_gt_iff; lia).
  eexists. split; [reflexivity|].
  assert (Hpos : (0 < inject_Z (Z.of_nat len))%Q).
  { unfold Qlt. simpl. lia. }
  split.
  - apply Qle_shift_div_l; [exact Hpos|].
    rewrite <- inject_Z_mult, <- Zle_Qle, <- Nat2Z.inj_mul. lia.
  - apply Qle_shift_div_r; [exact Hpos|].
    rewrite <- inject_Z_mult, <- Zle_Qle, <- Nat2Z.inj_mul. lia.
Qed.

(** X13: for a non-empty list of paths the summary reports a shortest and a
    longest path taken from the list, no path of the list being shorter than
    the one or longer than the other, and an average length that is finite
    and lies between the two. *)
Theorem path_summary_extremes_and_average
    (paths : list DependencyPath.DependencyPath) (Hpaths : paths <> []) :
  let s := PathSummary.generateSummary paths in
  PathSummary.totalPaths s = List.length paths
  /\ exists shortest longest average,
       PathSummary.shortestPath s = Some shortest
       /\ PathSummary.longestPath s = Some longest
       /\ In shortest paths /\ In longest paths
       /\ (forall P, In P paths ->
             DependencyPath.pathLength shortest <= DependencyPath.pathLength P
             <= DependencyPath.pathLength longest)
       /\ PathSummary.averagePathLength s = Finite average
       /\ (inject_Z (Z.of_nat (DependencyPath.pathLength shortest)) <= average)%Q
       /\ (average <= inject_Z (Z.of_nat (DependencyPath.pathLength longest)))%Q.
Proof.
  destruct paths as [|first rest]; [congruence|]. cbn zeta.
  unfold PathSummary.generateSummary.
  cbn [PathSummary.totalPaths PathSummary.shortestPath PathSummary.longestPath
       PathSummary.averagePathLength].
  split; [reflexivity|].
  destruct (fold_min_spec rest first) as [Hin [Hmin _]].
  destruct (fold_max_spec rest first) as [Hin' [Hmax _]].
  cbn zeta in *.
  set (sp := fold_left _ rest first) in *.
  set (lp := fold_left (fun max path => if DependencyPath.pathLength max <? _ then _ else _)
                       rest first) in *.
  destruct (average_between
              (fold_left (fun sum path => sum + DependencyPath.pathLength path)
                         (first :: rest) 0)
              (List.length (first :: rest))
              (DependencyPath.pathLength sp) (DependencyPath.pathLength lp))
    as [q [Eq [Hlo Hhi]]].
  - simpl. lia.
  - apply (fold_sum_bounds DependencyPath.pathLength (first :: rest)
             (DependencyPath.pathLength sp) (DependencyPath.pathLength lp)
             (fun P HP => conj (Hmin P HP) (Hmax P HP)) 0).
  - exists sp, lp, q. repeat split; auto.
Qed.

Lemma path_summary_extremes_and_average_witness :
  exists paths tr',
    DependencyPath.findDependencyPaths (healthy homonyms) "A" "T" 3 "all" 10 []
    = (Ok paths, tr')
    /\ paths <> []
    /\ PathSummary.totalPaths (PathSummary.generateSummary paths) = 2
    /\ PathSummary.averagePathLength (PathSummary.generateSummary paths)
       = Finite (3 # 2).
Proof.
  do 2 eexists. split; [reflexivity|].
  match goal with |- ?l <> [] /\ _ => assert (Hne : l <> []) by discriminate end.
  split; [exact Hne|].
  pose proof (path_summary_extremes_and_average _ Hne) as [Ht _].
  split; [exact Ht | reflexivity].
Defined.

Lemma StronglySorted_le_head (l : list DependencyPath.DependencyPath) :
  StronglySorted le (map DependencyPath.pathLength l) ->
  match l with
  | [] => True
  | first :: rest =>
      forall P, In P rest ->
                DependencyPath.pathLength first <= DependencyPath.pathLength P
  end.
Proof.
  destruct l as [|first rest]; [trivial|]. simpl. intros H. inversion H; subst.
  intros P HP. rewrite Forall_forall in H3. apply H3. now apply in_map.
Qed.

Lemma StronglySorted_ge_head (l : list DependencyPath.DependencyPath) :
  StronglySorted ge (map DependencyPath.pathLength l) ->
  match l with
  | [] => True
  | first :: rest =>
      forall P, In P rest ->
                DependencyPath.pathLength P <= DependencyPath.pathLength first
  end.
Proof.
  destruct l as [|first rest]; [trivial|]. simpl. intros H. inversion H; subst.
  intros P HP. rewrite Forall_forall in H3. apply H3. now apply in_map.
Qed.

(** X14: the summary of an "all" answer reports the first path of the
    answer as the shortest, and the summary of a "longest" answer reports the
    first path of the answer as the longest; both report nothing for an empty
    answer. *)
Theorem summary_extreme_is_first_path (B : Backend) (source target : string)
    (maxDepth limit limit' : nat) (tr1 tr1' tr2 tr2' : list Event)
    (ps qs : list DependencyPath.DependencyPath)
    (Hall :
       DependencyPath.findDependencyPaths B source target maxDepth "all" limit tr1
       = (Ok ps, tr1'))
    (Hlongest :
       DependencyPath.findDependencyPaths B source target maxDepth "longest" limit' tr2
       = (Ok qs, tr2')) :
  PathSummary.shortestPath (PathSummary.generateSummary ps) = hd_error ps
  /\ PathSummary.longestPath (PathSummary.generateSummary qs) = hd_error qs.
Proof.
  split.
  - destruct (findDependencyPaths_rows _ _ _ _ _ _ _ _ _ Hall)
      as [[E _]|[[_ Hp]|[E _]]]; try discriminate E.
    pose proof (path_rows_order (graph B) source target maxDepth limit) as [Hs _].
    rewrite <- toPath_pathLength, <- Hp in Hs.
    apply StronglySorted_le_head in Hs.
    destruct ps as [|first rest]; [reflexivity|].
    unfold PathSummary.generateSummary. cbn [PathSummary.shortestPath hd_error].
    f_equal. now apply fold_min_spec.
  - destruct (findDependencyPaths_rows _ _ _ _ _ _ _ _ _ Hlongest)
      as [[E _]|[[E _]|[_ Hp]]]; try discriminate E.
    pose proof (path_rows_order (graph B) source target maxDepth limit') as [_ [Hs _]].
    rewrite <- toPath_pathLength, <- Hp in Hs.
    apply StronglySorted_ge_head in Hs.
    destruct qs as [|first rest]; [reflexivity|].
    unfold PathSummary.generateSummary. cbn [PathSummary.longestPath hd_error].
    f_equal. now apply fold_max_spec.
Qed.

Lemma summary_extreme_is_first_path_witness :
  exists ps qs tr1 tr2,
    DependencyPath.findDependencyPaths (healthy homonyms) "A" "T" 3 "all" 10 []
    = (Ok ps, tr1)
    /\ DependencyPath.findDependencyPaths (healthy homonyms) "A" "T" 3 "longest" 10 []
       = (Ok qs, tr2)
    /\ PathSummary.shortestPath (PathSummary.generateSummary ps) = hd_error ps
    /\ PathSummary.longestPath (PathSummary.generateSummary qs) = hd_error qs.
Proof.
  do 4 eexists. split; [reflexivity|]. split; [reflexivity|].
  exact (summary_extreme_is_first_path (healthy homonyms) "A" "T" 3 10 10
           [] _ [] _ _ _ eq_refl eq_refl).
Defined.

Lemma filter_partition_Permutation {A} (p : A -> bool) (l : list A) :
  Permutation (filter p l ++ filter (fun x => negb (p x)) l) l.
Proof.
  induction l as [|x l IH]; simpl; [reflexivity|].
  destruct (p x); simpl.
  - now constructor.
  - rewrite <- Permutation_middle. now constructor.
Qed.

(** [Object.entries] lists every own property once. *)
Lemma objectEntries_Permutation (counts : list (string * nat)) :
  Permutation (objectEntries counts) counts.
Proof.
  unfold objectEntries.
  rewrite (Permutation_map snd (stableSort_Permutation _ _)).
  rewrite <- (filter_partition_Permutation
                (fun e => match arrayIndex (fst e) with Some _ => true | None => false end)
                counts) at 3.
  apply Permutation_app.
  - apply Permutation_refl'.
    induction counts as [|e counts IH]; simpl; [reflexivity|].
    destruct (arrayIndex (fst e)); simpl; now rewrite IH.
  - apply Permutation_refl'. apply filter_ext. intros e.
    now destruct (arrayIndex (fst e)).
Qed.

Lemma getCount_In (counts : list (string * nat)) (k : string) (n : nat) :
  NoDup (map fst counts) -> In (k, n) counts -> getCount k counts = Some n.
Proof.
  induction counts as [|[k' n'] rest IH]; simpl; intros Hnd Hin; [destruct Hin|].
  inversion Hnd; subst. destruct Hin as [E|Hin].
  - inversion E; subst. now rewrite String.eqb_refl.
  - destruct (String.eqb k' k) eqn:E; [|auto].
    apply String.eqb_eq in E. subst k'. exfalso. apply H1.
    apply in_map_iff. exists (k, n). auto.
Qed.

Lemma NoDup_firstn {A} (n : nat) (l : list A) : NoDup l -> NoDup (firstn n l).
Proof.
  revert l; induction n as [|n IH]; intros [|x l] H; simpl; try constructor.
  - inversion H; subst. intros Hin. apply firstn_In in Hin. contradiction.
  - inversion H; subst. auto.
Qed.

Section FrequencyTable.

Variable E : Type.
Variable mk : string -> nat -> E.
Variable key : E -> string.
Variable freq : E -> nat.
Hypothesis key_mk : forall k n, key (mk k n) = k.
Hypothesis freq_mk : forall k n, freq (mk k n) = n.

(** The ten most frequent keys of a counter filled from [keys]. *)
Lemma frequency_table (keys : list string) :
  let table :=
    firstn 10
      (stableSort (fun a b => freq b <=? freq a)
         (map (fun e => mk (fst e) (snd e)) (objectEntries (bumpAll keys [])))) in
  List.length table <= 10
  /\ StronglySorted (fun a b => freq b <= freq a) table
  /\ NoDup (map key table)
  /\ forall e, In e table ->
       1 <= freq e /\ freq e = count_occ string_dec keys (key e).
Proof.
  cbn zeta. set (counts := bumpAll keys []).
  assert (Hnd : NoDup (map fst counts)) by (apply bumpAll_keys; constructor).
  set (entries := map (fun e => mk (fst e) (snd e)) (objectEntries counts)).
  assert (Hkeys : map key entries = map fst (objectEntries counts)).
  { unfold entries. rewrite map_map. apply map_ext. intros e. apply key_mk. }
  split; [apply firstn_le_length|]. split; [|split].
  - apply firstn_StronglySorted.
    eapply StronglySorted_weaken; [|apply stableSort_sorted].
    + intros a b H. now apply Nat.leb_le in H.
    + intros a b. rewrite !Nat.leb_le. lia.
    + intros a b c. rewrite !Nat.leb_le. lia.
  - rewrite <- firstn_map. apply NoDup_firstn.
    eapply Permutation_NoDup; [|exact Hnd].
    symmetry. rewrite (Permutation_map key (stableSort_Permutation _ _)), Hkeys.
    apply Permutation_map, objectEntries_Permutation.
  - intros e He. apply firstn_In in He. apply stableSort_In in He.
    apply in_map_iff in He. destruct He as [[k n] [<- Hin]].
    apply (Permutation_in _ (objectEntries_Permutation counts)) in Hin.
    apply (getCount_In _ _ _ Hnd) in Hin. unfold counts in Hin.
    rewrite getCount_bumpAll in Hin. simpl in Hin, Hin |- *.
    rewrite key_mk, freq_mk.
    destruct (count_occ string_dec keys k); inversion Hin; subst. lia.
Qed.

End FrequencyTable.

(** X15: when no field or unit of the paths bears a name that objects
    inherit, the two frequency tables of a path summary hold at most ten
    entries each, most frequent first, no name twice; the frequency of a field
    is the number of its occurrences in the fields of all paths, and the count
    of a unit the number of its occurrences strictly inside the paths (first
    and last position excluded). *)
Theorem path_summary_frequency_tables (paths : list DependencyPath.DependencyPath)
    (Hfields : forall P f, In P paths -> In f (DependencyPath.fields P) ->
                 plainKey f = true)
    (Hunits : forall P u, In P paths ->
                In u (PathSummary.intermediate (DependencyPath.businessFunctions P)) ->
                plainKey u = true) :
  let s := PathSummary.generateSummary paths in
  (List.length (PathSummary.commonIntermediateFields s) <= 10
   /\ StronglySorted (fun a b => PathSummary.frequency b <= PathSummary.frequency a)
                     (PathSummary.commonIntermediateFields s)
   /\ NoDup (map PathSummary.field (PathSummary.commonIntermediateFields s))
   /\ forall e, In e (PathSummary.commonIntermediateFields s) ->
        1 <= PathSummary.frequency e
        /\ PathSummary.frequency e
           = count_occ string_dec (flat_map DependencyPath.fields paths)
                       (PathSummary.field e))
  /\ (List.length (PathSummary.criticalBusinessFunctions s) <= 10
      /\ StronglySorted (fun a b => PathSummary.pathCount b <= PathSummary.pathCount a)
                        (PathSummary.criticalBusinessFunctions s)
      /\ NoDup (map PathSummary.businessFunction (PathSummary.criticalBusinessFunctions s))
      /\ forall e, In e (PathSummary.criticalBusinessFunctions s) ->
           1 <= PathSummary.pathCount e
           /\ PathSummary.pathCount e
              = count_occ string_dec
                  (flat_map (fun P => PathSummary.intermediate
                                        (DependencyPath.businessFunctions P)) paths)
                  (PathSummary.businessFunction e)).
Proof.
  cbn zeta. destruct paths as [|first rest].
  - simpl. repeat split; try constructor; try lia; intros e [].
  - unfold PathSummary.generateSummary.
    cbn [PathSummary.commonIntermediateFields PathSummary.criticalBusinessFunctions].
    rewrite !fold_bumpAll. split.
    + apply (frequency_table _ PathSummary.mkFieldFrequency PathSummary.field
               PathSummary.frequency); reflexivity.
    + apply (frequency_table _ PathSummary.mkUnitFrequency PathSummary.businessFunction
               PathSummary.pathCount); reflexivity.
Qed.

Lemma path_summary_frequency_tables_witness :
  exists paths tr',
    DependencyPath.findDependencyPaths (healthy scenario) "A" "C" 3 "all" 10 []
    = (Ok paths, tr')
    /\ (forall P f, In P paths -> In f (DependencyPath.fields P) -> plainKey f = true)
    /\ map PathSummary.businessFunction
         (PathSummary.criticalBusinessFunctions (PathSummary.generateSummary paths))
       = ["B"]
    /\ List.length (PathSummary.commonIntermediateFields
                      (PathSummary.generateSummary paths)) <= 10.
Proof.
  do 2 eexists. split; [reflexivity|].
  match goal with
  | |- (forall P f, In P ?l -> _) /\ _ =>
      assert (Hfields : forall P f, In P l -> In f (DependencyPath.fields P) ->
                          plainKey f = true)
        by (apply plain_by_computation; reflexivity);
      assert (Hunits : forall P u, In P l ->
                         In u (PathSummary.intermediate
                                 (DependencyPath.businessFunctions P)) ->
                         plainKey u = true)
        by (apply (plain_by_computation
                     (fun P => PathSummary.intermediate
                                 (DependencyPath.businessFunctions P)));
            reflexivity)
  end.
  split; [exact Hfields|]. split; [reflexivity|].
  exact (proj1 (proj1 (path_summary_frequency_tables _ Hfields Hunits))).
Defined.

(** ** The ranking of critical fields *)

Lemma numDiv_nat (c p : nat) :
  1 <= p ->
  numDiv (ofNat c) (ofNat p)
  = Finite (inject_Z (Z.of_nat c) / inject_Z (Z.of_nat p)).
Proof.
  intros Hp. unfold numDiv, ofNat, signOf.
  replace (Qnum (inject_Z (Z.of_nat p)) ?= 0)%Z with Gt; [reflexivity|].
  symmetry. simpl. apply Z.compare_gt_iff. lia.
Qed.

(** The rows the ranking text gives, before ORDER BY and LIMIT. *)
Lemma criticalFieldRows_shape (g : Graph) (minConsumers limit : nat) (k : SortKey)
    (r : FieldImpactData) :
  In r (criticalFieldRows g minConsumers limit k) ->
  1 <= producerCount r /\ minConsumers <= consumerCount r
  /\ totalConnections r = producerCount r + consumerCount r
  /\ impactRatio r = numDiv (ofNat (consumerCount r)) (ofNat (producerCount r)).
Proof.
  unfold criticalFieldRows. intros H. apply firstn_In in H.
  assert (H' : In r (map (fun '(f, (p, c)) =>
                            mkFieldImpact (nodeName g f) p c
                                          (numDiv (ofNat c) (ofNat p)) (p + c))
                         (filter (fun '(_, (p, c)) => (0 <? p) && (minConsumers <=? c))
                                 (fieldCounts g)))).
  { destruct k; unfold orderFieldsDesc, orderDesc in H;
      now apply stableSort_In in H. }
  apply in_map_iff in H'. destruct H' as [[f [p c]] [<- Hf]].
  apply filter_In in Hf. destruct Hf as [_ Hf].
  apply andb_true_iff in Hf. destruct Hf as [Hp Hc].
  apply Nat.ltb_lt in Hp. apply Nat.leb_le in Hc. simpl. auto.
Qed.

Lemma truthy_orElse_same (a : number) : orElse a a = a.
Proof. unfold orElse. now destruct (truthy a). Qed.

(** The two fallbacks of [analyzeCriticalFields] never change a row. *)
Lemma analyzeCriticalFields_ok (B : Backend) (minConsumers limit : nat)
    (sortBy : string) (tr tr' : list Event) (fields : list FieldImpactData) :
  CriticalFields.analyzeCriticalFields B minConsumers limit sortBy tr = (Ok fields, tr') ->
  fields = criticalFieldRows (graph B) minConsumers limit (getSortClause sortBy).
Proof.
  unfold CriticalFields.analyzeCriticalFields. run_io.
  destruct (fault B (QCriticalFields minConsumers limit (getSortClause sortBy)))
    as [[?|?]|]; cbn [evalCypher]; cbn beta iota; try discriminate.
  intros H. inversion H; subst; clear H.
  rewrite <- (map_id (criticalFieldRows _ _ _ _)) at 2.
  apply map_ext_in. intros r Hr.
  destruct (criticalFieldRows_shape _ _ _ _ _ Hr) as [Hp [_ [Ht Hi]]].
  destruct r as [nm p c ratio total]. simpl in *. subst.
  f_equal.
  - replace (Nat.max p 1) with p by lia. apply truthy_orElse_same.
  - unfold natOrElse. destruct (p + c =? 0); reflexivity.
Qed.

(** X16: every field of the ranking has at least one producer and at least
    minConsumers consumers; its total is the sum of the two counts and its
    ratio the quotient consumers / producers, a finite number; the ranking
    has at most [limit] fields. *)
Theorem ranked_fields_are_eligible (B : Backend) (minConsumers limit : nat)
    (sortBy : string) (tr tr' : list Event) (fields : list FieldImpactData)
    (Hreturned :
       CriticalFields.analyzeCriticalFields B minConsumers limit sortBy tr
       = (Ok fields, tr')) :
  List.length fields <= limit
  /\ forall f, In f fields ->
       1 <= producerCount f
       /\ minConsumers <= consumerCount f
       /\ totalConnections f = producerCount f + consumerCount f
       /\ impactRatio f
          = Finite (inject_Z (Z.of_nat (consumerCount f))
                    / inject_Z (Z.of_nat (producerCount f))).
Proof.
  apply analyzeCriticalFields_ok in Hreturned. subst fields. split.
  - unfold criticalFieldRows. apply firstn_le_length.
  - intros f Hf. destruct (criticalFieldRows_shape _ _ _ _ _ Hf) as [Hp [Hc [Ht Hi]]].
    repeat split; auto. rewrite Hi. now apply numDiv_nat.
Qed.

Lemma ranked_fields_are_eligible_witness :
  exists fields tr',
    CriticalFields.analyzeCriticalFields (healthy (fanOut 3)) 2 50 "ratio" []
    = (Ok fields, tr')
    /\ map consumerCount fields = [3]
    /\ List.length fields <= 50
    /\ forall f, In f fields -> 1 <= producerCount f /\ 2 <= consumerCount f.
Proof.
  do 2 eexists. split; [reflexivity|]. split; [reflexivity|].
  destruct (ranked_fields_are_eligible (healthy (fanOut 3)) 2 50 "ratio" [] _ _ eq_refl)
    as [Hl Hf].
  split; [exact Hl|]. intros f Hin. destruct (Hf f Hin) as [Hp [Hc _]].
  split; assumption.
Defined.

Section StableSortOn.

Context {A : Type}.
Variable le : A -> A -> bool.
Variable P : A -> Prop.
Hypothesis le_total : forall a b, P a -> P b -> le a b = true \/ le b a = true.
Hypothesis le_trans :
  forall a b c, P a -> P b -> P c -> le a b = true -> le b c = true -> le a c = true.

Lemma insertBy_sorted_on (x : A) (l : list A) :
  P x -> Forall P l ->
  StronglySorted (fun a b => le a b = true) l ->
  StronglySorted (fun a b => le a b = true) (insertBy le x l).
Proof.
  intros Px. induction l as [|y l IH]; simpl; intros HP Hs.
  - repeat constructor.
  - inversion Hs; subst. inversion HP; subst. destruct (le x y) eqn:E.
    + constructor; [assumption|]. constructor; [assumption|].
      apply Forall_forall. intros z Hz.
      rewrite Forall_forall in H2, H4. eauto.
    + constructor; [auto|]. apply Forall_forall. intros z Hz.
      apply insertBy_In in Hz. destruct Hz as [->|Hz].
      * destruct (le_total x y); congruence.
      * rewrite Forall_forall in H2. auto.
Qed.

Lemma stableSort_sorted_on (l : list A) :
  Forall P l -> StronglySorted (fun a b => le a b = true) (stableSort le l).
Proof.
  induction l as [|x l IH]; intros HP; [constructor|].
  inversion HP; subst. unfold stableSort in *. simpl.
  apply insertBy_sorted_on; auto.
  apply Forall_forall. intros y Hy. apply stableSort_In in Hy.
  rewrite Forall_forall in H2. auto.
Qed.

End StableSortOn.

Lemma numLeb_finite_total (a b : number) :
  (exists x, a = Finite x) -> (exists y, b = Finite y) ->
  numLeb b a = true \/ numLeb a b = true.
Proof.
  intros [x ->] [y ->]. simpl. rewrite !Qle_bool_iff.
  destruct (Qlt_le_dec x y) as [H|H]; [right; now apply Qlt_le_weak | now left].
Qed.

Lemma numLeb_finite_trans (a b c : number) :
  (exists x, a = Finite x) -> (exists y, b = Finite y) -> (exists z, c = Finite z) ->
  numLeb b a = true -> numLeb c b = true -> numLeb c a = true.
Proof.
  intros [x ->] [y ->] [z ->]. simpl. rewrite !Qle_bool_iff.
  intros H1 H2. eapply Qle_trans; eassumption.
Qed.

(** X17: the ranking comes in descending order of the chosen key: of the
    consumer count for "consumers" and for any key that is not recognised, of
    the producer count for "producers", of the ratio for "ratio". *)
Theorem ranking_is_sorted_by_the_chosen_key (B : Backend)
    (minConsumers limit : nat) (sortBy : string) (tr tr' : list Event)
    (fields : list FieldImpactData)
    (Hreturned :
       CriticalFields.analyzeCriticalFields B minConsumers limit sortBy tr
       = (Ok fields, tr')) :
  (sortBy = "producers" -> StronglySorted ge (map producerCount fields))
  /\ (sortBy = "ratio" ->
      StronglySorted (fun a b => numLeb (impactRatio b) (impactRatio a) = true) fields)
  /\ (sortBy <> "producers" -> sortBy <> "ratio" ->
      StronglySorted ge (map consumerCount fields)).
Proof.
  apply analyzeCriticalFields_ok in Hreturned. subst fields.
  unfold criticalFieldRows. split; [|split].
  - intros ->. change (getSortClause "producers") with ByProducers.
    cbn [orderFieldsDesc]. rewrite <- firstn_map.
    apply firstn_StronglySorted, orderDesc_sorted.
  - intros ->. change (getSortClause "ratio") with ByRatio.
    cbn [orderFieldsDesc]. apply firstn_StronglySorted.
    apply (stableSort_sorted_on _ (fun r => exists q, impactRatio r = Finite q)).
    + intros a b. apply numLeb_finite_total.
    + intros a b c. apply numLeb_finite_trans.
    + apply Forall_forall. intros r Hr.
      apply in_map_iff in Hr. destruct Hr as [[f [p c]] [<- Hf]].
      apply filter_In in Hf. destruct Hf as [_ Hf].
      apply andb_true_iff in Hf. destruct Hf as [Hp _].
      destruct p as [|p]; [discriminate|].
      cbn [impactRatio]. rewrite numDiv_nat by lia. eauto.
  - intros H1 H2.
    assert (E : getSortClause sortBy = ByConsumers).
    { unfold getSortClause. destruct (String.eqb sortBy "consumers"); [reflexivity|].
      apply String.eqb_neq in H1. apply String.eqb_neq in H2. now rewrite H1, H2. }
    rewrite E. cbn [orderFieldsDesc]. rewrite <- firstn_map.
    apply firstn_StronglySorted, orderDesc_sorted.
Qed.

Lemma ranking_is_sorted_by_the_chosen_key_witness :
  exists fields tr',
    CriticalFields.analyzeCriticalFields (healthy scenario) 1 50 "impact" []
    = (Ok fields, tr')
    /\ "impact" <> "producers" /\ "impact" <> "ratio"
    /\ List.length fields = 2
    /\ StronglySorted ge (map consumerCount fields).
Proof.
  do 2 eexists. split; [reflexivity|].
  assert (H1 : "impact" <> "producers") by discriminate.
  assert (H2 : "impact" <> "ratio") by discriminate.
  split; [exact H1|]. split; [exact H2|]. split; [reflexivity|].
  exact (proj2 (proj2 (ranking_is_sorted_by_the_chosen_key
                         (healthy scenario) 1 50 "impact" [] _ _ eq_refl)) H1 H2).
Defined.

Lemma filter_length_mono {A} (p q : A -> bool) (l : list A) :
  (forall x, p x = true -> q x = true) ->
  List.length (filter p l) <= List.length (filter q l).
Proof.
  intros H. induction l as [|x l IH]; simpl; [lia|].
  destruct (p x) eqn:E.
  - rewrite (H x E). simpl. lia.
  - destruct (q x); simpl; lia.
Qed.

Lemma criticalFieldRows_length (g : Graph) (minConsumers limit : nat) (k : SortKey) :
  List.length (criticalFieldRows g minConsumers limit k) <= limit
  /\ (1 <= minConsumers ->
      List.length (criticalFieldRows g minConsumers limit k)
      <= List.length (eligibleFields g)).
Proof.
  unfold criticalFieldRows. rewrite length_firstn. split; [lia|]. intros Hm.
  etransitivity; [apply Nat.le_min_r|].
  assert (E : forall l, List.length (orderFieldsDesc k l) = List.length l).
  { intros l. destruct k; apply stableSort_length. }
  rewrite E, length_map. unfold eligibleFields.
  apply filter_length_mono. intros [f [p c]] H.
  apply andb_true_iff in H. destruct H as [Hp Hc].
  rewrite Hp. cbn [andb]. apply Nat.leb_le in Hc. apply Nat.ltb_lt. lia.
Qed.

Lemma getFieldDistributionStats_ok (B : Backend) (tr tr' : list Event)
    (d : DistributionStats) :
  CriticalFields.getFieldDistributionStats B tr = (Ok d, tr') ->
  lowImpact d + mediumImpact d + highImpact d + criticalImpact d
  = List.length (eligibleFields (graph B)).
Proof.
  unfold CriticalFields.getFieldDistributionStats. run_io.
  destruct (fault B QFieldDistributionStats) as [[?|?]|];
    cbn [evalCypher]; cbn beta iota; try discriminate.
  unfold distributionStatsRows. cbn zeta. cbn beta iota.
  intros H. inversion H; subst; clear H.
  cbn [lowImpact mediumImpact highImpact criticalImpact].
  rewrite four_bands_partition. apply consumerCountColumn_length.
Qed.

Lemma summarize_ok (B : Backend) (minConsumers limit : nat) (sortBy : string)
    (tr tr' : list Event) (s : CriticalFields.CriticalFieldsSummary) :
  CriticalFields.summarize B minConsumers limit sortBy tr = (Ok s, tr') ->
  exists d,
    s = CriticalFields.generateSummary
          (criticalFieldRows (graph B) minConsumers limit (getSortClause sortBy)) d
    /\ lowImpact d + mediumImpact d + highImpact d + criticalImpact d
       = List.length (eligibleFields (graph B)).
Proof.
  unfold CriticalFields.summarize, bind.
  destruct (CriticalFields.analyzeCriticalFields B minConsumers limit sortBy tr)
    as [[fields|e] tr1] eqn:E1; [|discriminate].
  apply analyzeCriticalFields_ok in E1. subst fields.
  destruct (CriticalFields.getFieldDistributionStats B tr1)
    as [[d|e] tr2] eqn:E2; [|discriminate].
  apply getFieldDistributionStats_ok in E2.
  unfold ret. intros H. inversion H; subst; clear H. eauto.
Qed.

(** X18: in the summary of the critical fields the total is the number of
    ranked fields, so it is at most the limit; when the threshold on
    consumers is at least 1 it is also at most the sum of the four bands of
    the distribution, which counts every field with a producer and a
    consumer whatever the threshold and the limit are. *)
Theorem summary_total_is_within_limit_and_distribution (B : Backend)
    (minConsumers limit : nat) (sortBy : string) (tr tr' : list Event)
    (s : CriticalFields.CriticalFieldsSummary)
    (Hreturned : CriticalFields.summarize B minConsumers limit sortBy tr = (Ok s, tr')) :
  let d := CriticalFields.distributionStats s in
  CriticalFields.totalFields s <= limit
  /\ List.length (CriticalFields.highImpactFields s) <= 10
  /\ lowImpact d + mediumImpact d + highImpact d + criticalImpact d
     = List.length (eligibleFields (graph B))
  /\ (1 <= minConsumers ->
      CriticalFields.totalFields s
      <= lowImpact d + mediumImpact d + highImpact d + criticalImpact d).
Proof.
  apply summarize_ok in Hreturned. destruct Hreturned as [d [-> Hd]].
  cbn zeta. unfold CriticalFields.generateSummary.
  cbn [CriticalFields.totalFields CriticalFields.highImpactFields
       CriticalFields.distributionStats].
  destruct (criticalFieldRows_length (graph B) minConsumers limit (getSortClause sortBy))
    as [Hl He].
  split; [exact Hl|]. split; [rewrite length_firstn; lia|].
  split; [exact Hd|]. intros Hm. rewrite Hd. auto.
Qed.

Lemma summary_total_is_within_limit_and_distribution_witness :
  exists s tr',
    CriticalFields.summarize (healthy scenario) 1 1 "consumers" [] = (Ok s, tr')
    /\ CriticalFields.totalFields s = 1
    /\ lowImpact (CriticalFields.distributionStats s) = 2
    /\ CriticalFields.totalFields s <= 1.
Proof.
  do 2 eexists. split; [reflexivity|]. split; [reflexivity|]. split; [reflexivity|].
  exact (proj1 (summary_total_is_within_limit_and_distribution
                  (healthy scenario) 1 1 "consumers" [] _ _ eq_refl)).
Defined.

(** ** The summary of the ranking *)

Lemma numMax_ofNat (a b : nat) : numMax (ofNat a) (ofNat b) = ofNat (Nat.max a b).
Proof.
  unfold numMax, ofNat.
  destruct (Qle_bool (inject_Z (Z.of_nat a)) (inject_Z (Z.of_nat b))) eqn:E.
  - apply Qle_bool_iff in E. rewrite <- Zle_Qle in E.
    f_equal. f_equal. f_equal. lia.
  - assert (H : ~ (inject_Z (Z.of_nat a) <= inject_Z (Z.of_nat b))%Q).
    { intros H. apply Qle_bool_iff in H. congruence. }
    rewrite <- Zle_Qle in H. f_equal. f_equal. f_equal. lia.
Qed.

Lemma fold_numMax_ofNat (l : list nat) (a : nat) :
  fold_left numMax (map ofNat l) (ofNat a) = ofNat (fold_left Nat.max l a).
Proof.
  revert a. induction l as [|x l IH]; intros a; cbn [map fold_left]; [reflexivity|].
  rewrite numMax_ofNat. apply IH.
Qed.

Lemma fold_natmax_spec (l : list nat) (a : nat) :
  In (fold_left Nat.max l a) (a :: l)
  /\ forall x, In x (a :: l) -> x <= fold_left Nat.max l a.
Proof.
  revert a. induction l as [|y l IH]; intros a; simpl.
  - split; [auto|]. intros x [<-|[]]. lia.
  - destruct (IH (Nat.max a y)) as [Hin Hmax]. split.
    + destruct Hin as [E|Hin]; [|auto].
      rewrite <- E. destruct (Nat.max_spec a y) as [[_ ->]|[_ ->]]; auto.
    + intros x Hx. pose proof (Hmax _ (or_introl eq_refl)).
      destruct Hx as [<-|[<-|Hx]]; [lia|lia|]. apply Hmax. now right.
Qed.

Lemma mathMax_ofNat (a : nat) (l : list nat) :
  exists m, mathMax (map ofNat (a :: l)) = ofNat m
            /\ In m (a :: l) /\ forall x, In x (a :: l) -> x <= m.
Proof.
  exists (fold_left Nat.max l a). split.
  - unfold mathMax. cbn [map fold_left].
    change (numMax NegInfinity (ofNat a)) with (ofNat a).
    apply fold_numMax_ofNat.
  - apply fold_natmax_spec.
Qed.

(** X19: for a non-empty ranking the summary's maximum is the consumer count
    of one of the fields and no field has more, and the average is finite,
    at most that maximum and at least the threshold every field of the
    ranking meets. *)
Theorem ranking_summary_max_and_average (fields : list FieldImpactData)
    (d : DistributionStats) (minConsumers : nat)
    (Hfields : fields <> [])
    (Hmin : forall f, In f fields -> minConsumers <= consumerCount f) :
  let s := CriticalFields.generateSummary fields d in
  exists top average,
    In top fields
    /\ CriticalFields.maxConsumers s = ofNat (consumerCount top)
    /\ (forall f, In f fields -> consumerCount f <= consumerCount top)
    /\ CriticalFields.averageConsumers s = Finite average
    /\ (inject_Z (Z.of_nat minConsumers) <= average)%Q
    /\ (average <= inject_Z (Z.of_nat (consumerCount top)))%Q.
Proof.
  destruct fields as [|first rest]; [congruence|]. cbn zeta.
  unfold CriticalFields.generateSummary.
  cbn [CriticalFields.maxConsumers CriticalFields.averageConsumers].
  rewrite <- (map_map consumerCount ofNat).
  destruct (mathMax_ofNat (consumerCount first) (map consumerCount rest))
    as [m [Em [Hin Hmax]]].
  change (consumerCount first :: map consumerCount rest)
    with (map consumerCount (first :: rest)) in *.
  apply in_map_iff in Hin. destruct Hin as [top [Etop Htop]]. subst m.
  assert (Hle : forall f, In f (first :: rest) -> consumerCount f <= consumerCount top).
  { intros f Hf. apply Hmax. now apply in_map. }
  destruct (average_between
              (fold_left (fun sum f => sum + consumerCount f) (first :: rest) 0)
              (List.length (first :: rest)) minConsumers (consumerCount top))
    as [q [Eq [Hlo Hhi]]].
  - simpl. lia.
  - apply (fold_sum_bounds consumerCount (first :: rest) minConsumers (consumerCount top)
             (fun f Hf => conj (Hmin f Hf) (Hle f Hf)) 0).
  - exists top, q. repeat split; auto.
Qed.

Lemma ranking_summary_max_and_average_witness :
  exists fields tr',
    CriticalFields.analyzeCriticalFields (healthy scenario) 1 50 "consumers" []
    = (Ok fields, tr')
    /\ fields <> []
    /\ CriticalFields.maxConsumers
         (CriticalFields.generateSummary fields (mkDistributionStats 2 0 0 0))
       = ofNat 1
    /\ exists top average,
         In top fields
         /\ CriticalFields.averageConsumers
              (CriticalFields.generateSummary fields (mkDistributionStats 2 0 0 0))
            = Finite average
         /\ (1 <= average)%Q.
Proof.
  do 2 eexists. split; [reflexivity|].
  match goal with |- ?l <> [] /\ _ => assert (Hne : l <> []) by discriminate end.
  split; [exact Hne|]. split; [reflexivity|].
  destruct (ranking_summary_max_and_average _ (mkDistributionStats 2 0 0 0) 1 Hne)
    as [top [average [Htop [_ [_ [Eavg [Hlo _]]]]]]].
  - intros f [<-|[<-|[]]]; simpl; lia.
  - exists top, average. auto.
Defined.

(** ** The report as a whole *)










(** X21: when the store fails every query, the report is still returned as
    an ordinary result: all counts zero, no component, no band, no ranked
    field, and a fragility of LOW with the five fixed actions. *)
Theorem report_of_a_failing_store_says_low (B : Backend)
    (options : ImpactSummary.ImpactSummaryOptions) (tr : list Event)
    (Hdown : forall c, fault B c <> None) :
  exists tr',
    ImpactSummary.generateReport B options tr
    = (Ok {| ImpactSummary.systemStats := ImpactSummary.fallbackSystemStats;
             ImpactSummary.connectivityStats := ImpactSummary.emptyConnectivityStats;
             ImpactSummary.fieldDistribution := ImpactSummary.emptyFieldDistribution;
             ImpactSummary.riskAssessment :=
               {| ImpactSummary.criticalFields := [];
                  ImpactSummary.systemFragility := "LOW";
                  ImpactSummary.recommendedActions := ImpactSummary.baseActions |} |},
       tr').
Proof.
  unfold ImpactSummary.generateReport, ImpactSummary.getSystemStats,
    ImpactSummary.getConnectivityStats, ImpactSummary.getFieldDistribution.
  run_io.
  pose proof (Hdown QCountBusinessFunctions) as H1.
  pose proof (Hdown QHighlyConnected) as H2.
  pose proof (Hdown (QTopConsumers (ImpactSummary.topCount options))) as H3.
  destruct (fault B QCountBusinessFunctions) as [[?|?]|]; [| |congruence];
    destruct (ImpactSummary.notFalse (ImpactSummary.includeConnectivity options));
    destruct (ImpactSummary.notFalse (ImpactSummary.includeDistribution options)
              && ImpactSummary.notFalse (ImpactSummary.includeTopFields options));
    cbn;
    destruct (fault B QHighlyConnected) as [[?|?]|]; try congruence;
    destruct (fault B (QTopConsumers _)) as [[?|?]|]; try congruence;
    cbn; eexists; reflexivity.
Qed.

Lemma report_of_a_failing_store_says_low_witness :
  (forall c, fault (unreachable scenario "ECONNREFUSED") c <> None)
  /\ exists report tr',
       ImpactSummary.generateReport (unreachable scenario "ECONNREFUSED")
                                    ImpactSummary.defaultOptions [] = (Ok report, tr')
       /\ ImpactSummary.systemFragility (ImpactSummary.riskAssessment report) = "LOW"
       /\ List.length (filter isConsoleError tr') = 3.
Proof.
  assert (Hdown : forall c, fault (unreachable scenario "ECONNREFUSED") c <> None)
    by (intros c; discriminate).
  split; [exact Hdown|].
  destruct (report_of_a_failing_store_says_low
              (unreachable scenario "ECONNREFUSED") ImpactSummary.defaultOptions []
              Hdown) as [tr' E].
  do 2 eexists. split; [exact E|]. split; [reflexivity|].
  vm_compute in E. inversion E. reflexivity.
Defined.

(** ** The two rankings of the report *)

Lemma StronglySorted_app_cross {A} (R : A -> A -> Prop) (l1 l2 : list A) :
  StronglySorted R (l1 ++ l2) ->
  forall a b, In a l1 -> In b l2 -> R a b.
Proof.
  induction l1 as [|x l1 IH]; simpl; intros Hs a b Ha Hb; [destruct Ha|].
  inversion Hs; subst. destruct Ha as [<-|Ha].
  - rewrite Forall_forall in H2. apply H2. apply in_app_iff. now right.
  - eauto.
Qed.

(* The first [n] rows of a descending order are a ranking: sorted, capped,
   taken from the rows, and no row left out outranks a row that is in. *)
Lemma top_of_orderDesc {A} (key : A -> nat) (n : nat) (l : list A) :
  let top := firstn n (orderDesc key l) in
  List.length top = Nat.min n (List.length l)
  /\ StronglySorted ge (map key top)
  /\ (forall r, In r top -> In r l)
  /\ (forall r x, In r top -> In x l -> key r < key x -> In x top).
Proof.
  cbn zeta. split; [|split; [|split]].
  - rewrite length_firstn. unfold orderDesc. now rewrite stableSort_length.
  - rewrite <- firstn_map. apply firstn_StronglySorted, orderDesc_sorted.
  - intros r Hr. apply firstn_In in Hr. unfold orderDesc in Hr.
    now apply stableSort_In in Hr.
  - intros r x Hr Hx Hlt.
    assert (Hx' : In x (orderDesc key l)).
    { unfold orderDesc. eapply Permutation_in; [|exact Hx].
      symmetry. apply stableSort_Permutation. }
    rewrite <- (firstn_skipn n (orderDesc key l)) in Hx'.
    apply in_app_iff in Hx'. destruct Hx' as [Hx'|Hx']; [exact Hx'|].
    exfalso.
    pose proof (orderDesc_sorted key l) as Hs.
    rewrite <- (firstn_skipn n (orderDesc key l)), map_app in Hs.
    pose proof (StronglySorted_app_cross _ _ _ Hs (key r) (key x)
                  (in_map key _ _ Hr) (in_map key _ _ Hx')) as Hge.
    unfold ge in Hge. lia.
Qed.

Lemma topFieldRows_eligible (g : Graph) (r : TopField) :
  In r (topFieldRows g) -> 1 <= consumersOf r /\ 1 <= producersOf r.
Proof.
  unfold topFieldRows, eligibleFields. intros H.
  apply in_map_iff in H. destruct H as [[f [p c]] [<- H]].
  apply filter_In in H. destruct H as [_ H].
  apply andb_true_iff in H. destruct H as [Hp Hc].
  apply Nat.ltb_lt in Hp. apply Nat.ltb_lt in Hc. simpl. lia.
Qed.

Lemma getFieldDistribution_cases (B : Backend) (topCount : nat) (tr : list Event) :
  exists fd tr',
    ImpactSummary.getFieldDistribution B topCount tr = (Ok fd, tr')
    /\ (fd = ImpactSummary.emptyFieldDistribution
        \/ (ImpactSummary.topConsumerFields fd = topConsumerRows (graph B) topCount
            /\ ImpactSummary.topProducerFields fd = topProducerRows (graph B) topCount)).
Proof.
  unfold ImpactSummary.getFieldDistribution. run_io.
  destruct (fault B (QTopConsumers topCount)) as [[?|?]|]; cbn;
    try (do 2 eexists; split; [reflexivity | left; reflexivity]).
  destruct (fault B (QTopProducers topCount)) as [[?|?]|]; cbn;
    try (do 2 eexists; split; [reflexivity | left; reflexivity]).
  destruct (fault B QSixBands) as [[?|?]|]; cbn;
    try (do 2 eexists; split; [reflexivity | left; reflexivity]).
  do 2 eexists; split; [reflexivity|]. right. split; reflexivity.
Qed.

(** X22: the field distribution always comes back with two rankings of the
    same length, at most the requested number: the one in descending order
    of consumers, the other of producers.  Every ranked field has a producer
    and a consumer, and a field that has both and is left out of a ranking
    does not outrank any field that is in it. *)
Theorem rankings_are_the_top_of_the_eligible_fields (B : Backend)
    (topCount : nat) (tr : list Event) :
  exists fd tr',
    ImpactSummary.getFieldDistribution B topCount tr = (Ok fd, tr')
    /\ List.length (ImpactSummary.topConsumerFields fd) <= topCount
    /\ List.length (ImpactSummary.topProducerFields fd)
       = List.length (ImpactSummary.topConsumerFields fd)
    /\ StronglySorted ge (map consumersOf (ImpactSummary.topConsumerFields fd))
    /\ StronglySorted ge (map producersOf (ImpactSummary.topProducerFields fd))
    /\ (forall r, In r (ImpactSummary.topConsumerFields fd)
                  \/ In r (ImpactSummary.topProducerFields fd) ->
                  In r (topFieldRows (graph B))
                  /\ 1 <= consumersOf r /\ 1 <= producersOf r)
    /\ (forall r x, In r (ImpactSummary.topConsumerFields fd) ->
                    In x (topFieldRows (graph B)) ->
                    consumersOf r < consumersOf x ->
                    In x (ImpactSummary.topConsumerFields fd))
    /\ (forall r x, In r (ImpactSummary.topProducerFields fd) ->
                    In x (topFieldRows (graph B)) ->
                    producersOf r < producersOf x ->
                    In x (ImpactSummary.topProducerFields fd)).
Proof.
  destruct (getFieldDistribution_cases B topCount tr) as [fd [tr' [E H]]].
  exists fd, tr'. split; [exact E|]. destruct H as [->|[Ec Ep]].
  - cbn. repeat split; try constructor; try lia; try tauto.
  - rewrite Ec, Ep. unfold topConsumerRows, topProducerRows.
    destruct (top_of_orderDesc consumersOf topCount (topFieldRows (graph B)))
      as [Lc [Sc [Ic Tc]]].
    destruct (top_of_orderDesc producersOf topCount (topFieldRows (graph B)))
      as [Lp [Sp [Ip Tp]]].
    cbn zeta in *.
    split; [lia|]. split; [lia|]. split; [exact Sc|]. split; [exact Sp|].
    split; [|split; assumption].
    intros r [Hr|Hr]; [apply Ic in Hr | apply Ip in Hr];
      (split; [exact Hr | exact (topFieldRows_eligible _ _ Hr)]).
Qed.

Lemma generateReport_capped (B : Backend)
    (options : ImpactSummary.ImpactSummaryOptions) (tr : list Event) :
  exists s c fd tr',
    ImpactSummary.generateReport B options tr
    = (Ok {| ImpactSummary.systemStats := s;
             ImpactSummary.connectivityStats := c;
             ImpactSummary.fieldDistribution := fd;
             ImpactSummary.riskAssessment :=
               ImpactSummary.generateRiskAssessment s fd |}, tr')
    /\ List.length (ImpactSummary.topConsumerFields fd)
       <= ImpactSummary.topCount options.
Proof.
  unfold ImpactSummary.generateReport.
  destruct (getSystemStats_returns B tr) as [s [tr1 E1]].
  unfold bind at 1. rewrite E1.
  assert (E2 : exists c tr2,
             (if ImpactSummary.notFalse (ImpactSummary.includeConnectivity options)
              then ImpactSummary.getConnectivityStats B
              else ret ImpactSummary.emptyConnectivityStats) tr1 = (Ok c, tr2)).
  { destruct (ImpactSummary.notFalse _);
      [apply getConnectivityStats_returns | unfold ret; eauto]. }
  destruct E2 as [c [tr2 E2]]. unfold bind at 1. rewrite E2.
  assert (E3 : exists fd tr3,
             (if ImpactSummary.notFalse (ImpactSummary.includeDistribution options)
                 && ImpactSummary.notFalse (ImpactSummary.includeTopFields options)
              then ImpactSummary.getFieldDistribution B (ImpactSummary.topCount options)
              else ret ImpactSummary.emptyFieldDistribution) tr2 = (Ok fd, tr3)
             /\ List.length (ImpactSummary.topConsumerFields fd)
                <= ImpactSummary.topCount options).
  { destruct (_ && _);
      [apply getFieldDistribution_capped
      | unfold ret; do 2 eexists; split; [reflexivity | simpl; lia]]. }
  destruct E3 as [fd [tr3 [E3 Hlen]]]. unfold bind at 1. rewrite E3.
  unfold ret. exists s, c, fd, tr3. split; [reflexivity | exact Hlen].
Qed.

Lemma fragility_by_ranking_length (stats : ImpactSummary.SystemStats)
    (fd : ImpactSummary.FieldDistribution) :
  let f := ImpactSummary.systemFragility
             (ImpactSummary.generateRiskAssessment stats fd) in
  (List.length (ImpactSummary.topConsumerFields fd) <= 10 -> f = "LOW" \/ f = "MEDIUM")
  /\ (List.length (ImpactSummary.topConsumerFields fd) <= 5 -> f = "LOW").
Proof.
  cbn zeta. unfold ImpactSummary.generateRiskAssessment.
  cbn [ImpactSummary.systemFragility].
  set (n := List.length (filter _ (map ImpactSummary.assessField _))).
  assert (Hn : n <= List.length (ImpactSummary.topConsumerFields fd)).
  { subst n. etransitivity; [apply filter_length_le|]. now rewrite length_map. }
  split; intros Hcap.
  - replace (20 <? n) with false by (symmetry; apply Nat.ltb_ge; lia).
    replace (10 <? n) with false by (symmetry; apply Nat.ltb_ge; lia).
    destruct (5 <? n); auto.
  - replace (20 <? n) with false by (symmetry; apply Nat.ltb_ge; lia).
    replace (10 <? n) with false by (symmetry; apply Nat.ltb_ge; lia).
    replace (5 <? n) with false by (symmetry; apply Nat.ltb_ge; lia).
    reflexivity.
Qed.

(** X23: with at most 10 top items, which is the default, the report never
    rates the system HIGH or CRITICAL: the fragility is LOW or MEDIUM
    whatever the graph holds; with at most 5 it is always LOW. *)
Theorem default_top_count_rates_low_or_medium (B : Backend)
    (options : ImpactSummary.ImpactSummaryOptions) (tr : list Event)
    (Hcap : ImpactSummary.topCount options <= 10) :
  exists report tr',
    ImpactSummary.generateReport B options tr = (Ok report, tr')
    /\ (ImpactSummary.systemFragility (ImpactSummary.riskAssessment report) = "LOW"
        \/ ImpactSummary.systemFragility (ImpactSummary.riskAssessment report) = "MEDIUM")
    /\ (ImpactSummary.topCount options <= 5 ->
        ImpactSummary.systemFragility (ImpactSummary.riskAssessment report) = "LOW").
Proof.
  destruct (generateReport_capped B options tr) as [s [c [fd [tr' [E Hlen]]]]].
  do 2 eexists. split; [exact E|].
  cbn [ImpactSummary.riskAssessment].
  destruct (fragility_by_ranking_length s fd) as [H10 H5]. cbn zeta in *.
  split; [apply H10; lia|]. intros H. apply H5. lia.
Qed.

Lemma default_top_count_rates_low_or_medium_witness :
  ImpactSummary.topCount ImpactSummary.defaultOptions <= 10
  /\ exists report tr',
       ImpactSummary.generateReport (healthy (fanOut 3))
                                    ImpactSummary.defaultOptions [] = (Ok report, tr')
       /\ (ImpactSummary.systemFragility (ImpactSummary.riskAssessment report) = "LOW"
           \/ ImpactSummary.systemFragility (ImpactSummary.riskAssessment report)
              = "MEDIUM").
Proof.
  assert (Hcap : ImpactSummary.topCount ImpactSummary.defaultOptions <= 10)
    by (simpl; lia).
  split; [exact Hcap|].
  destruct (default_top_count_rates_low_or_medium
              (healthy (fanOut 3)) ImpactSummary.defaultOptions [] Hcap)
    as [report [tr' [E [Hf _]]]].
  exists report, tr'. split; assumption.
Defined.

(** ** The connection *)

Lemma queryNeo4j_connected (srv : Connection.Server) (env : Connection.Env)
    (c : Cypher) (config : option Connection.PartialConfig)
    (cfg : Connection.Neo4jConfig) (evs : list Connection.DriverEvent) :
  Connection.queryNeo4j srv env c config
    (Connection.mkState (Some (Connection.mkInstance true cfg)) evs)
  = (match Connection.run srv c with
     | inr rows => Ok rows
     | inl cause => Throw (QueryError cause c)
     end,
     Connection.mkState (Some (Connection.mkInstance true cfg))
       (evs ++ Connection.sessionEvents (Connection.database cfg) c)).
Proof.
  unfold Connection.queryNeo4j, Connection.getNeo4jConnection,
    Connection.executeQuery, Connection.getSession, Connection.sessionEvents.
  cbn. destruct (Connection.run srv c); cbn; rewrite <- app_assoc; reflexivity.
Qed.

Lemma queryNeo4j_first (srv : Connection.Server) (env : Connection.Env)
    (c : Cypher) (config : option Connection.PartialConfig)
    (evs : list Connection.DriverEvent) :
  let cfg := Connection.newConfig config env in
  Connection.createDriver srv cfg = None ->
  Connection.verifyConnectivity srv cfg = None ->
  Connection.queryNeo4j srv env c config (Connection.mkState None evs)
  = (match Connection.run srv c with
     | inr rows => Ok rows
     | inl cause => Throw (QueryError cause c)
     end,
     Connection.mkState (Some (Connection.mkInstance true cfg))
       (evs ++ Connection.DriverCreated cfg
            :: Connection.sessionEvents (Connection.database cfg) c)).
Proof.
  cbn zeta. intros Hd Hv.
  unfold Connection.queryNeo4j, Connection.getNeo4jConnection, Connection.connect,
    Connection.executeQuery, Connection.getSession, Connection.sessionEvents.
  cbn. rewrite Hd, Hv. cbn.
  destruct (Connection.run srv c); cbn; rewrite <- !app_assoc; reflexivity.
Qed.

Lemma queryEach_connected (srv : Connection.Server) (env : Connection.Env)
    (cfg : Connection.Neo4jConfig)
    (calls : list (Cypher * option Connection.PartialConfig))
    (evs : list Connection.DriverEvent) :
  Connection.queryEach srv env calls
    (Connection.mkState (Some (Connection.mkInstance true cfg)) evs)
  = Connection.mkState (Some (Connection.mkInstance true cfg))
      (evs ++ flat_map (fun call =>
                          Connection.sessionEvents (Connection.database cfg) (fst call))
                       calls).
Proof.
  revert evs. induction calls as [|[c config] calls IH]; intros evs.
  - cbn. now rewrite app_nil_r.
  - cbn [Connection.queryEach flat_map fst].
    rewrite queryNeo4j_connected. cbn [snd]. rewrite IH, <- app_assoc. reflexivity.
Qed.

(** X24: on a server that accepts the connection, a series of queries made
    one after the other shares one driver, created by the first call from
    that call's configuration; the configurations passed to the later calls
    are ignored.  Every query, answered or refused, runs in a session of its
    own on the configured database, closed before the next one opens.
    Closing the shared connection then closes the driver, once: closing
    again changes nothing. *)
Theorem queries_share_one_driver (srv : Connection.Server) (env : Connection.Env)
    (c : Cypher) (config : option Connection.PartialConfig)
    (calls : list (Cypher * option Connection.PartialConfig))
    (Hdriver : Connection.createDriver srv (Connection.newConfig config env) = None)
    (Hverify : Connection.verifyConnectivity srv (Connection.newConfig config env) = None) :
  let cfg := Connection.newConfig config env in
  let st := Connection.queryEach srv env ((c, config) :: calls) Connection.initial in
  Connection.globalConnection st = Some (Connection.mkInstance true cfg)
  /\ Connection.events st
     = Connection.DriverCreated cfg
       :: flat_map (fun call =>
                      Connection.sessionEvents (Connection.database cfg) (fst call))
                   ((c, config) :: calls)
  /\ Connection.closeGlobalConnection st
     = Connection.mkState None (Connection.events st ++ [Connection.DriverClosed])
  /\ Connection.closeGlobalConnection (Connection.closeGlobalConnection st)
     = Connection.closeGlobalConnection st.
Proof.
  cbn zeta. cbn [Connection.queryEach]. unfold Connection.initial.
  rewrite (queryNeo4j_first srv env c config [] Hdriver Hverify). cbn [snd].
  rewrite queryEach_connected. cbn [app flat_map fst].
  cbn [Connection.globalConnection Connection.events].
  split; [reflexivity|]. split; [reflexivity|]. split; reflexivity.
Qed.

Lemma queries_share_one_driver_witness :
  let srv := Connection.serverOf (healthy scenario) in
  let env := Connection.mkEnv None None None (Some "cobol") in
  let other := Some (Connection.mkPartial None None None (Some "elsewhere")) in
  Connection.events
    (Connection.queryEach srv env
       [(QCountFields, None); (QCountBusinessFunctions, other)] Connection.initial)
  = [Connection.DriverCreated (Connection.newConfig None env);
     Connection.SessionOpened "cobol"; Connection.Ran QCountFields;
     Connection.SessionClosed;
     Connection.SessionOpened "cobol"; Connection.Ran QCountBusinessFunctions;
     Connection.SessionClosed].
Proof.
  exact (proj1 (proj2 (queries_share_one_driver
                         (Connection.serverOf (healthy scenario))
                         (Connection.mkEnv None None None (Some "cobol"))
                         QCountFields None
                         [(QCountBusinessFunctions,
                           Some (Connection.mkPartial None None None (Some "elsewhere")))]
                         eq_refl eq_refl))).
Defined.

Lemma countEvents_app (p : Connection.DriverEvent -> bool)
    (l l' : list Connection.DriverEvent) :
  Connection.countEvents p (l ++ l')
  = Connection.countEvents p l + Connection.countEvents p l'.
Proof. unfold Connection.countEvents. now rewrite filter_app, length_app. Qed.

Lemma queryNeo4j_balanced (srv : Connection.Server) (env : Connection.Env)
    (c : Cypher) (config : option Connection.PartialConfig) (st : Connection.State) :
  balanced st ->
  let st' := snd (Connection.queryNeo4j srv env c config st) in
  balanced st'
  /\ Connection.countEvents Connection.isSessionOpened (Connection.events st')
     <= S (Connection.countEvents Connection.isSessionOpened (Connection.events st)).
Proof.
  destruct st as [[[d cfg]|] evs]; unfold balanced, Connection.countEvents; cbn zeta;
    cbn [Connection.globalConnection Connection.events]; intros [Hs [Hc Hd]].
  - unfold Connection.queryNeo4j, Connection.getNeo4jConnection,
      Connection.executeQuery, Connection.getSession.
    cbn. destruct d; cbn.
    + destruct (Connection.run srv c); cbn;
        rewrite ?filter_app, ?length_app; cbn; lia.
    + lia.
  - unfold Connection.queryNeo4j, Connection.getNeo4jConnection, Connection.connect,
      Connection.executeQuery, Connection.getSession.
    cbn.
    destruct (Connection.createDriver srv _); cbn; [lia|].
    destruct (Connection.verifyConnectivity srv _); cbn.
    + rewrite ?filter_app, ?length_app; cbn; lia.
    + destruct (Connection.run srv c); cbn;
        rewrite ?filter_app, ?length_app; cbn; lia.
Qed.

Lemma queryEach_balanced (srv : Connection.Server) (env : Connection.Env)
    (calls : list (Cypher * option Connection.PartialConfig)) (st : Connection.State) :
  balanced st ->
  let st' := Connection.queryEach srv env calls st in
  balanced st'
  /\ Connection.countEvents Connection.isSessionOpened (Connection.events st')
     <= Connection.countEvents Connection.isSessionOpened (Connection.events st)
        + List.length calls.
Proof.
  revert st. induction calls as [|[c config] calls IH]; intros st Hst; cbn zeta.
  - cbn. split; [exact Hst|lia].
  - cbn [Connection.queryEach List.length].
    destruct (queryNeo4j_balanced srv env c config st Hst) as [H1 H2].
    cbn zeta in *.
    destruct (IH _ H1) as [H3 H4]. cbn zeta in *. split; [exact H3|lia].
Qed.

(** X25: whatever the server does, a series of queries made one after the
    other never leaves a session open, creates at most one driver, closes
    none, and opens at most one session per query. *)
Theorem sessions_are_always_closed (srv : Connection.Server) (env : Connection.Env)
    (calls : list (Cypher * option Connection.PartialConfig)) :
  let evs := Connection.events (Connection.queryEach srv env calls Connection.initial) in
  Connection.countEvents Connection.isSessionOpened evs
  = Connection.countEvents Connection.isSessionClosed evs
  /\ Connection.countEvents Connection.isSessionOpened evs <= List.length calls
  /\ Connection.countEvents Connection.isDriverCreated evs <= 1
  /\ Connection.countEvents Connection.isDriverClosed evs = 0.
Proof.
  cbn zeta.
  assert (H0 : balanced Connection.initial) by (repeat split; reflexivity).
  destruct (queryEach_balanced srv env calls Connection.initial H0)
    as [[Hs [Hc Hd]] Hn].
  cbn zeta in *. cbn in Hn.
  split; [exact Hs|]. split; [exact Hn|]. split; [|exact Hc].
  destruct (Connection.globalConnection _); lia.
Qed.

Lemma queryNeo4j_not_connected (srv : Connection.Server) (env : Connection.Env)
    (c : Cypher) (config : option Connection.PartialConfig)
    (cfg : Connection.Neo4jConfig) (evs : list Connection.DriverEvent) :
  Connection.queryNeo4j srv env c config
    (Connection.mkState (Some (Connection.mkInstance false cfg)) evs)
  = (Throw (PlainError "Neo4j driver not connected. Call connect() first."),
     Connection.mkState (Some (Connection.mkInstance false cfg)) evs).
Proof. reflexivity. Qed.

Lemma queryNeo4j_failed (srv : Connection.Server) (env : Connection.Env)
    (c : Cypher) (config : option Connection.PartialConfig) (cause : string) :
  let cfg := Connection.newConfig config env in
  Connection.createDriver srv cfg = Some cause
  \/ (Connection.createDriver srv cfg = None
      /\ Connection.verifyConnectivity srv cfg = Some cause) ->
  Connection.queryNeo4j srv env c config Connection.initial
  = (Throw (PlainError ("Failed to connect to Neo4j at " ++ Connection.uri cfg
                        ++ ": " ++ cause)%string),
     Connection.mkState (Some (Connection.mkInstance false cfg))
       match Connection.createDriver srv cfg with
       | Some _ => []
       | None => [Connection.DriverCreated cfg]
       end).
Proof.
  cbn zeta.
  unfold Connection.queryNeo4j, Connection.getNeo4jConnection, Connection.connect,
    Connection.initial.
  cbn [Connection.globalConnection Connection.events Connection.driver Connection.config].
  intros [Hd|[Hd Hv]].
  - rewrite Hd. reflexivity.
  - rewrite Hd, Hv. reflexivity.
Qed.

(** X26: when the first connection fails, at the creation of the driver or
    at the connectivity check, the call throws "Failed to connect to Neo4j
    at <uri>: <cause>", yet the instance stays stored as the shared
    connection without a driver.  Every later call, whatever the server has
    become and whatever configuration it passes, throws "Neo4j driver not
    connected. Call connect() first." without asking anything of the driver
    library.  A driver created before a failed check is never closed, not
    even when the shared connection is closed, which is what makes the next
    call connect again. *)
Theorem failed_connection_is_kept (srv : Connection.Server) (env : Connection.Env)
    (c : Cypher) (config : option Connection.PartialConfig) (cause : string)
    (Hfails :
       Connection.createDriver srv (Connection.newConfig config env) = Some cause
       \/ (Connection.createDriver srv (Connection.newConfig config env) = None
           /\ Connection.verifyConnectivity srv (Connection.newConfig config env)
              = Some cause)) :
  let cfg := Connection.newConfig config env in
  let r := Connection.queryNeo4j srv env c config Connection.initial in
  fst r = Throw (PlainError ("Failed to connect to Neo4j at " ++ Connection.uri cfg
                             ++ ": " ++ cause)%string)
  /\ Connection.globalConnection (snd r) = Some (Connection.mkInstance false cfg)
  /\ Connection.events (snd r)
     = match Connection.createDriver srv cfg with
       | Some _ => []
       | None => [Connection.DriverCreated cfg]
       end
  /\ (forall srv' env' c' config',
        Connection.queryNeo4j srv' env' c' config' (snd r)
        = (Throw (PlainError "Neo4j driver not connected. Call connect() first."),
           snd r))
  /\ Connection.closeGlobalConnection (snd r)
     = Connection.mkState None (Connection.events (snd r)).
Proof.
  cbn zeta.
  rewrite (queryNeo4j_failed srv env c config cause Hfails).
  cbn [fst snd Connection.globalConnection Connection.events].
  split; [reflexivity|]. split; [reflexivity|]. split; [reflexivity|].
  split; [|reflexivity].
  intros srv' env' c' config'. apply queryNeo4j_not_connected.
Qed.

Lemma failed_connection_is_kept_witness :
  let srv := Connection.mkServer (fun _ => None) (fun _ => Some "ServiceUnavailable")
                                 (Connection.run (Connection.serverOf (healthy scenario))) in
  let env := Connection.mkEnv None None None None in
  let st := snd (Connection.queryNeo4j srv env QCountFields None Connection.initial) in
  Connection.events st
  = [Connection.DriverCreated (Connection.mkConfig "bolt://localhost:7687" "neo4j"
                                                   "cobolanalysis" "neo4j")]
  /\ fst (Connection.queryNeo4j (Connection.serverOf (healthy scenario)) env
                                QCountFields None st)
     = Throw (PlainError "Neo4j driver not connected. Call connect() first.")
  /\ Connection.events (Connection.closeGlobalConnection st) = Connection.events st.
Proof.
  cbn zeta.
  pose proof (failed_connection_is_kept
                (Connection.mkServer (fun _ => None) (fun _ => Some "ServiceUnavailable")
                   (Connection.run (Connection.serverOf (healthy scenario))))
                (Connection.mkEnv None None None None) QCountFields None
                "ServiceUnavailable" (or_intror (conj eq_refl eq_refl))) as H.
  cbn zeta in H. destruct H as [_ [_ [Hev [Hlater Hclose]]]].
  split; [exact Hev|]. split.
  - rewrite Hlater. reflexivity.
  - rewrite Hclose. reflexivity.
Defined.

Lemma orString_some (s b : string) :
  s <> "" -> Connection.orString (Some s) b = s.
Proof.
  intros Hs. unfold Connection.orString.
  destruct (String.eqb_spec s ""); congruence.
Qed.

Lemma orString_nonempty (a : option string) (b : string) :
  b <> "" -> Connection.orString a b <> "".
Proof.
  intros Hb. unfold Connection.orString. destruct a as [s|]; [|exact Hb].
  destruct (String.eqb_spec s ""); congruence.
Qed.

(** X27: the configuration of a connection never has an empty field.  A
    value given to the constructor wins over the environment, which wins
    over the defaults bolt://localhost:7687, neo4j, cobolanalysis and neo4j;
    an empty string, given or in the environment, counts as absent. *)
Theorem configuration_is_never_empty (config : option Connection.PartialConfig)
    (env : Connection.Env) :
  let cfg := Connection.newConfig config env in
  (Connection.uri cfg <> "" /\ Connection.username cfg <> ""
   /\ Connection.password cfg <> "" /\ Connection.database cfg <> "")
  /\ (forall u n p d,
        config = Some (Connection.mkPartial (Some u) (Some n) (Some p) (Some d)) ->
        u <> "" -> n <> "" -> p <> "" -> d <> "" ->
        cfg = Connection.mkConfig u n p d)
  /\ (forall u n p d,
        config = None \/
        config = Some (Connection.mkPartial (Some "") (Some "") (Some "") (Some "")) ->
        env = Connection.mkEnv (Some u) (Some n) (Some p) (Some d) ->
        u <> "" -> n <> "" -> p <> "" -> d <> "" ->
        cfg = Connection.mkConfig u n p d)
  /\ (config = None \/
      config = Some (Connection.mkPartial (Some "") (Some "") (Some "") (Some "")) ->
      env = Connection.mkEnv None None None None
      \/ env = Connection.mkEnv (Some "") (Some "") (Some "") (Some "") ->
      cfg = Connection.mkConfig "bolt://localhost:7687" "neo4j" "cobolanalysis" "neo4j").
Proof.
  cbn zeta. split; [|split; [|split]].
  - unfold Connection.newConfig.
    cbn [Connection.uri Connection.username Connection.password Connection.database].
    repeat split; apply orString_nonempty, orString_nonempty; discriminate.
  - intros u n p d -> Hu Hn Hp Hd. unfold Connection.newConfig.
    cbn [Connection.given Connection.givenUri Connection.givenUsername
         Connection.givenPassword Connection.givenDatabase].
    now rewrite !orString_some.
  - intros u n p d Hc -> Hu Hn Hp Hd. unfold Connection.newConfig.
    cbn [Connection.NEO4J_URI Connection.NEO4J_USERNAME Connection.NEO4J_PASSWORD
         Connection.NEO4J_DATABASE].
    rewrite !orString_some by assumption.
    destruct Hc as [->| ->]; reflexivity.
  - intros [->| ->] [->| ->]; reflexivity.
Qed.

(** ** Masking of sensitive values *)

(** X28: masking keeps the length of a value.  A value of at most 8 code
    units is replaced by asterisks altogether; of a longer one the first
    four and the last four code units are shown and every one between them
    is an asterisk. *)
Theorem masking_keeps_length_and_hides_the_middle (value : list Ascii.ascii) :
  let masked := AwsConfig.maskSensitiveValue value in
  List.length masked = List.length value
  /\ (List.length value <= 8 -> Forall (eq AwsConfig.star) masked)
  /\ (8 < List.length value ->
      forall i d,
        (i < 4 -> nth i masked d = nth i value d)
        /\ (4 <= i < List.length value - 4 -> nth i masked d = AwsConfig.star)
        /\ (List.length value - 4 <= i -> nth i masked d = nth i value d)).
Proof.
  cbn zeta. unfold AwsConfig.maskSensitiveValue.
  destruct (Nat.leb_spec (List.length value) 8) as [Hlen|Hlen].
  - split; [apply repeat_length|]. split; [|lia].
    intros _. apply Forall_forall. intros c Hc.
    apply repeat_spec in Hc. now symmetry.
  - split; [|split; [lia|]].
    + rewrite !length_app, length_firstn, repeat_length, length_skipn. lia.
    + intros _ i d.
      assert (L1 : List.length (firstn 4 value) = 4)
        by (rewrite length_firstn; lia).
      assert (L2 : List.length (repeat AwsConfig.star (List.length value - 8))
                   = List.length value - 8) by apply repeat_length.
      split; [|split]; intros Hi.
      * rewrite app_nth1 by lia. rewrite nth_firstn.
        destruct (Nat.ltb_spec i 4); [reflexivity|lia].
      * rewrite app_nth2 by lia. rewrite app_nth1 by lia.
        apply nth_repeat_lt. lia.
      * rewrite app_nth2 by lia. rewrite app_nth2 by lia.
        rewrite nth_skipn, L1, L2. f_equal. lia.
Qed.
